(** * Abracadabra: editor contract, dead-code removal, expression negation

    A shallow embedding of the refactoring engine:
    - the position / selection model and the [Editor] contract,
    - the VS Code adapter ([VSCodeEditor]) with its text-document primitives,
    - the error-message mapping of the VS Code notification adapter,
    - the "remove dead code" refactoring with the traversal driver it runs on,
    - the "negate expression" refactoring.

    Syntax trees stand for parsed code: the parser and the printer are
    external to the engine and appear as parameters where text is needed. *)

From Stdlib Require Import String Ascii List Bool Arith Lia.
Import ListNotations.
Local Open Scope string_scope.
Local Open Scope nat_scope.
Local Open Scope list_scope.

Set Implicit Arguments.
Set Warnings "-register-all".

(* ================================================================= *)
(** ** Positions, selections, modifications *)

Definition Code := string.

Record Position := { line : nat; character : nat }.

(** [start] and [end_] are the two ends of a selection ([end] is a
    keyword, hence the underscore). *)
Record Selection := { start : Position; end_ : Position }.

Definition mkSelection (sl sc el ec : nat) : Selection :=
  {| start := {| line := sl; character := sc |};
     end_ := {| line := el; character := ec |} |}.

Definition cursorAt (l c : nat) : Selection := mkSelection l c l c.

Definition isSameOrBefore (p q : Position) : bool :=
  (line p <? line q) || ((line p =? line q) && (character p <=? character q)).

Definition isSameOrAfter (p q : Position) : bool := isSameOrBefore q p.

(** Modelled from the spec: [Selection.isInsidePath] / [isInsideNode] are
    declared in the selection module, which is not among the sources.
    Section 4.1: true iff the selection's start and end both fall within
    the node range, bounds included. *)
Definition isInside (selection nodeRange : Selection) : bool :=
  isSameOrAfter (start selection) (start nodeRange)
  && isSameOrBefore (end_ selection) (end_ nodeRange).

Record Modification := { code : Code; selection : Selection }.

(** The reasons named by the sources; the enumeration itself is declared
    outside of them. *)
Inductive ErrorReason :=
| DidNotFoundExtractableCode
| DidNotFoundNegatableExpression
| DidNotFoundDeadCode.

(* ================================================================= *)
(** ** The Editor contract *)

(** The three capabilities the two refactorings consume.  Every method
    is a state transformer of the host: asynchrony is not modelled. *)
Class Editor (E : Type) := {
  write : Code -> option Position -> E -> E;
  readThenWrite :
    Selection -> (Code -> list Modification) -> option Position -> E -> E;
  showError : ErrorReason -> E -> E
}.

(** A recording editor, the counterpart of the test doubles made with
    [jest.fn()]: it keeps the calls it received, oldest first.  The
    fragment handed to [getModifications] is the recorder's [fragment]. *)
Inductive Call :=
| CalledWrite (code : Code) (cursor : option Position)
| CalledReadThenWrite (selection : Selection) (updates : list Modification)
| CalledShowError (reason : ErrorReason).

Record Recorder := { fragment : Code; calls : list Call }.

Definition record (c : Call) (r : Recorder) : Recorder :=
  {| fragment := fragment r; calls := calls r ++ [c] |}.

#[export] Instance RecorderEditor : Editor Recorder := {
  write c p := record (CalledWrite c p);
  readThenWrite s getUpdates _ r :=
    record (CalledReadThenWrite s (getUpdates (fragment r))) r;
  showError reason := record (CalledShowError reason)
}.

(* ================================================================= *)
(** ** The VS Code notification adapter (error messages) *)

Module ShowErrorMessage.

Definition extractableMessage : string :=
  "I didn't found a valid code to extract from current selection 🤔".

Definition genericMessage : string :=
  "I'm sorry, something went wrong but I'm not sure what 😅".

Definition toString (reason : ErrorReason) : string :=
  match reason with
  | DidNotFoundExtractableCode => extractableMessage
  | _ => genericMessage
  end.

End ShowErrorMessage.

(* ================================================================= *)
(** ** The VS Code text document *)

Module vscode.

Record Position := { line : nat; character : nat }.
Record Range := { start : Position; end_ : Position }.
Record TextEdit := { range : Range; newText : string }.

(** A document is its text, lines separated by a line feed. *)
Definition TextDocument := string.

Definition isLineFeed (c : ascii) : bool := Ascii.eqb c "010"%char.

(** [document.offsetAt]: positions past the end of a line or of the
    document are clamped, as the host does. *)
Fixpoint offsetAt (text : string) (l c : nat) : nat :=
  match text with
  | EmptyString => 0
  | String ch rest =>
      match l, c with
      | 0, 0 => 0
      | 0, S c' => if isLineFeed ch then 0 else S (offsetAt rest 0 c')
      | S l', _ =>
          S (offsetAt rest (if isLineFeed ch then l' else S l') c)
      end
  end.

Definition offsetOf (doc : TextDocument) (p : Position) : nat :=
  offsetAt doc (line p) (character p).

Fixpoint lineCount_from (text : string) : nat :=
  match text with
  | EmptyString => 1
  | String ch rest =>
      (if isLineFeed ch then 1 else 0) + lineCount_from rest
  end.

Definition lineCount (doc : TextDocument) : nat := lineCount_from doc.

Fixpoint skip (n : nat) (s : string) : string :=
  match n, s with
  | 0, _ => s
  | S n', EmptyString => EmptyString
  | S n', String _ rest => skip n' rest
  end.

Definition getText (doc : TextDocument) (r : Range) : string :=
  let s := offsetOf doc (start r) in
  let e := offsetOf doc (end_ r) in
  substring s (e - s) doc.

Definition replaceBetween (doc : string) (s e : nat) (text : string) :=
  (substring 0 s doc ++ text ++ skip (Nat.max s e) doc)%string.

(** Edits of one [WorkspaceEdit] all address the document as it was
    before the edit; they are applied from the last range to the
    first, which leaves the offsets of the pending ones valid. *)
Fixpoint insertByStart (doc : TextDocument) (e : TextEdit)
         (sorted : list TextEdit) : list TextEdit :=
  match sorted with
  | [] => [e]
  | e' :: rest =>
      if offsetOf doc (start (range e')) <? offsetOf doc (start (range e))
      then e :: sorted
      else e' :: insertByStart doc e rest
  end.

Definition lastFirst (doc : TextDocument) (edits : list TextEdit) :=
  fold_right (insertByStart doc) [] edits.

Definition applyEdit (doc : TextDocument) (edits : list TextEdit)
  : TextDocument :=
  fold_left
    (fun text e =>
       replaceBetween text (offsetOf doc (start (range e)))
                      (offsetOf doc (end_ (range e))) (newText e))
    (lastFirst doc edits) doc.

End vscode.

(* ================================================================= *)
(** ** The VS Code adapter of the Editor contract *)

Module VSCodeEditor.

(** The adapter's view of the host: the open document, the editor's
    selection and the error messages shown so far.  Scrolling
    ([revealRange]) has no counterpart here. *)
Record t := {
  document : vscode.TextDocument;
  editorSelection : vscode.Range;
  errorMessages : list string
}.

Definition toVSCodePosition (position : Position) : vscode.Position :=
  {| vscode.line := line position;
     vscode.character := character position |}.

Definition toVSCodeCursor (position : Position) : vscode.Range :=
  {| vscode.start := toVSCodePosition position;
     vscode.end_ := toVSCodePosition position |}.

Definition editRange (ed : t) : vscode.Range :=
  {| vscode.start := {| vscode.line := 0; vscode.character := 0 |};
     vscode.end_ := {| vscode.line := vscode.lineCount (document ed);
                       vscode.character := 0 |} |}.

Definition write (code : Code) (newCursorPosition : option Position)
           (ed : t) : t :=
  let cursorAtInitialStartPosition :=
    {| vscode.start := vscode.start (editorSelection ed);
       vscode.end_ := vscode.start (editorSelection ed) |} in
  let edit := [ {| vscode.range := editRange ed;
                   vscode.newText := code |} ] in
  {| document := vscode.applyEdit (document ed) edit;
     editorSelection :=
       match newCursorPosition with
       | Some p => toVSCodeCursor p
       | None => cursorAtInitialStartPosition
       end;
     errorMessages := errorMessages ed |}.

(** The callback mapped over the modifications in [readThenWrite]. *)
Definition toTextEdit (m : Modification) : vscode.TextEdit :=
  let startPosition := toVSCodePosition (start (selection m)) in
  let endPosition := toVSCodePosition (end_ (selection m)) in
  {| vscode.range := {| vscode.start := startPosition;
                        vscode.end_ := endPosition |};
     vscode.newText := code m |}.

Definition readCode (sel : Selection) (ed : t) : Code :=
  let startPosition := toVSCodePosition (start sel) in
  let endPosition := toVSCodePosition (end_ sel) in
  vscode.getText (document ed)
    {| vscode.start := startPosition; vscode.end_ := endPosition |}.

Definition readThenWrite (sel : Selection)
           (getModifications : Code -> list Modification)
           (newCursorPosition : option Position) (ed : t) : t :=
  let textEdits := map toTextEdit (getModifications (readCode sel ed)) in
  {| document := vscode.applyEdit (document ed) textEdits;
     editorSelection :=
       match newCursorPosition with
       | Some p => toVSCodeCursor p
       | None => editorSelection ed
       end;
     errorMessages := errorMessages ed |}.

(** [errorReasonToString] is imported from the editor module and taken
    as a parameter. *)
Definition showError (errorReasonToString : ErrorReason -> string)
           (reason : ErrorReason) (ed : t) : t :=
  {| document := document ed;
     editorSelection := editorSelection ed;
     errorMessages := errorMessages ed ++ [errorReasonToString reason] |}.

Definition asEditor (errorReasonToString : ErrorReason -> string)
  : Editor t :=
  Build_Editor write readThenWrite (showError errorReasonToString).

(** The reading of section 6 that is compared with [toTextEdit]:
    a position local to the fragment read at [origin], moved back to
    document coordinates.  The first fragment line continues the
    origin's line; later lines start at column 0 of the document. *)
Definition toDocumentPosition (origin p : Position) : Position :=
  match line p with
  | 0 => {| line := line origin; character := character origin + character p |}
  | S _ => {| line := line origin + line p; character := character p |}
  end.

Definition translatedTextEdit (origin : Position) (m : Modification)
  : vscode.TextEdit :=
  toTextEdit
    {| code := code m;
       selection :=
         {| start := toDocumentPosition origin (start (selection m));
            end_ := toDocumentPosition origin (end_ (selection m)) |} |}.

End VSCodeEditor.

(* ================================================================= *)
(** ** The adapter's other members *)

Module VSCodeEditorMembers.

(** [get code()]: [document.getText()] without a range is the whole
    text. *)
Definition code (ed : VSCodeEditor.t) : Code := VSCodeEditor.document ed.

Definition createSelectionFromVSCode (selection : vscode.Range)
  : Selection :=
  {| start := {| line := vscode.line (vscode.start selection);
                 character := vscode.character (vscode.start selection) |};
     end_ := {| line := vscode.line (vscode.end_ selection);
                character := vscode.character (vscode.end_ selection) |} |}.

(** [get selection()] *)
Definition selection (ed : VSCodeEditor.t) : Selection :=
  createSelectionFromVSCode (VSCodeEditor.editorSelection ed).

(** A [vscode.Location]: the path of its uri and its range. *)
Record Location := { uriPath : string; locationRange : vscode.Range }.

(** [new CodeReference(path, codeReferenceSelection)] *)
Record CodeReference := {
  referencePath : string;
  referenceSelection : Selection
}.

(** The callback mapped over the locations in [getSelectionReferences]. *)
Definition toCodeReference (loc : Location) : CodeReference :=
  let start := vscode.start (locationRange loc) in
  let end_ := vscode.end_ (locationRange loc) in
  let codeReferenceSelection :=
    Build_Selection
      {| line := vscode.line start + 1;
         character := vscode.character start |}
      {| line := vscode.line end_ + 1;
         character := vscode.character end_ |} in
  {| referencePath := uriPath loc;
     referenceSelection := codeReferenceSelection |}.

(** The host's reference provider, asked at [selection.start], is a
    parameter. *)
Definition getSelectionReferences
           (executeReferenceProvider : Position -> list Location)
           (selection : Selection) : list CodeReference :=
  let locations := executeReferenceProvider (start selection) in
  map toCodeReference locations.

(** A [Choice<T>] as [askUserChoice] destructures it. *)
Record Choice (T : Type) := {
  label : string;
  value : T;
  description : option string;
  icon : option string
}.

Record QuickPickItem (T : Type) := {
  itemLabel : string;
  itemValue : T;
  itemDescription : option string
}.

(** [icon ? `$(${icon}) ${label}` : label]: an absent icon and the empty
    string are both falsy. *)
Definition toQuickPickItem {T : Type} (choice : Choice T)
  : QuickPickItem T :=
  {| itemLabel :=
       match icon choice with
       | Some (String c rest) =>
           ("$(" ++ String c rest ++ ") " ++ label choice)%string
       | _ => label choice
       end;
     itemValue := value choice;
     itemDescription := description choice |}.

(** The host's quick pick is a parameter: it answers with the picked
    item, or with nothing when the user dismisses it. *)
Definition askUserChoice {T : Type}
           (showQuickPick : list (QuickPickItem T) -> option string
                            -> option (QuickPickItem T))
           (choices : list (Choice T)) (placeHolder : option string)
  : option (QuickPickItem T) :=
  showQuickPick (map toQuickPickItem choices) placeHolder.

End VSCodeEditorMembers.

(* ================================================================= *)
(** ** What the adapter's members are observed by *)

Module ObserveEditor.

(** The text of the document up to the start of a selection, and from
    its end on. *)
Definition before (sel : Selection) (ed : VSCodeEditor.t) : string :=
  substring 0
    (vscode.offsetOf (VSCodeEditor.document ed)
                     (VSCodeEditor.toVSCodePosition (start sel)))
    (VSCodeEditor.document ed).

Definition after (sel : Selection) (ed : VSCodeEditor.t) : string :=
  vscode.skip
    (vscode.offsetOf (VSCodeEditor.document ed)
                     (VSCodeEditor.toVSCodePosition (end_ sel)))
    (VSCodeEditor.document ed).

(** The update a refactoring hands to [readThenWrite] when it rewrites
    the code it is given in place. *)
Definition inPlace (f : Code -> Code) (sel : Selection)
  : Code -> list Modification :=
  fun code => [Build_Modification (f code) sel].

Definition oneLineDown (sel : Selection) : Selection :=
  {| start := {| line := line (start sel) + 1;
                 character := character (start sel) |};
     end_ := {| line := line (end_ sel) + 1;
                character := character (end_ sel) |} |}.

(** Errors shown one after the other. *)
Definition showErrors (errorReasonToString : ErrorReason -> string)
           (reasons : list ErrorReason) (ed : VSCodeEditor.t)
  : VSCodeEditor.t :=
  fold_left (fun e reason =>
               VSCodeEditor.showError errorReasonToString reason e)
            reasons ed.

End ObserveEditor.

(* ================================================================= *)
(** ** The AST abstraction *)

Module ast.

Inductive BinaryOperator :=
| OpEqual            (* == *)
| OpNotEqual         (* != *)
| OpStrictEqual      (* === *)
| OpStrictNotEqual   (* !== *)
| OpLess             (* < *)
| OpLessOrEqual      (* <= *)
| OpGreater          (* > *)
| OpGreaterOrEqual   (* >= *)
| OpPlus             (* + *)
| OpMinus            (* - *)
| OpTimes            (* * *)
| OpDivide           (* / *)
| OpModulo           (* % *)
| OpIn               (* in *)
| OpInstanceof.      (* instanceof *)

Inductive LogicalOperator := OpAnd | OpOr.

Inductive UnaryOperator := OpNot | OpTypeof | OpNegative | OpVoid.

(** Expression nodes, each with its source range (already converted to
    the zero-based lines of [Selection]). *)
Inductive Expression :=
| Identifier (loc : Selection) (name : string)
| BooleanLiteral (loc : Selection) (value : bool)
| NumericLiteral (loc : Selection) (value : nat)
| StringLiteral (loc : Selection) (value : string)
| NullLiteral (loc : Selection)
| UnaryExpression (loc : Selection) (operator : UnaryOperator)
                  (argument : Expression)
| BinaryExpression (loc : Selection) (operator : BinaryOperator)
                   (left right : Expression)
| LogicalExpression (loc : Selection) (operator : LogicalOperator)
                    (left right : Expression)
| MemberExpression (loc : Selection) (object : Expression)
                   (property : string)
| CallExpression (loc : Selection) (callee : Expression)
                 (arguments : list Expression).

(** Statement nodes.  Only the range of an [IfStatement] is ever
    consulted, so the other statements do not record theirs.
    Statements nested inside expressions (function bodies) are outside
    this fragment. *)
Inductive Statement :=
| IfStatement (loc : Selection) (test : Expression)
              (consequent : Statement) (alternate : option Statement)
| BlockStatement (body : list Statement)
| ExpressionStatement (expression : Expression)
| WhileStatement (test : Expression) (body : Statement)
| ReturnStatement (argument : option Expression).

Definition Program := list Statement.

Record Transformed := { code : Code; hasCodeChanged : bool }.

(** The members of the AST module that the refactorings call and whose
    bodies are not among the sources: the parser and printer, and the
    semantic predicates of section 4.2.  The two laws are read off
    that section.  [truthy_not_falsy]: the predicates are three-valued,
    an expression is truthy, falsy or unknown, never truthy and falsy
    at once.  [opposite_not_equal]: the opposite of an expression has
    the inverse operator or one more negation, so it is not equal to
    that expression. *)
Class Ast := {
  parse : Code -> Program;
  print : Program -> Code;
  isFalsy : Expression -> bool;
  isTruthy : Expression -> bool;
  areOpposite : Expression -> Expression -> bool;
  areEqual : Expression -> Expression -> bool;
  truthy_not_falsy : forall e, isTruthy e = true -> isFalsy e = false;
  opposite_not_equal :
    forall a b, areOpposite a b = true -> areEqual a b = false
}.

Definition isComparison (operator : BinaryOperator) : bool :=
  match operator with
  | OpEqual | OpNotEqual | OpStrictEqual | OpStrictNotEqual
  | OpLess | OpLessOrEqual | OpGreater | OpGreaterOrEqual => true
  | _ => false
  end.

(** Modelled from the spec: [getOppositeOperator] is declared in the
    AST module, which is not among the sources.  Section 4.2 gives its
    table over the eight comparison operators and leaves it
    "undefined/fails" on every other operator: [None] here. *)
Definition getOppositeOperator (operator : BinaryOperator)
  : option BinaryOperator :=
  match operator with
  | OpEqual => Some OpNotEqual
  | OpNotEqual => Some OpEqual
  | OpStrictEqual => Some OpStrictNotEqual
  | OpStrictNotEqual => Some OpStrictEqual
  | OpLess => Some OpGreaterOrEqual
  | OpLessOrEqual => Some OpGreater
  | OpGreater => Some OpLessOrEqual
  | OpGreaterOrEqual => Some OpLess
  | _ => None
  end.

Definition isBinaryExpression (e : Expression) : bool :=
  match e with
  | BinaryExpression _ _ _ _ => true
  | _ => false
  end.

(** *** Outcomes

    A run of the engine either completes, or reaches
    [getOppositeOperator] on an operator outside its table, where the
    specification defines no result to go on with, or exhausts the
    fuel of the traversal driver (shown below never to happen). *)
Inductive Outcome (A : Type) :=
| Done (a : A)
| OutOfTable (operator : BinaryOperator)
| OutOfFuel.

Arguments OutOfTable {A} operator.
Arguments OutOfFuel {A}.

Definition bind {A B : Type} (m : Outcome A) (k : A -> Outcome B)
  : Outcome B :=
  match m with
  | Done a => k a
  | OutOfTable op => OutOfTable op
  | OutOfFuel => OutOfFuel
  end.

Definition oppositeOperator (operator : BinaryOperator)
  : Outcome BinaryOperator :=
  match getOppositeOperator operator with
  | Some opposite => Done opposite
  | None => OutOfTable operator
  end.

(** *** Paths and mutation primitives *)

(** What became of a path after a visitor ran on it. *)
Inductive PathState :=
| Still (node : Statement)               (* in place, children maybe mutated *)
| ReplacedWith (nodes : list Statement)  (* [replaceWithMultiple] *)
| Gone.                                  (* [remove] *)

Definition getStatements (node : Statement) : list Statement :=
  match node with
  | BlockStatement body => body
  | _ => [node]
  end.

(** Modelled from the spec: [replaceWithBodyOf] is declared in the AST
    module, which is not among the sources.  Section 4.2: it collapses
    a branch into its parent, unwrapping a block into its statements. *)
Definition replaceWithBodyOf (node : Statement) : PathState :=
  ReplacedWith (getStatements node).

(** How the slot that held the path reads afterwards: a statement list
    is spliced; a required slot keeps a block (empty after a removal);
    removing an alternate leaves no else-branch. *)
Definition inList (p : PathState) : list Statement :=
  match p with
  | Still node => [node]
  | ReplacedWith nodes => nodes
  | Gone => []
  end.

Definition inSlot (p : PathState) : Statement :=
  match p with
  | Still node => node
  | ReplacedWith nodes => BlockStatement nodes
  | Gone => BlockStatement []
  end.

Definition inOptionalSlot (p : PathState) : option Statement :=
  match p with
  | Still node => Some node
  | ReplacedWith nodes => Some (BlockStatement nodes)
  | Gone => None
  end.

(** *** The traversal driver

    [transform] and the traversal behind it belong to the AST module,
    which is not among the sources; the definitions below follow
    section 4.2.  The only visitor key the refactoring registers is
    [IfStatement]. *)

Notation "x <- m ;; k" := (bind m (fun x => k))
  (at level 61, m at next level, right associativity).

(** The result of walking part of a tree: what it reads now, whether a
    node was replaced or removed on the way ([hasCodeChanged], section
    4.4), and whether the pass was stopped. *)
Record Walk (A : Type) := {
  result : A;
  hasChanged : bool;
  stopped : bool
}.

Definition untouched {A : Type} (a : A) : Walk A :=
  {| result := a; hasChanged := false; stopped := false |}.

(** A visitor callback for [IfStatement] paths receives the node of
    its path, field by field.  Its first argument is the fuel left to
    the pass that calls it, for the nested passes it starts. *)
Definition Visitor :=
  nat -> Selection -> Expression -> Statement -> option Statement
  -> Outcome (Walk PathState).

Section Walking.

(** [visit] is the driver applied to one statement path. *)
Variable visit : Statement -> Outcome (Walk PathState).

Fixpoint walkList (nodes : list Statement)
  : Outcome (Walk (list Statement)) :=
  match nodes with
  | [] => Done (untouched [])
  | node :: rest =>
      w <- visit node;;
      if stopped w
      then Done {| result := inList (result w) ++ rest;
                   hasChanged := hasChanged w;
                   stopped := true |}
      else
        ws <- walkList rest;;
        Done {| result := inList (result w) ++ result ws;
                hasChanged := hasChanged w || hasChanged ws;
                stopped := stopped ws |}
  end.

Definition walkSlot (node : Statement) : Outcome (Walk Statement) :=
  w <- visit node;;
  Done {| result := inSlot (result w);
          hasChanged := hasChanged w;
          stopped := stopped w |}.

Definition walkOptionalSlot (slot : option Statement)
  : Outcome (Walk (option Statement)) :=
  match slot with
  | None => Done (untouched None)
  | Some node =>
      w <- visit node;;
      Done {| result := inOptionalSlot (result w);
              hasChanged := hasChanged w;
              stopped := stopped w |}
  end.

(** The children of a node, in visitor-key order. *)
Definition walkChildren (node : Statement) : Outcome (Walk Statement) :=
  match node with
  | IfStatement loc test consequent alternate =>
      wc <- walkSlot consequent;;
      if stopped wc
      then Done {| result := IfStatement loc test (result wc) alternate;
                   hasChanged := hasChanged wc;
                   stopped := true |}
      else
        wa <- walkOptionalSlot alternate;;
        Done {| result := IfStatement loc test (result wc) (result wa);
                hasChanged := hasChanged wc || hasChanged wa;
                stopped := stopped wa |}
  | BlockStatement body =>
      w <- walkList body;;
      Done {| result := BlockStatement (result w);
              hasChanged := hasChanged w;
              stopped := stopped w |}
  | WhileStatement test body =>
      w <- walkSlot body;;
      Done {| result := WhileStatement test (result w);
              hasChanged := hasChanged w;
              stopped := stopped w |}
  | ExpressionStatement _ | ReturnStatement _ => Done (untouched node)
  end.

End Walking.

(** Modelled from the spec: the traversal behind [transform], which is
    not among the sources.  Section 4.2: depth-first, pre-order; a
    visitor may replace or remove the node of its path and may call
    [path.stop()], after which no further callback fires in the same
    pass.  The section is silent on the nodes put in place of a
    replaced node: as in the traversal library the engine runs on, they
    are queued and visited by the pass that replaced it.  On one
    statement path the visitor runs on an [IfStatement] (enter), then
    the driver goes on with what is in place: the children of the
    node, or the queued nodes. *)
Fixpoint traverseStatement (fuel : nat) (visitor : Visitor)
         (node : Statement) {struct fuel} : Outcome (Walk PathState) :=
  match fuel with
  | 0 => OutOfFuel
  | S fuel' =>
      match node with
      | IfStatement loc test consequent alternate =>
          v <- visitor fuel' loc test consequent alternate;;
          match result v with
          | Still node' =>
              if stopped v then Done v
              else
                w <- walkChildren (traverseStatement fuel' visitor) node';;
                Done {| result := Still (result w);
                        hasChanged := hasChanged v || hasChanged w;
                        stopped := stopped w |}
          | ReplacedWith nodes =>
              if stopped v
              then Done {| result := ReplacedWith nodes;
                           hasChanged := true;
                           stopped := true |}
              else
                w <- walkList (traverseStatement fuel' visitor) nodes;;
                Done {| result := ReplacedWith (result w);
                        hasChanged := true;
                        stopped := stopped w |}
          | Gone =>
              Done {| result := Gone;
                      hasChanged := true;
                      stopped := stopped v |}
          end
      | _ =>
          w <- walkChildren (traverseStatement fuel' visitor) node;;
          Done {| result := Still (result w);
                  hasChanged := hasChanged w;
                  stopped := stopped w |}
      end
  end.

(** Modelled from the spec: [path.traverse(visitor)], which is not
    among the sources.  Section 4.2: a nested traversal started from a
    callback is an independent pass, not short-circuited by an outer
    [stop()]; it goes over the children of [root], the root itself is
    not handed to the visitor. *)
Definition traverse (fuel : nat) (visitor : Visitor) (root : Statement)
  : Outcome (Walk Statement) :=
  walkChildren (traverseStatement fuel visitor) root.

(** Node count, the fuel a pass is given. *)
Fixpoint size (node : Statement) : nat :=
  match node with
  | IfStatement _ _ consequent alternate =>
      S (size consequent
         + match alternate with Some a => size a | None => 0 end)
  | BlockStatement body =>
      S ((fix sizes (l : list Statement) : nat :=
            match l with
            | [] => 0
            | n :: rest => size n + sizes rest
            end) body)
  | WhileStatement _ body => S (size body)
  | ExpressionStatement _ | ReturnStatement _ => 1
  end.

Definition sizeList (nodes : list Statement) : nat :=
  fold_right (fun n acc => size n + acc) 0 nodes.

Definition fuelFor (program : Program) : nat := S (sizeList program).

(** The pass over a whole program. *)
Definition traverseProgram (fuel : nat) (visitor : Visitor)
           (program : Program) : Outcome (Walk Program) :=
  walkList (traverseStatement fuel visitor) program.

(** Modelled from the spec: [transform], which is not among the
    sources.  Section 4.2: parse, run the visitor over the program,
    print; section 4.4: [hasCodeChanged] is true iff at least one
    replacement occurred. *)
Definition transform `{Ast} (code : Code) (visitor : Visitor)
  : Outcome Transformed :=
  let program := parse code in
  w <- traverseProgram (fuelFor program) visitor program;;
  Done {| code := print (result w); hasCodeChanged := hasChanged w |}.

End ast.

(* ================================================================= *)
(** ** Remove dead code *)

Module RemoveDeadCode.

Import ast.

Section Refactoring.

Context `{Ast}.

Definition replaceWithAlternate (alternate : option Statement)
  : PathState :=
  match alternate with
  | Some a => replaceWithBodyOf a
  | None => Gone
  end.

Definition replaceWithConsequent (consequent : Statement) : PathState :=
  replaceWithBodyOf consequent.

(** The nested path is given by the fields of its node. *)
Definition removeDeadCodeFromNestedIf (test : Expression)
           (loc : Selection) (nestedTest : Expression)
           (consequent : Statement) (alternate : option Statement)
  : PathState :=
  if areOpposite test nestedTest then replaceWithAlternate alternate
  else if areEqual test nestedTest then replaceWithConsequent consequent
  else Still (IfStatement loc nestedTest consequent alternate).

(** The visitor of the pass over the consequent. *)
Definition consequentVisitor (test : Expression) : Visitor :=
  fun _ loc nestedTest consequent alternate =>
    Done (untouched
            (removeDeadCodeFromNestedIf test loc nestedTest
                                        consequent alternate)).

(** [{ ...test, operator: getOppositeOperator(test.operator) }] for a
    binary expression, [test] itself otherwise. *)
Definition oppositeTest (test : Expression) : Outcome Expression :=
  match test with
  | BinaryExpression loc operator l r =>
      opposite <- oppositeOperator operator;;
      Done (BinaryExpression loc opposite l r)
  | _ => Done test
  end.

(** The visitor of the pass over the alternate: the opposite test is
    computed on each call. *)
Definition alternateVisitor (test : Expression) : Visitor :=
  fun _ loc nestedTest consequent alternate =>
    opposite <- oppositeTest test;;
    Done (untouched
            (removeDeadCodeFromNestedIf opposite loc nestedTest
                                        consequent alternate)).

(** The [IfStatement] callback of [updateCode]. *)
Definition IfStatementVisitor (selection : Selection) : Visitor :=
  fun fuel loc test consequent alternate =>
    if negb (isInside selection loc)
    then Done (untouched (Still (IfStatement loc test consequent alternate)))
    else if isFalsy test
    then Done {| result := replaceWithAlternate alternate;
                 hasChanged := false;
                 stopped := true |}
    else if isTruthy test
    then Done {| result := replaceWithConsequent consequent;
                 hasChanged := false;
                 stopped := true |}
    else
      wc <- traverse fuel (consequentVisitor test) consequent;;
      wa <- match alternate with
            | Some a =>
                w <- traverse fuel (alternateVisitor test) a;;
                Done {| result := Some (result w);
                        hasChanged := hasChanged w;
                        stopped := false |}
            | None => Done (untouched None)
            end;;
      Done {| result := Still (IfStatement loc test (result wc) (result wa));
              hasChanged := hasChanged wc || hasChanged wa;
              stopped := false |}.

Definition updateCode (code : Code) (selection : Selection)
  : Outcome Transformed :=
  transform code (IfStatementVisitor selection).

Definition removeDeadCode {E : Type} `{Editor E} (code : Code)
           (selection : Selection) (editor : E) : Outcome E :=
  updatedCode <- updateCode code selection;;
  if negb (hasCodeChanged updatedCode)
  then Done (showError DidNotFoundDeadCode editor)
  else Done (write (ast.code updatedCode) None editor).

Definition hasDeadCode (code : Code) (selection : Selection)
  : Outcome bool :=
  updatedCode <- updateCode code selection;;
  Done (hasCodeChanged updatedCode).

(** The same pass on a parsed program. *)
Definition updateProgram (program : Program) (selection : Selection)
  : Outcome (Walk Program) :=
  traverseProgram (fuelFor program) (IfStatementVisitor selection) program.

End Refactoring.

End RemoveDeadCode.

(* ================================================================= *)
(** ** Negate expression *)

Module NegateExpression.

Import ast.

Definition locOf (e : Expression) : Selection :=
  match e with
  | Identifier loc _ | BooleanLiteral loc _ | NumericLiteral loc _
  | StringLiteral loc _ | NullLiteral loc | UnaryExpression loc _ _
  | BinaryExpression loc _ _ _ | LogicalExpression loc _ _ _
  | MemberExpression loc _ _ | CallExpression loc _ _ => loc
  end.

Definition getOppositeLogical (operator : LogicalOperator)
  : LogicalOperator :=
  match operator with
  | OpAnd => OpOr
  | OpOr => OpAnd
  end.

(** Modelled from the spec: the negate-expression module is not among
    the sources, only its test suite is.  [negateBranch] is [NOT] of
    section 4.3, step 3: a comparison flips its operator, a logical
    expression is demorganized over its negated operands, [!x] gives
    [x], and any other expression [x] gives [!x]. *)
Fixpoint negateBranch (e : Expression) : Expression :=
  match e with
  | UnaryExpression _ OpNot argument => argument
  | BinaryExpression loc operator l r =>
      match getOppositeOperator operator with
      | Some opposite => BinaryExpression loc opposite l r
      | None => UnaryExpression loc OpNot e
      end
  | LogicalExpression loc operator l r =>
      LogicalExpression loc (getOppositeLogical operator)
                        (negateBranch l) (negateBranch r)
  | _ => UnaryExpression (locOf e) OpNot e
  end.

(** Modelled from the spec: the rewrite of the resolved target
    (section 4.3, step 3, and the expected texts of the tests).  An
    already negated target [!(x)] loses its [!], and [x] is simplified
    back when it is a logical expression or a comparison; an
    identifier or member expression [x] gives [!x]; any other target
    is wrapped in one [!] around its negated form. *)
Definition negate (target : Expression) : Expression :=
  match target with
  | UnaryExpression _ OpNot argument =>
      match argument with
      | LogicalExpression _ _ _ _ => negateBranch argument
      | BinaryExpression _ operator _ _ =>
          if isComparison operator then negateBranch argument else argument
      | _ => argument
      end
  | Identifier _ _ | MemberExpression _ _ _ =>
      UnaryExpression (locOf target) OpNot target
  | _ => UnaryExpression (locOf target) OpNot (negateBranch target)
  end.

(** An identifier, or a member expression down from one
    ([user.isValid]): what section 4.3 reads as an implicit boolean. *)
Fixpoint isBooleanIdentifier (e : Expression) : bool :=
  match e with
  | Identifier _ _ => true
  | MemberExpression _ object _ => isBooleanIdentifier object
  | _ => false
  end.

Definition isNegatedIdentifier (e : Expression) : bool :=
  match e with
  | UnaryExpression _ OpNot argument => isBooleanIdentifier argument
  | _ => false
  end.

Definition orElse {A : Type} (x y : option A) : option A :=
  match x with
  | Some _ => x
  | None => y
  end.

(** Modelled from the spec: the widening rule of section 4.3, step 2.
    [found] is the target resolved within [operand], an operand of
    the logical expression [whole]: when the operand is an identifier
    or a negated identifier the target is the whole logical
    expression, otherwise it is the one found. *)
Definition widenTo (whole operand : Expression)
           (found : option Expression) : option Expression :=
  match found with
  | Some target =>
      Some (if isBooleanIdentifier operand || isNegatedIdentifier operand
            then whole else target)
  | None => None
  end.

(** Modelled from the spec: target resolution (section 4.3, steps 1
    and 2).  The innermost negatable expression whose range contains
    the selection, operands before the expression that holds them: a
    comparison, a logical expression, a negation [!(...)], which is
    taken whole, or an identifier or member expression standing where
    a boolean is expected ([boolean]): as the test of a statement or
    as an operand of a logical expression.  The operands of a
    comparison, the callee and the arguments of a call are no such
    places. *)
Fixpoint findNegatable (boolean : bool) (selection : Selection)
         (e : Expression) : option Expression :=
  let here := isInside selection (locOf e) in
  match e with
  | Identifier _ _ => if boolean && here then Some e else None
  | MemberExpression _ object _ =>
      orElse (findNegatable false selection object)
             (if boolean && here then Some e else None)
  | LogicalExpression _ _ l r =>
      orElse (widenTo e l (findNegatable true selection l))
        (orElse (widenTo e r (findNegatable true selection r))
                (if here then Some e else None))
  | BinaryExpression _ operator l r =>
      orElse (findNegatable false selection l)
        (orElse (findNegatable false selection r)
                (if isComparison operator && here then Some e else None))
  | UnaryExpression _ OpNot _ => if here then Some e else None
  | UnaryExpression _ _ argument => findNegatable false selection argument
  | CallExpression _ callee arguments =>
      orElse (findNegatable false selection callee)
        ((fix first (l : list Expression) : option Expression :=
            match l with
            | [] => None
            | a :: rest =>
                orElse (findNegatable false selection a) (first rest)
            end) arguments)
  | _ => None
  end.

(** Modelled from the spec: the search of [findNegatableExpression]
    over the statements of the program (section 4.3, step 1): the
    expressions a statement holds are searched in source order; the
    test of an [if] or of a loop is where a boolean is expected. *)
Fixpoint findInStatement (selection : Selection) (s : Statement)
  : option Expression :=
  match s with
  | IfStatement _ test consequent alternate =>
      orElse (findNegatable true selection test)
        (orElse (findInStatement selection consequent)
           match alternate with
           | Some a => findInStatement selection a
           | None => None
           end)
  | BlockStatement body =>
      (fix first (l : list Statement) : option Expression :=
         match l with
         | [] => None
         | n :: rest => orElse (findInStatement selection n) (first rest)
         end) body
  | ExpressionStatement e => findNegatable false selection e
  | WhileStatement test body =>
      orElse (findNegatable true selection test)
             (findInStatement selection body)
  | ReturnStatement (Some e) => findNegatable false selection e
  | ReturnStatement None => None
  end.

Fixpoint findInProgram (selection : Selection) (program : Program)
  : option Expression :=
  match program with
  | [] => None
  | s :: rest =>
      orElse (findInStatement selection s) (findInProgram selection rest)
  end.

(** *** The negatable expressions of a program

    Section 4.3, step 1, read as a list: the comparisons, the logical
    expressions and the negations of an expression, a negation taken
    whole, and its identifiers and member expressions that stand
    where a boolean is expected. *)
Fixpoint negatableIn (boolean : bool) (e : Expression)
  : list Expression :=
  match e with
  | Identifier _ _ => if boolean then [e] else []
  | MemberExpression _ object _ =>
      negatableIn false object ++ (if boolean then [e] else [])
  | LogicalExpression _ _ l r =>
      negatableIn true l ++ negatableIn true r ++ [e]
  | BinaryExpression _ operator l r =>
      negatableIn false l ++ negatableIn false r
      ++ (if isComparison operator then [e] else [])
  | UnaryExpression _ OpNot _ => [e]
  | UnaryExpression _ _ argument => negatableIn false argument
  | CallExpression _ callee arguments =>
      negatableIn false callee ++ flat_map (negatableIn false) arguments
  | _ => []
  end.

Fixpoint negatableInStatement (s : Statement) : list Expression :=
  match s with
  | IfStatement _ test consequent alternate =>
      negatableIn true test
      ++ negatableInStatement consequent
      ++ match alternate with
         | Some a => negatableInStatement a
         | None => []
         end
  | BlockStatement body =>
      (fix all (l : list Statement) : list Expression :=
         match l with
         | [] => []
         | n :: rest => negatableInStatement n ++ all rest
         end) body
  | ExpressionStatement e => negatableIn false e
  | WhileStatement test body =>
      negatableIn true test ++ negatableInStatement body
  | ReturnStatement (Some e) => negatableIn false e
  | ReturnStatement None => []
  end.

Definition negatableExpressions (program : Program) : list Expression :=
  flat_map negatableInStatement program.

(** *** Printing expressions

    The printer is external to the engine.  This one writes an
    expression on one line, operators between single spaces and
    parentheses where precedence asks for them, which is how the
    expressions of the tests are written. *)

Local Infix "+++" := String.append (right associativity, at level 60).

Definition printBinaryOperator (operator : BinaryOperator) : string :=
  match operator with
  | OpEqual => "=="
  | OpNotEqual => "!="
  | OpStrictEqual => "==="
  | OpStrictNotEqual => "!=="
  | OpLess => "<"
  | OpLessOrEqual => "<="
  | OpGreater => ">"
  | OpGreaterOrEqual => ">="
  | OpPlus => "+"
  | OpMinus => "-"
  | OpTimes => "*"
  | OpDivide => "/"
  | OpModulo => "%"
  | OpIn => "in"
  | OpInstanceof => "instanceof"
  end.

Definition printLogicalOperator (operator : LogicalOperator) : string :=
  match operator with
  | OpAnd => "&&"
  | OpOr => "||"
  end.

Definition printUnaryOperator (operator : UnaryOperator) : string :=
  match operator with
  | OpNot => "!"
  | OpTypeof => "typeof "
  | OpNegative => "-"
  | OpVoid => "void "
  end.

Definition binaryPrecedence (operator : BinaryOperator) : nat :=
  match operator with
  | OpEqual | OpNotEqual | OpStrictEqual | OpStrictNotEqual => 3
  | OpLess | OpLessOrEqual | OpGreater | OpGreaterOrEqual
  | OpIn | OpInstanceof => 4
  | OpPlus | OpMinus => 5
  | OpTimes | OpDivide | OpModulo => 6
  end.

Definition precedence (e : Expression) : nat :=
  match e with
  | LogicalExpression _ OpOr _ _ => 1
  | LogicalExpression _ OpAnd _ _ => 2
  | BinaryExpression _ operator _ _ => binaryPrecedence operator
  | UnaryExpression _ _ _ => 7
  | _ => 8
  end.

Definition parenthesized (needed : bool) (text : string) : string :=
  if needed then ("(" +++ text +++ ")") else text.

Fixpoint digits (fuel n : nat) (acc : string) : string :=
  match fuel with
  | 0 => acc
  | S fuel' =>
      let d := String (ascii_of_nat (48 + n mod 10)) acc in
      if n <? 10 then d else digits fuel' (n / 10) d
  end.

Definition printNumber (n : nat) : string := digits (S n) n "".

Fixpoint printExpression (e : Expression) : string :=
  match e with
  | Identifier _ name => name
  | BooleanLiteral _ value => if value then "true" else "false"
  | NumericLiteral _ value => printNumber value
  | StringLiteral _ value => ("'" +++ value +++ "'")
  | NullLiteral _ => "null"
  | UnaryExpression _ operator argument =>
      (printUnaryOperator operator
       +++ parenthesized (precedence argument <? 7)
                        (printExpression argument))
  | BinaryExpression _ operator l r =>
      (parenthesized (precedence l <? binaryPrecedence operator)
                     (printExpression l)
       +++ " " +++ printBinaryOperator operator +++ " "
       +++ parenthesized (precedence r <=? binaryPrecedence operator)
                        (printExpression r))
  | LogicalExpression _ operator l r =>
      (parenthesized (precedence l <? precedence e) (printExpression l)
       +++ " " +++ printLogicalOperator operator +++ " "
       +++ parenthesized (precedence r <=? precedence e)
                        (printExpression r))
  | MemberExpression _ object property =>
      (printExpression object +++ "." +++ property)
  | CallExpression _ callee arguments =>
      (printExpression callee +++ "("
       +++ (fix commas (l : list Expression) : string :=
             match l with
             | [] => ""
             | [a] => printExpression a
             | a :: rest => printExpression a +++ ", " +++ commas rest
             end) arguments
       +++ ")")
  end.

Section Refactoring.

Context `{Ast}.

(** Modelled from the spec: [findNegatableExpression], the read-only
    predicate of section 4.3, [None] standing for [undefined]. *)
Definition findNegatableExpression (code : Code) (selection : Selection)
  : option Expression :=
  findInProgram selection (parse code).

(** Modelled from the spec: the update function handed to
    [readThenWrite] (section 4.3, step 4).  It negates the fragment it
    is given, as the tests have it; a fragment that is not one
    expression is left as it is. *)
Definition negateCode (fragment : Code) : Code :=
  match parse fragment with
  | [ExpressionStatement e] => printExpression (negate e)
  | _ => fragment
  end.

(** Modelled from the spec: section 4.3, steps 1 and 4, and the
    calls the tests expect on the two callbacks. *)
Definition negateExpression {E : Type} `{Editor E} (code : Code)
           (selection : Selection) (editor : E) : E :=
  match findNegatableExpression code selection with
  | None => showError DidNotFoundNegatableExpression editor
  | Some expression =>
      let expressionSelection := locOf expression in
      readThenWrite expressionSelection
        (fun fragment =>
           [ Build_Modification (negateCode fragment)
                                expressionSelection ])
        None editor
  end.

End Refactoring.

End NegateExpression.

(* ================================================================= *)
(** ** Measures and observations used by the statements *)

Module Observe.

Import ast.

(** The [if] statements of a tree, in pre-order: range and test. *)
Fixpoint ifs (node : Statement) : list (Selection * Expression) :=
  match node with
  | IfStatement loc test consequent alternate =>
      (loc, test)
        :: ifs consequent
        ++ match alternate with Some a => ifs a | None => [] end
  | BlockStatement body =>
      (fix all (l : list Statement) : list (Selection * Expression) :=
         match l with
         | [] => []
         | n :: rest => ifs n ++ all rest
         end) body
  | WhileStatement _ body => ifs body
  | ExpressionStatement _ | ReturnStatement _ => []
  end.

Definition ifsOf (nodes : list Statement) := flat_map ifs nodes.

Definition ifsOfOption (slot : option Statement) :=
  match slot with
  | Some node => ifs node
  | None => []
  end.

(** The [if] statements strictly below a node. *)
Definition nestedIfs (node : Statement) : list (Selection * Expression) :=
  match node with
  | IfStatement _ _ consequent alternate =>
      ifs consequent ++ ifsOfOption alternate
  | BlockStatement body => ifsOf body
  | WhileStatement _ body => ifs body
  | ExpressionStatement _ | ReturnStatement _ => []
  end.

Definition ifsOfPath (p : PathState) :=
  match p with
  | Still node => ifs node
  | ReplacedWith nodes => ifsOf nodes
  | Gone => []
  end.

Definition sizeOfOption (slot : option Statement) : nat :=
  match slot with
  | Some node => size node
  | None => 0
  end.

(** The size of the slot a path leaves behind. *)
Definition weight (p : PathState) : nat := size (inSlot p).

Definition emptyRecorder : Recorder := {| fragment := ""; calls := [] |}.

Definition callsOf (o : Outcome Recorder) : list Call :=
  match o with
  | Done r => calls r
  | _ => []
  end.

(** Number of [!] stacked at the top of an expression. *)
Fixpoint leadingNots (e : Expression) : nat :=
  match e with
  | UnaryExpression _ OpNot argument => S (leadingNots argument)
  | _ => 0
  end.

End Observe.

(* ================================================================= *)
(** ** What a nested pass makes of a tree *)

Module Pruning.

Import ast.

Section Governed.

Context `{Ast}.

(** [g] is the governing condition of the pass. *)
Variable g : Expression.

(** [Pruned node p]: [p] is what the path of [node] becomes.  An
    [if] whose test is the opposite of [g] gives way to the
    statements of its alternate (it is removed when it has none),
    an [if] whose test equals [g] gives way to the statements of its
    consequent, and the statements put in place are pruned in
    turn; any other node stays, with its children pruned. *)
Inductive Pruned : Statement -> PathState -> Prop :=
| PrunedOpposite : forall loc test c a nodes,
    areOpposite g test = true ->
    PrunedList (getStatements a) nodes ->
    Pruned (IfStatement loc test c (Some a)) (ReplacedWith nodes)
| PrunedOppositeNoElse : forall loc test c,
    areOpposite g test = true ->
    Pruned (IfStatement loc test c None) Gone
| PrunedEqual : forall loc test c a nodes,
    areEqual g test = true ->
    PrunedList (getStatements c) nodes ->
    Pruned (IfStatement loc test c a) (ReplacedWith nodes)
| PrunedOther : forall loc test c a node',
    areOpposite g test = false ->
    areEqual g test = false ->
    PrunedBelow (IfStatement loc test c a) node' ->
    Pruned (IfStatement loc test c a) (Still node')
| PrunedBlock : forall body node',
    PrunedBelow (BlockStatement body) node' ->
    Pruned (BlockStatement body) (Still node')
| PrunedExpression : forall e node',
    PrunedBelow (ExpressionStatement e) node' ->
    Pruned (ExpressionStatement e) (Still node')
| PrunedWhile : forall test body node',
    PrunedBelow (WhileStatement test body) node' ->
    Pruned (WhileStatement test body) (Still node')
| PrunedReturn : forall arg node',
    PrunedBelow (ReturnStatement arg) node' ->
    Pruned (ReturnStatement arg) (Still node')

(** [PrunedBelow root root']: the children of [root] are pruned,
    [root] itself is not examined. *)
with PrunedBelow : Statement -> Statement -> Prop :=
| BelowIf : forall loc test c a pc a',
    Pruned c pc ->
    PrunedOption a a' ->
    PrunedBelow (IfStatement loc test c a)
                (IfStatement loc test (inSlot pc) a')
| BelowBlock : forall body nodes,
    PrunedList body nodes ->
    PrunedBelow (BlockStatement body) (BlockStatement nodes)
| BelowExpression : forall e,
    PrunedBelow (ExpressionStatement e) (ExpressionStatement e)
| BelowWhile : forall test body pb,
    Pruned body pb ->
    PrunedBelow (WhileStatement test body)
                (WhileStatement test (inSlot pb))
| BelowReturn : forall arg,
    PrunedBelow (ReturnStatement arg) (ReturnStatement arg)

with PrunedList : list Statement -> list Statement -> Prop :=
| PrunedNil : PrunedList [] []
| PrunedCons : forall node rest p nodes,
    Pruned node p ->
    PrunedList rest nodes ->
    PrunedList (node :: rest) (inList p ++ nodes)

with PrunedOption : option Statement -> option Statement -> Prop :=
| PrunedNone : PrunedOption None None
| PrunedSome : forall node p,
    Pruned node p ->
    PrunedOption (Some node) (inOptionalSlot p).

Definition PrunedBelowOption (a a' : option Statement) : Prop :=
  match a, a' with
  | Some root, Some root' => PrunedBelow root root'
  | None, None => True
  | _, _ => False
  end.

End Governed.

(** The reading of section 4.4 that is compared with [oppositeTest]:
    the logically negated test is the outer test with its operator
    flipped when the outer test is a comparison, and the outer test
    itself otherwise. *)
Definition negatedTest (test : Expression) : Expression :=
  match test with
  | BinaryExpression loc operator l r =>
      if isComparison operator
      then match getOppositeOperator operator with
           | Some opposite => BinaryExpression loc opposite l r
           | None => test
           end
      else test
  | _ => test
  end.

(** The tests that a flip can be asked of: everything but a binary
    expression whose operator is not a comparison. *)
Definition flippable (test : Expression) : bool :=
  match test with
  | BinaryExpression _ operator _ _ => isComparison operator
  | _ => true
  end.

End Pruning.

(* ================================================================= *)
(** ** Invariants of the passes *)

Module Invariants.

Import ast Observe Pruning.

(** The head of a node: its own range and test when it is an [if]. *)
Definition head (node : Statement) : list (Selection * Expression) :=
  match node with
  | IfStatement loc test _ _ => [(loc, test)]
  | _ => []
  end.

Section Invariant.

(** [good] is what a pass establishes for the [if] statements it
    leaves behind; [blame] relates an [if] of the input to the
    operator that was out of the table. *)
Variable good : Selection * Expression -> Prop.
Variable blame : Selection * Expression -> BinaryOperator -> Prop.

Definition kept (sizeIn : nat) (ifsIn : list (Selection * Expression))
           (sizeOut : nat) (ifsOut : list (Selection * Expression))
           (stop : bool) : Prop :=
  sizeOut <= sizeIn
  /\ (forall i, In i ifsOut -> In i ifsIn /\ good i)
  /\ (stop = true -> forall i, good i).

Definition sound {A : Type} (sizeIn : nat)
           (ifsIn : list (Selection * Expression))
           (sizeOut : A -> nat)
           (ifsOut : A -> list (Selection * Expression))
           (o : Outcome (Walk A)) : Prop :=
  match o with
  | Done w =>
      kept sizeIn ifsIn (sizeOut (result w)) (ifsOut (result w)) (stopped w)
  | OutOfTable op => exists i, In i ifsIn /\ blame i op
  | OutOfFuel => False
  end.

Definition soundOn (visit : Statement -> Outcome (Walk PathState))
           (node : Statement) : Prop :=
  sound (size node) (ifs node) weight ifsOfPath (visit node).

(** What a visitor must guarantee on the node it is called on. *)
Definition visitorSound (v : Visitor) : Prop :=
  forall fuel loc test c a,
    size c + sizeOfOption a <= fuel ->
    match v fuel loc test c a with
    | Done vw =>
        weight (result vw) <= size (IfStatement loc test c a)
        /\ (forall i, In i (ifsOfPath (result vw)) ->
                      In i (ifs (IfStatement loc test c a)))
        /\ (forall node i, result vw = Still node ->
                           In i (head node) -> good i)
        /\ (stopped vw = true -> forall i, good i)
    | OutOfTable op =>
        exists i, In i (ifs (IfStatement loc test c a)) /\ blame i op
    | OutOfFuel => False
    end.

End Invariant.

Definition nobody (_ : Selection * Expression) (_ : BinaryOperator)
  : Prop := False.

Definition anything (_ : Selection * Expression) : Prop := True.

Definition blocked (op : BinaryOperator)
           (_ : Selection * Expression) (op' : BinaryOperator) : Prop :=
  op' = op.

(** *** Accounting for change

    [accounted ifsOf input w]: a walk whose flag is down gives back its
    input, and a walk whose flag is up has lost at least one [if]. *)
Definition flag (b : bool) : nat := if b then 1 else 0.

Definition accounted {A : Type} (ifsOf : A -> list (Selection * Expression))
           (input : A) (w : Walk A) : Prop :=
  (hasChanged w = false -> result w = input)
  /\ length (ifsOf (result w)) + flag (hasChanged w)
     <= length (ifsOf input).

Definition isReplacement (p : PathState) : bool :=
  match p with
  | Still _ => false
  | _ => true
  end.

(** What a visitor must guarantee for the accounting to hold. *)
Definition visitorAccounted (v : Visitor) : Prop :=
  forall fuel loc test c a vw,
    v fuel loc test c a = Done vw ->
    (hasChanged vw = false -> forall node,
        result vw = Still node -> node = IfStatement loc test c a)
    /\ length (ifsOfPath (result vw))
       + flag (hasChanged vw || isReplacement (result vw))
       <= length (ifs (IfStatement loc test c a)).

Section Governed.

Context `{Ast}.

(** What a nested pass governed by [g] leaves behind: no [if] whose
    test is the opposite of [g] or equal to it. *)
Definition settled (g : Expression) (i : Selection * Expression) : Prop :=
  areOpposite g (snd i) = false /\ areEqual g (snd i) = false.

(** Where the run can leave the table: at an [if] that contains the
    selection, whose test is a binary expression not statically
    decided, with an operator [getOppositeOperator] has no entry
    for. *)
Definition outOfTableAt (selection : Selection)
           (i : Selection * Expression) (op : BinaryOperator) : Prop :=
  isInside selection (fst i) = true
  /\ isFalsy (snd i) = false
  /\ isTruthy (snd i) = false
  /\ exists loc l r,
      snd i = BinaryExpression loc op l r
      /\ getOppositeOperator op = None.

(** [visit] prunes [node] and does not stop. *)
Definition prunes (g : Expression)
           (visit : Statement -> Outcome (Walk PathState))
           (node : Statement) : Prop :=
  exists w,
    visit node = Done w /\ stopped w = false /\ Pruned g node (result w).

End Governed.

End Invariants.

(* ================================================================= *)
(** ** What becomes of the alternate of an undecided [if] *)

Module Governing.

Import ast Observe Pruning Invariants RemoveDeadCode.

Section Governed.

Context `{Ast}.

(** [PrunedAlternate test a a']: the alternate [a] of an [if] whose
    test is [test] reads [a'] after the callback.  Whenever the
    opposite test exists the [if] statements below the alternate are
    pruned against it and none is left that it settles; an alternate
    that holds no [if] stays as it is, the opposite test not being
    asked for. *)
Definition PrunedAlternate (test : Expression)
           (a a' : option Statement) : Prop :=
  match a, a' with
  | None, None => True
  | Some root, Some root' =>
      (forall g, oppositeTest test = Done g ->
                 PrunedBelow g root root'
                 /\ forall i, In i (nestedIfs root') -> settled g i)
      /\ (nestedIfs root = [] -> root' = root)
  | _, _ => False
  end.

(** The opposite test is asked for only when the alternate holds an
    [if]; it exists for a comparison and for a test that is no binary
    expression. *)
Definition alternateWithinTheTable (test : Expression)
           (a : option Statement) : Prop :=
  forall root, a = Some root -> nestedIfs root <> [] ->
               flippable test = true.

End Governed.

End Governing.

(* ================================================================= *)
(** ** The pass up to the [if] it resolves *)

Module Resolution.

Import ast Observe Pruning Invariants Governing RemoveDeadCode.

Section Resolved.

Context `{Ast}.
Variable selection : Selection.

(** No [if] of the tree contains the selection. *)
Definition Outside (node : Statement) : Prop :=
  forall i, In i (ifs node) -> isInside selection (fst i) = false.

(** [Kept node kept]: the pass does not resolve [node], it goes on
    below [kept]: an [if] that does not contain the selection and any
    statement that is no [if] are kept as they are; an [if] that
    contains the selection and whose test is not statically decided
    is kept with its branches pruned. *)
Inductive Kept : Statement -> Statement -> Prop :=
| KeptOutside : forall loc test c a,
    isInside selection loc = false ->
    Kept (IfStatement loc test c a) (IfStatement loc test c a)
| KeptUndecided : forall loc test c a c' a',
    isInside selection loc = true ->
    isFalsy test = false ->
    isTruthy test = false ->
    alternateWithinTheTable test a ->
    PrunedBelow test c c' ->
    PrunedAlternate test a a' ->
    Kept (IfStatement loc test c a) (IfStatement loc test c' a')
| KeptBlock : forall body,
    Kept (BlockStatement body) (BlockStatement body)
| KeptWhile : forall test body,
    Kept (WhileStatement test body) (WhileStatement test body).

(** [Resolves node p]: walking [node] in pre-order, the first [if]
    that contains the selection and whose test is statically decided
    gives way to its live branch, and [p] is what the path of [node]
    reads then.  The statements walked before that [if] hold no [if]
    around the selection; the [if] statements that enclose it are
    kept.  Nothing is asked of what stands below the live branch or
    after it. *)
Inductive Resolves : Statement -> PathState -> Prop :=
| ResolvesFalsy : forall loc test c a,
    isInside selection loc = true ->
    isFalsy test = true ->
    Resolves (IfStatement loc test c a) (replaceWithAlternate a)
| ResolvesTruthy : forall loc test c a,
    isInside selection loc = true ->
    isFalsy test = false ->
    isTruthy test = true ->
    Resolves (IfStatement loc test c a) (replaceWithConsequent c)
| ResolvesBelow : forall node kept node',
    Kept node kept ->
    ResolvesIn kept node' ->
    Resolves node (Still node')

(** [ResolvesIn node node']: the same among the children of [node]. *)
with ResolvesIn : Statement -> Statement -> Prop :=
| InConsequent : forall loc test c a p,
    Resolves c p ->
    ResolvesIn (IfStatement loc test c a)
               (IfStatement loc test (inSlot p) a)
| InAlternate : forall loc test c a p,
    Outside c ->
    Resolves a p ->
    ResolvesIn (IfStatement loc test c (Some a))
               (IfStatement loc test c (inOptionalSlot p))
| InBlock : forall body body',
    ResolvesAmong body body' ->
    ResolvesIn (BlockStatement body) (BlockStatement body')
| InWhile : forall test body p,
    Resolves body p ->
    ResolvesIn (WhileStatement test body)
               (WhileStatement test (inSlot p))

(** [ResolvesAmong nodes nodes']: the same in a list of statements. *)
with ResolvesAmong : list Statement -> list Statement -> Prop :=
| AmongHere : forall node rest p,
    Resolves node p ->
    ResolvesAmong (node :: rest) (inList p ++ rest)
| AmongLater : forall node rest rest',
    Outside node ->
    ResolvesAmong rest rest' ->
    ResolvesAmong (node :: rest) (node :: rest').

End Resolved.

End Resolution.

(* ================================================================= *)
(** ** A worked instance of the AST module *)

Module Samples.

Import ast.
Local Infix "+++" := String.append (right associativity, at level 60).

(** Modelled from the spec: [isTruthy] and [isFalsy] are declared in
    the AST module, which is not among the sources.  Section 4.2:
    conservative constant folding over literals and simple unary
    forms; anything else is unknown. *)
Fixpoint staticValue (e : Expression) : option bool :=
  match e with
  | BooleanLiteral _ value => Some value
  | NumericLiteral _ value => Some (negb (value =? 0))
  | StringLiteral _ value => Some (negb (String.eqb value ""))
  | NullLiteral _ => Some false
  | UnaryExpression _ OpNot argument =>
      match staticValue argument with
      | Some value => Some (negb value)
      | None => None
      end
  | _ => None
  end.

Definition isTruthy (e : Expression) : bool :=
  match staticValue e with
  | Some true => true
  | _ => false
  end.

Definition isFalsy (e : Expression) : bool :=
  match staticValue e with
  | Some false => true
  | _ => false
  end.

Definition BinaryOperator_eqb (x y : BinaryOperator) : bool :=
  match x, y with
  | OpEqual, OpEqual | OpNotEqual, OpNotEqual
  | OpStrictEqual, OpStrictEqual | OpStrictNotEqual, OpStrictNotEqual
  | OpLess, OpLess | OpLessOrEqual, OpLessOrEqual
  | OpGreater, OpGreater | OpGreaterOrEqual, OpGreaterOrEqual
  | OpPlus, OpPlus | OpMinus, OpMinus | OpTimes, OpTimes
  | OpDivide, OpDivide | OpModulo, OpModulo | OpIn, OpIn
  | OpInstanceof, OpInstanceof => true
  | _, _ => false
  end.

Definition LogicalOperator_eqb (x y : LogicalOperator) : bool :=
  match x, y with
  | OpAnd, OpAnd | OpOr, OpOr => true
  | _, _ => false
  end.

Definition UnaryOperator_eqb (x y : UnaryOperator) : bool :=
  match x, y with
  | OpNot, OpNot | OpTypeof, OpTypeof | OpNegative, OpNegative
  | OpVoid, OpVoid => true
  | _, _ => false
  end.

(** Modelled from the spec: [areEqual] is declared in the AST module,
    which is not among the sources.  Section 4.2: structural
    comparison; source ranges play no part in it. *)
Fixpoint areEqual (a b : Expression) : bool :=
  match a, b with
  | Identifier _ x, Identifier _ y => String.eqb x y
  | BooleanLiteral _ x, BooleanLiteral _ y => Bool.eqb x y
  | NumericLiteral _ x, NumericLiteral _ y => x =? y
  | StringLiteral _ x, StringLiteral _ y => String.eqb x y
  | NullLiteral _, NullLiteral _ => true
  | UnaryExpression _ o x, UnaryExpression _ p y =>
      UnaryOperator_eqb o p && areEqual x y
  | BinaryExpression _ o x1 x2, BinaryExpression _ p y1 y2 =>
      BinaryOperator_eqb o p && areEqual x1 y1 && areEqual x2 y2
  | LogicalExpression _ o x1 x2, LogicalExpression _ p y1 y2 =>
      LogicalOperator_eqb o p && areEqual x1 y1 && areEqual x2 y2
  | MemberExpression _ x f, MemberExpression _ y g =>
      areEqual x y && String.eqb f g
  | CallExpression _ f xs, CallExpression _ g ys =>
      areEqual f g
      && (fix all (xs ys : list Expression) : bool :=
            match xs, ys with
            | [], [] => true
            | x :: xs', y :: ys' => areEqual x y && all xs' ys'
            | _, _ => false
            end) xs ys
  | _, _ => false
  end.

Definition isNegationOf (a b : Expression) : bool :=
  match a, b with
  | UnaryExpression _ OpNot x, Identifier _ _
  | UnaryExpression _ OpNot x, MemberExpression _ _ _ => areEqual x b
  | _, _ => false
  end.

(** Modelled from the spec: [areOpposite] is declared in the AST
    module, which is not among the sources.  Section 4.2: one side is
    the operator-inverse of the other with identical operands, or one
    side is the negation of the other's identifier or member
    expression. *)
Definition areOpposite (a b : Expression) : bool :=
  match a, b with
  | BinaryExpression _ o x1 x2, BinaryExpression _ p y1 y2 =>
      match getOppositeOperator o with
      | Some o' => BinaryOperator_eqb o' p && areEqual x1 y1 && areEqual x2 y2
      | None => false
      end
  | _, _ => isNegationOf a b || isNegationOf b a
  end.

(** *** Printing statements, one line each *)

Fixpoint printStatement (s : Statement) : string :=
  match s with
  | IfStatement _ test consequent alternate =>
      "if (" +++ NegateExpression.printExpression test +++ ") "
      +++ printStatement consequent
      +++ match alternate with
          | Some a => " else " +++ printStatement a
          | None => ""
          end
  | BlockStatement [] => "{}"
  | BlockStatement body =>
      "{ "
      +++ (fix all (l : list Statement) : string :=
             match l with
             | [] => ""
             | n :: rest => printStatement n +++ " " +++ all rest
             end) body
      +++ "}"
  | ExpressionStatement e => NegateExpression.printExpression e +++ ";"
  | WhileStatement test body =>
      "while (" +++ NegateExpression.printExpression test +++ ") "
      +++ printStatement body
  | ReturnStatement (Some e) =>
      "return " +++ NegateExpression.printExpression e +++ ";"
  | ReturnStatement None => "return;"
  end.

Definition lineFeed : string := String "010"%char "".

Fixpoint printProgram (program : Program) : string :=
  match program with
  | [] => ""
  | [s] => printStatement s
  | s :: rest => printStatement s +++ lineFeed +++ printProgram rest
  end.

(** *** Source ranges of an expression written on one line

    The ranges a parser gives the nodes of an expression printed by
    [printExpression] and starting at column [col] of line 0. *)
Definition width (e : Expression) : nat :=
  String.length (NegateExpression.printExpression e).

Definition pad (needed : bool) : nat := if needed then 1 else 0.

Fixpoint locate (col : nat) (e : Expression) : Expression :=
  let loc := mkSelection 0 col 0 (col + width e) in
  match e with
  | Identifier _ name => Identifier loc name
  | BooleanLiteral _ value => BooleanLiteral loc value
  | NumericLiteral _ value => NumericLiteral loc value
  | StringLiteral _ value => StringLiteral loc value
  | NullLiteral _ => NullLiteral loc
  | UnaryExpression _ operator argument =>
      UnaryExpression loc operator
        (locate (col
                 + String.length (NegateExpression.printUnaryOperator operator)
                 + pad (NegateExpression.precedence argument <? 7))
                argument)
  | BinaryExpression _ operator l r =>
      let pl := NegateExpression.precedence l
                <? NegateExpression.binaryPrecedence operator in
      let pr := NegateExpression.precedence r
                <=? NegateExpression.binaryPrecedence operator in
      let rcol :=
        col + width l + 2 * pad pl + 1
        + String.length (NegateExpression.printBinaryOperator operator) + 1 in
      BinaryExpression loc operator (locate (col + pad pl) l)
                       (locate (rcol + pad pr) r)
  | LogicalExpression _ operator l r =>
      let pl :=
        NegateExpression.precedence l <? NegateExpression.precedence e in
      let pr :=
        NegateExpression.precedence r <=? NegateExpression.precedence e in
      let rcol := col + width l + 2 * pad pl + 4 in
      LogicalExpression loc operator (locate (col + pad pl) l)
                        (locate (rcol + pad pr) r)
  | MemberExpression _ object property =>
      MemberExpression loc (locate col object) property
  | CallExpression _ callee arguments =>
      CallExpression loc (locate col callee)
        ((fix all (at_ : nat) (l : list Expression) : list Expression :=
            match l with
            | [] => []
            | a :: rest => locate at_ a :: all (at_ + width a + 2) rest
            end) (col + width callee + 1) arguments)
  end.

(** The statement [if (e) {}] written at the start of line 0. *)
Definition ifAround (e : Expression) : Statement :=
  IfStatement (mkSelection 0 0 0 (4 + width e + 4)) (locate 4 e)
              (BlockStatement []) None.

Definition nowhere : Selection := cursorAt 0 0.
Definition ident (name : string) : Expression := Identifier nowhere name.
Definition binary (operator : BinaryOperator) (l r : Expression) :=
  BinaryExpression nowhere operator l r.
Definition logical (operator : LogicalOperator) (l r : Expression) :=
  LogicalExpression nowhere operator l r.
Definition not_ (e : Expression) := UnaryExpression nowhere OpNot e.

(** The expressions of the negate-expression tests. *)
Definition a_ := ident "a".
Definition b_ := ident "b".
Definition c_ := ident "c".
Definition isValid_ := ident "isValid".
Definition isCorrect_ := ident "isCorrect".

Definition comparison (operator : BinaryOperator) := binary operator a_ b_.
Definition logicalAnd :=
  logical OpAnd (binary OpEqual a_ b_) (binary OpEqual b_ c_).
Definition logicalOr :=
  logical OpOr (binary OpEqual a_ b_) (binary OpEqual b_ c_).
Definition alreadyNegated :=
  not_ (logical OpAnd (binary OpNotEqual a_ b_) (binary OpNotEqual b_ c_)).
Definition identifiers := logical OpOr isValid_ isCorrect_.
Definition negatedIdentifiers := logical OpOr (not_ isValid_) isCorrect_.
Definition nonNegatableOperators :=
  binary OpGreater (binary OpPlus a_ b_) (NumericLiteral nowhere 0).
Definition typeofEquality :=
  binary OpStrictEqual
         (UnaryExpression nowhere OpTypeof
            (MemberExpression nowhere (ident "location") "lat"))
         (StringLiteral nowhere "number").
Definition identifierOrComparison :=
  logical OpOr isValid_ (binary OpEqual b_ c_).
Definition negatedIdentifierOrComparison :=
  logical OpOr (not_ isValid_) (binary OpEqual b_ c_).
Definition concatenation :=
  binary OpPlus
         (binary OpPlus (StringLiteral nowhere "(")
                 (CallExpression nowhere
                    (MemberExpression nowhere (ident "this") "getValue") []))
         (StringLiteral nowhere ")").

(** [console.log('Nothing to negate here!')]; the literal has the
    width of the one in the test, whose quotes are double. *)
Definition nothingToNegate :=
  CallExpression nowhere (MemberExpression nowhere (ident "console") "log")
                 [StringLiteral nowhere "Nothing to negate here!"].

Definition sampleExpressions : list Expression :=
  map comparison
      [OpEqual; OpStrictEqual; OpNotEqual; OpStrictNotEqual;
       OpLess; OpLessOrEqual; OpGreater; OpGreaterOrEqual]
  ++ [logicalAnd; logicalOr; alreadyNegated; identifiers;
      negatedIdentifiers; nonNegatableOperators; typeofEquality;
      identifierOrComparison; negatedIdentifierOrComparison;
      concatenation; nothingToNegate; isValid_; not_ isValid_].

(** Programs of the dead-code examples, each written on line 0.  Only
    the ranges of the [if] statements matter: they are the columns of
    the printed text. *)
Definition expr (e : Expression) : Statement := ExpressionStatement e.
Definition call (name : string) : Statement :=
  expr (CallExpression nowhere (ident name) []).
Definition ifAt (from to : nat) := IfStatement (mkSelection 0 from 0 to).

(** [if (a + b) {} else { if (c) { f(); } }] *)
Definition arithmeticTest : Program :=
  [ ifAt 0 38 (binary OpPlus a_ b_) (BlockStatement [])
      (Some (BlockStatement
               [ifAt 21 36 c_ (BlockStatement [call "f"]) None])) ].

(** [if (false) { f(); } else { if (true) { g(); } }] *)
Definition falsyTest : Program :=
  [ ifAt 0 47 (BooleanLiteral nowhere false) (BlockStatement [call "f"])
      (Some (BlockStatement
               [ifAt 27 45 (BooleanLiteral nowhere true)
                     (BlockStatement [call "g"]) None])) ].

(** [if (a == b) { if (a != b) { f(); } else { g(); } }
     else { if (a != b) { h(); } }] *)
Definition nestedTests : Program :=
  [ ifAt 0 80 (binary OpEqual a_ b_)
      (BlockStatement
         [ifAt 14 48 (binary OpNotEqual a_ b_)
               (BlockStatement [call "f"])
               (Some (BlockStatement [call "g"]))])
      (Some (BlockStatement
               [ifAt 58 78 (binary OpNotEqual a_ b_)
                     (BlockStatement [call "h"]) None])) ].

(** [f();] *)
Definition noIf : Program := [call "f"].

(** [if (a == b) { f(); } else if (a != b) { g(); } else { h(); }] *)
Definition elseIfChain : Program :=
  [ ifAt 0 60 (binary OpEqual a_ b_) (BlockStatement [call "f"])
      (Some (ifAt 26 60 (binary OpNotEqual a_ b_)
                  (BlockStatement [call "g"])
                  (Some (BlockStatement [call "h"])))) ].

(** [if (a + b) { if (a + b) { f(); } }] *)
Definition arithmeticConsequent : Program :=
  [ ifAt 0 34 (binary OpPlus a_ b_)
      (BlockStatement
         [ifAt 13 32 (binary OpPlus a_ b_)
               (BlockStatement [call "f"]) None])
      None ].

(** [if (a == b) { if (false) { f(); } else { g(); } }] *)
Definition decidedBelowUndecided : Program :=
  [ ifAt 0 49 (binary OpEqual a_ b_)
      (BlockStatement
         [ifAt 14 47 (BooleanLiteral nowhere false)
               (BlockStatement [call "f"])
               (Some (BlockStatement [call "g"]))])
      None ].

(** [if (false) {}if (true) { g(); }]: two statements that meet at
    column 13. *)
Definition adjacentTests : Program :=
  [ ifAt 0 13 (BooleanLiteral nowhere false) (BlockStatement []) None;
    ifAt 13 31 (BooleanLiteral nowhere true)
         (BlockStatement [call "g"]) None ].

Definition adjacentCode : Code := "if (false) {}if (true) { g(); }".

Definition samplePrograms : list Program :=
  [arithmeticTest; falsyTest; nestedTests; noIf;
   elseIfChain; arithmeticConsequent; decidedBelowUndecided].

Definition doubleQuote : string := String "034"%char "".

(** The text of the test, [console.log(...)] with its literal between
    double quotes. *)
Definition nothingToNegateCode : Code :=
  "console.log(" +++ doubleQuote +++ "Nothing to negate here!"
  +++ doubleQuote +++ ")".

(** Texts that are not written the way [printProgram] and
    [printExpression] write. *)
Definition sampleTexts : list (Code * Program) :=
  [(adjacentCode, adjacentTests);
   (nothingToNegateCode, [expr (locate 0 nothingToNegate)])].

(** The parser, tabulated on the sample texts: the text of a sample
    expression, alone or as the test of [if (...) {}], the text of
    a sample program, and the texts of [sampleTexts].  Any other text
    has no statement. *)
Definition parse (code : Code) : Program :=
  match find (fun e => String.eqb code
                         ("if (" +++ NegateExpression.printExpression e
                          +++ ") {}"))
             sampleExpressions with
  | Some e => [ifAround e]
  | None =>
      match find (fun e => String.eqb code (NegateExpression.printExpression e))
                 sampleExpressions with
      | Some e => [expr (locate 0 e)]
      | None =>
          match find (fun p => String.eqb code (printProgram p))
                     samplePrograms with
          | Some p => p
          | None =>
              match find (fun t => String.eqb code (fst t)) sampleTexts with
              | Some t => snd t
              | None => []
              end
          end
      end
  end.

Lemma staticValue_exclusive :
  forall e, isTruthy e = true -> isFalsy e = false.
Proof.
  intros e. unfold isTruthy, isFalsy.
  destruct (staticValue e) as [[|]|]; congruence.
Qed.

Lemma opposite_operator_differs :
  forall o o', getOppositeOperator o = Some o' ->
               BinaryOperator_eqb o o' = false.
Proof. destruct o; cbn; intros o' [= <-]; reflexivity. Qed.

Lemma BinaryOperator_eqb_eq :
  forall o p, BinaryOperator_eqb o p = true -> o = p.
Proof. destruct o, p; cbn; congruence. Qed.

Lemma areOpposite_excludes_areEqual :
  forall a b, areOpposite a b = true -> areEqual a b = false.
Proof.
  intros a b. unfold areOpposite.
  destruct a as [? ?|? ?|? ?|? ?|?|? o ?|? operator ? ?|? ? ? ?|? ? ?|? ? ?],
           b as [? ?|? ?|? ?|? ?|?|? p ?|? operator0 ? ?|? ? ? ?|? ? ?|? ? ?];
    try (cbn; intros; congruence);
    try (destruct o; cbn; intros; congruence);
    try (destruct p; cbn; intros; congruence);
    try (destruct o, p; cbn; intros; congruence).
  cbn [areEqual].
  destruct (getOppositeOperator operator) as [o'|] eqn:Eo; [|discriminate].
  destruct (BinaryOperator_eqb o' operator0) eqn:Ep; [|discriminate].
  apply BinaryOperator_eqb_eq in Ep. subst operator0. intros _.
  now rewrite (opposite_operator_differs _ Eo).
Qed.

#[export] Instance sampleAst : Ast := {
  ast.parse := parse;
  ast.print := printProgram;
  ast.isFalsy := isFalsy;
  ast.isTruthy := isTruthy;
  ast.areOpposite := areOpposite;
  ast.areEqual := areEqual;
  ast.truthy_not_falsy := staticValue_exclusive;
  ast.opposite_not_equal := areOpposite_excludes_areEqual
}.

(** *** Inputs of the worked cases *)

(** The document [if (a == b) {}] with the cursor on [a]. *)
Definition negatableDocument : VSCodeEditor.t :=
  {| VSCodeEditor.document := "if (a == b) {}";
     VSCodeEditor.editorSelection :=
       VSCodeEditor.toVSCodeCursor {| line := 0; character := 4 |};
     VSCodeEditor.errorMessages := [] |}.

(** An update that addresses the fragment it was given from its own
    first column. *)
Definition fragmentLocalUpdate (fragment : Code) : list Modification :=
  [ Build_Modification "!(a != b)"
      (mkSelection 0 0 0 (String.length fragment)) ].

(** The update [negateExpression] hands over: the selection that was
    read, in document coordinates. *)
Definition documentUpdate (_ : Code) : list Modification :=
  [ Build_Modification "!(a != b)" (mkSelection 0 4 0 10) ].

(** The recorder stands for the two mocks of the suite: its fragment
    is [updatedExpression], its calls are those made on
    [readThenWrite] and [showErrorMessage]. *)
Definition doNegateExpression (expression : Code) (selection : Selection)
  : list Call :=
  calls (NegateExpression.negateExpression
           (String.append "if (" (String.append expression ") {}"))
           selection
           {| fragment := expression; calls := [] |}).

Definition updatesWith (expression expected : Code) : list Call :=
  let selection := mkSelection 0 4 0 (4 + String.length expression) in
  [CalledReadThenWrite selection [Build_Modification expected selection]].

Definition shouldNegate : list (Code * Selection * Code) :=
  [ ("a == b", cursorAt 0 4, "!(a != b)");
    ("a === b", cursorAt 0 4, "!(a !== b)");
    ("a != b", cursorAt 0 4, "!(a == b)");
    ("a !== b", cursorAt 0 4, "!(a === b)");
    ("a < b", cursorAt 0 4, "!(a >= b)");
    ("a <= b", cursorAt 0 4, "!(a > b)");
    ("a > b", cursorAt 0 4, "!(a <= b)");
    ("a >= b", cursorAt 0 4, "!(a < b)");
    ("a == b && b == c", cursorAt 0 12, "!(a != b || b != c)");
    ("a == b || b == c", cursorAt 0 12, "!(a != b && b != c)");
    ("!(a != b && b != c)", cursorAt 0 14, "a == b || b == c");
    ("isValid || isCorrect", cursorAt 0 13, "!(!isValid && !isCorrect)");
    ("!isValid || isCorrect", cursorAt 0 14, "!(isValid && !isCorrect)");
    ("a + b > 0", cursorAt 0 6, "!(a + b <= 0)");
    ("typeof location.lat === 'number'", cursorAt 0 4,
     "!(typeof location.lat !== 'number')") ].

Definition readThenWriteSelections (l : list Call) : list Selection :=
  flat_map (fun c => match c with
                     | CalledReadThenWrite s _ => [s]
                     | _ => []
                     end) l.

Definition nestedCode : Code := printProgram nestedTests.

End Samples.

(* ================================================================= *)
(** ** Sample documents, locations and choices *)

Module EditorSamples.

Import VSCodeEditorMembers.

Definition lineFeed : string := String "010"%char "".

(** A document of two lines, the selection on [a == b] in the second. *)
Definition twoLines : VSCodeEditor.t :=
  {| VSCodeEditor.document :=
       ("const a = 1;" ++ lineFeed ++ "if (a == b) {}")%string;
     VSCodeEditor.editorSelection :=
       {| vscode.start := {| vscode.line := 1; vscode.character := 4 |};
          vscode.end_ := {| vscode.line := 1; vscode.character := 10 |} |};
     VSCodeEditor.errorMessages := [] |}.

Definition toNegation (_ : Code) : Code := "!(a != b)".

Definition locations (_ : Position) : list Location :=
  [ {| uriPath := "/src/a.ts";
       locationRange :=
         {| vscode.start := {| vscode.line := 0; vscode.character := 6 |};
            vscode.end_ := {| vscode.line := 0; vscode.character := 7 |} |} |};
    {| uriPath := "/src/b.ts";
       locationRange :=
         {| vscode.start := {| vscode.line := 3; vscode.character := 2 |};
            vscode.end_ := {| vscode.line := 4; vscode.character := 0 |} |} |} ].

Definition choices : list (Choice nat) :=
  [ {| label := "Extract"; value := 1;
       description := Some "1 occurrence"; icon := Some "symbol" |};
    {| label := "Inline"; value := 2;
       description := None; icon := None |} ].

(** A user who picks the first item. *)
Definition pickFirst (items : list (QuickPickItem nat))
           (_ : option string) : option (QuickPickItem nat) :=
  hd_error items.

End EditorSamples.

(* ================================================================= *)
(** ** Facts about the traversal driver *)

Module DriverFacts.

Import ast Observe Invariants.

Lemma size_BlockStatement :
  forall body, size (BlockStatement body) = S (sizeList body).
Proof. reflexivity. Qed.

Lemma size_positive : forall node, 1 <= size node.
Proof. destruct node; cbn; lia. Qed.

Lemma sizeList_app :
  forall l1 l2, sizeList (l1 ++ l2) = sizeList l1 + sizeList l2.
Proof.
  unfold sizeList.
  induction l1 as [|n l1 IH]; intros l2; cbn [app fold_right];
    [reflexivity|].
  rewrite IH. lia.
Qed.

Lemma ifsOf_app :
  forall l1 l2, ifsOf (l1 ++ l2) = ifsOf l1 ++ ifsOf l2.
Proof. intros. unfold ifsOf. apply flat_map_app. Qed.

Lemma size_In_sizeList :
  forall n nodes, In n nodes -> size n <= sizeList nodes.
Proof.
  unfold sizeList.
  induction nodes as [|m rest IH]; cbn [In fold_right]; [tauto|].
  intros [->|Hin]; [lia|]. specialize (IH Hin). lia.
Qed.

Lemma sizeList_inList : forall p, sizeList (inList p) <= weight p.
Proof.
  destruct p as [n|l|]; unfold weight; cbn [inList inSlot];
    rewrite ?size_BlockStatement; unfold sizeList; cbn [fold_right]; lia.
Qed.

Lemma ifsOf_inList : forall p, ifsOf (inList p) = ifsOfPath p.
Proof.
  destruct p as [n|l|]; cbn; [apply app_nil_r|reflexivity|reflexivity].
Qed.

Lemma ifs_inSlot : forall p, ifs (inSlot p) = ifsOfPath p.
Proof.
  destruct p as [n|l|]; reflexivity.
Qed.

Lemma sizeOfOption_inOptionalSlot :
  forall p, sizeOfOption (inOptionalSlot p) <= weight p.
Proof.
  destruct p as [n|l|]; unfold weight;
    cbn [inOptionalSlot inSlot sizeOfOption]; lia.
Qed.

Lemma ifsOfOption_inOptionalSlot :
  forall p, ifsOfOption (inOptionalSlot p) = ifsOfPath p.
Proof.
  destruct p as [n|l|]; reflexivity.
Qed.

Lemma ifs_head_nested : forall node, ifs node = head node ++ nestedIfs node.
Proof.
  destruct node; reflexivity.
Qed.

Section Invariant.

Variable good : Selection * Expression -> Prop.
Variable blame : Selection * Expression -> BinaryOperator -> Prop.

Lemma walkList_sound :
  forall visit nodes,
    (forall n, In n nodes -> soundOn good blame visit n) ->
    sound good blame (sizeList nodes) (ifsOf nodes) sizeList ifsOf
          (walkList visit nodes).
Proof.
  intros visit. induction nodes as [|n rest IH]; intros Hall.
  - cbn. split; [lia|]. split; [intros i []|discriminate].
  - assert (Hn : soundOn good blame visit n) by (apply Hall; now left).
    assert (Hrest : forall m, In m rest -> soundOn good blame visit m)
      by (intros m Hm; apply Hall; now right).
    specialize (IH Hrest). unfold soundOn in Hn.
    cbn [walkList bind].
    destruct (visit n) as [w|op|]; cbn [sound bind] in *.
    + destruct Hn as (Hsize & Hifs & Hstop).
      pose proof (sizeList_inList (result w)) as Hw.
      destruct (stopped w) eqn:Es.
      * cbn [sound result stopped]. split; [|split].
        -- rewrite sizeList_app. cbn [sizeList fold_right].
           fold (sizeList rest). lia.
        -- intros i Hi. rewrite ifsOf_app, ifsOf_inList in Hi.
           apply in_app_or in Hi. cbn [ifsOf flat_map].
           destruct Hi as [Hi|Hi].
           ++ split; [apply in_or_app; left|]; now apply Hifs.
           ++ split; [apply in_or_app; now right | now apply Hstop].
        -- intros _. now apply Hstop.
      * destruct (walkList visit rest) as [ws|op|]; cbn [sound bind] in *.
        -- destruct IH as (Hsize' & Hifs' & Hstop').
           split; [|split]; cbn [result stopped].
           ++ rewrite sizeList_app. cbn [sizeList fold_right].
              fold (sizeList rest). lia.
           ++ intros i Hi. rewrite ifsOf_app, ifsOf_inList in Hi.
              apply in_app_or in Hi. cbn [ifsOf flat_map].
              destruct Hi as [Hi|Hi].
              ** split; [apply in_or_app; left|]; now apply Hifs.
              ** split; [apply in_or_app; right|]; now apply Hifs'.
           ++ exact Hstop'.
        -- destruct IH as (i & Hi & Hb). exists i. split; [|exact Hb].
           cbn [ifsOf flat_map]. apply in_or_app. now right.
        -- exact IH.
    + destruct Hn as (i & Hi & Hb). exists i. split; [|exact Hb].
      cbn [ifsOf flat_map]. apply in_or_app. now left.
    + exact Hn.
Qed.

Lemma walkSlot_sound :
  forall visit node,
    soundOn good blame visit node ->
    sound good blame (size node) (ifs node) size ifs (walkSlot visit node).
Proof.
  intros visit node Hn. unfold soundOn in Hn. unfold walkSlot.
  destruct (visit node) as [w|op|]; cbn [sound bind result stopped] in *;
    [|exact Hn|exact Hn].
  unfold kept in *. now rewrite ifs_inSlot.
Qed.

Lemma walkOptionalSlot_sound :
  forall visit slot,
    (forall node, slot = Some node -> soundOn good blame visit node) ->
    sound good blame (sizeOfOption slot) (ifsOfOption slot)
          sizeOfOption ifsOfOption
          (walkOptionalSlot visit slot).
Proof.
  intros visit [node|] Hn; cbn [walkOptionalSlot].
  - specialize (Hn node eq_refl). unfold soundOn in Hn.
    destruct (visit node) as [w|op|];
      cbn [sound bind result stopped sizeOfOption ifsOfOption] in *;
      [|exact Hn|exact Hn].
    destruct Hn as (Hsize & Hifs & Hstop).
    pose proof (sizeOfOption_inOptionalSlot (result w)).
    split; [lia|]. rewrite ifsOfOption_inOptionalSlot. now split.
  - cbn. split; [lia|]. split; [intros i []|discriminate].
Qed.

(** The children of a node: the head of the node stays, and the
    invariant holds for the [if] statements below it. *)
Lemma walkChildren_sound :
  forall visit node,
    (forall n, size n < size node -> soundOn good blame visit n) ->
    match walkChildren visit node with
    | Done w =>
        kept good (size node) (nestedIfs node)
             (size (result w)) (nestedIfs (result w)) (stopped w)
        /\ head (result w) = head node
    | OutOfTable op => exists i, In i (nestedIfs node) /\ blame i op
    | OutOfFuel => False
    end.
Proof.
  intros visit node Hsub.
  destruct node as [loc test c a|body|e|test body|arg].
  - assert (Hc : soundOn good blame visit c) by (apply Hsub; cbn; lia).
    assert (Ha : forall n, a = Some n -> soundOn good blame visit n)
      by (intros n ->; apply Hsub; cbn; lia).
    apply walkSlot_sound in Hc. apply walkOptionalSlot_sound in Ha.
    cbn [walkChildren].
    destruct (walkSlot visit c) as [wc|op|]; cbn [sound bind] in *.
    + destruct Hc as (Hsize & Hifs & Hstop).
      destruct (stopped wc) eqn:Es.
      * cbn [result stopped head nestedIfs]. split; [|reflexivity].
        split; [|split].
        -- cbn [size]. fold (sizeOfOption a). lia.
        -- intros i Hi. apply in_app_or in Hi. destruct Hi as [Hi|Hi].
           ++ split; [apply in_or_app; left|]; now apply Hifs.
           ++ split; [apply in_or_app; now right | now apply Hstop].
        -- intros _. now apply Hstop.
      * destruct (walkOptionalSlot visit a) as [wa|op|];
          cbn [sound bind] in *.
        -- destruct Ha as (Hsize' & Hifs' & Hstop').
           cbn [result stopped head nestedIfs]. split; [|reflexivity].
           split; [|split].
           ++ cbn [size]. fold (sizeOfOption a).
              fold (sizeOfOption (result wa)). lia.
           ++ intros i Hi. apply in_app_or in Hi. destruct Hi as [Hi|Hi].
              ** split; [apply in_or_app; left|]; now apply Hifs.
              ** split; [apply in_or_app; right|]; now apply Hifs'.
           ++ exact Hstop'.
        -- destruct Ha as (i & Hi & Hb). exists i. split; [|exact Hb].
           cbn [nestedIfs]. apply in_or_app. now right.
        -- exact Ha.
    + destruct Hc as (i & Hi & Hb). exists i. split; [|exact Hb].
      cbn [nestedIfs]. apply in_or_app. now left.
    + exact Hc.
  - assert (Hl : forall n, In n body -> soundOn good blame visit n).
    { intros n Hn. apply Hsub. rewrite size_BlockStatement.
      apply size_In_sizeList in Hn. lia. }
    apply walkList_sound in Hl. cbn [walkChildren].
    destruct (walkList visit body) as [w|op|];
      cbn [sound bind result stopped head nestedIfs] in *;
      [|exact Hl|exact Hl].
    split; [|reflexivity]. destruct Hl as (Hsize & Hifs & Hstop).
    split; [|split]; [|assumption|assumption].
    rewrite !size_BlockStatement. lia.
  - cbn. split; [|reflexivity]. split; [lia|].
    split; [intros i []|discriminate].
  - assert (Hb : soundOn good blame visit body) by (apply Hsub; cbn; lia).
    apply walkSlot_sound in Hb. cbn [walkChildren].
    destruct (walkSlot visit body) as [w|op|];
      cbn [sound bind result stopped head nestedIfs] in *;
      [|exact Hb|exact Hb].
    split; [|reflexivity]. destruct Hb as (Hsize & Hifs & Hstop).
    split; [|split]; [|assumption|assumption].
    cbn [size]. lia.
  - cbn. split; [|reflexivity]. split; [lia|].
    split; [intros i []|discriminate].
Qed.

Theorem traverseStatement_sound :
  forall v, visitorSound good blame v ->
  forall fuel node, size node <= fuel ->
    soundOn good blame (traverseStatement fuel v) node.
Proof.
  intros v Hv. induction fuel as [|fuel IH]; intros node Hfuel.
  - pose proof (size_positive node). lia.
  - assert (Hother :
              head node = [] ->
              soundOn good blame (fun n =>
                         w <- walkChildren (traverseStatement fuel v) n;;
                         Done {| result := Still (result w);
                                 hasChanged := hasChanged w;
                                 stopped := stopped w |}) node).
    { intros Hhead. unfold soundOn.
      pose proof (walkChildren_sound (traverseStatement fuel v) node) as Hw.
      destruct (walkChildren (traverseStatement fuel v) node) as [w|op|];
        cbn [sound bind result stopped] in *.
      - destruct Hw as ((Hsize & Hifs & Hstop) & Hh).
        { intros n Hn. apply IH. lia. }
        unfold weight. cbn [inSlot ifsOfPath].
        split; [exact Hsize|]. split; [|exact Hstop].
        intros i Hi. rewrite ifs_head_nested in Hi |- *.
        rewrite Hh, Hhead in *. cbn [app] in *. now apply Hifs.
      - destruct Hw as (i & Hi & Hb). { intros n Hn. apply IH. lia. }
        exists i. split; [|exact Hb].
        rewrite ifs_head_nested. apply in_or_app. now right.
      - apply Hw. intros n Hn. apply IH. lia. }
    destruct node as [loc test c a|body|e|test body|arg];
      try (apply Hother; reflexivity).
    clear Hother. unfold soundOn. cbn [traverseStatement].
    specialize (Hv fuel loc test c a).
    assert (Hca : size c + sizeOfOption a <= fuel)
      by (cbn [size] in Hfuel; fold (sizeOfOption a) in Hfuel; lia).
    specialize (Hv Hca).
    destruct (v fuel loc test c a) as [vw|op|]; cbn [sound bind];
      [|exact Hv|exact Hv].
    destruct Hv as (Hweight & Hin & Hhead & Hstop).
    destruct (result vw) as [node'|nodes|] eqn:Er.
    + destruct (stopped vw) eqn:Es.
      * cbn [sound]. rewrite Er, Es. split; [exact Hweight|].
        split; [|intros _; now apply Hstop].
        intros i Hi. split; [now apply Hin | now apply Hstop].
      * pose proof (walkChildren_sound (traverseStatement fuel v) node')
          as Hw.
        unfold weight in Hweight. cbn [inSlot] in Hweight.
        destruct (walkChildren (traverseStatement fuel v) node')
          as [w|op|]; cbn [sound bind result stopped] in *.
        -- destruct Hw as ((Hsize & Hifs & Hstop') & Hh).
           { intros n Hn. apply IH. lia. }
           unfold weight. cbn [inSlot ifsOfPath].
           split; [lia|]. split; [|exact Hstop'].
           intros i Hi. rewrite ifs_head_nested in Hi.
           apply in_app_or in Hi. destruct Hi as [Hi|Hi].
           ++ rewrite Hh in Hi. split.
              ** apply Hin. cbn [ifsOfPath]. rewrite ifs_head_nested.
                 apply in_or_app. now left.
              ** now apply (Hhead node').
           ++ split; [|now apply Hifs].
              apply Hin. cbn [ifsOfPath]. rewrite ifs_head_nested.
              apply in_or_app. right. now apply Hifs.
        -- destruct Hw as (i & Hi & Hb). { intros n Hn. apply IH. lia. }
           exists i. split; [|exact Hb]. apply Hin. cbn [ifsOfPath].
           rewrite ifs_head_nested. apply in_or_app. now right.
        -- apply Hw. intros n Hn. apply IH. lia.
    + unfold weight in Hweight. cbn [inSlot] in Hweight.
      rewrite size_BlockStatement in Hweight.
      destruct (stopped vw) eqn:Es.
      * cbn [sound result stopped]. unfold weight. cbn [inSlot ifsOfPath].
        rewrite size_BlockStatement. split; [exact Hweight|].
        split; [|intros _; now apply Hstop].
        intros i Hi. split; [now apply Hin | now apply Hstop].
      * pose proof (walkList_sound (traverseStatement fuel v) nodes) as Hw.
        destruct (walkList (traverseStatement fuel v) nodes) as [w|op|];
          cbn [sound bind result stopped] in *.
        -- destruct Hw as (Hsize & Hifs & Hstop').
           { intros n Hn. apply IH. apply size_In_sizeList in Hn. lia. }
           unfold weight. cbn [inSlot ifsOfPath].
           rewrite size_BlockStatement. split; [lia|].
           split; [|exact Hstop'].
           intros i Hi. split; [|now apply Hifs].
           apply Hin. now apply Hifs.
        -- destruct Hw as (i & Hi & Hb).
           { intros n Hn. apply IH. apply size_In_sizeList in Hn. lia. }
           exists i. split; [|exact Hb]. now apply Hin.
        -- apply Hw. intros n Hn. apply IH.
           apply size_In_sizeList in Hn. lia.
    + cbn [sound result stopped]. split; [exact Hweight|].
      split; [intros i []|exact Hstop].
Qed.

End Invariant.

(** *** Parts of a tree a pass leaves alone *)

Lemma walkList_untouched :
  forall visit nodes,
    (forall n, In n nodes -> visit n = Done (untouched (Still n))) ->
    walkList visit nodes = Done (untouched nodes).
Proof.
  intros visit. induction nodes as [|n rest IH]; intros Hall;
    [reflexivity|].
  cbn [walkList]. rewrite (Hall n) by now left.
  cbn [bind untouched stopped result hasChanged inList].
  rewrite IH by (intros m Hm; apply Hall; now right). reflexivity.
Qed.

Lemma walkList_app_untouched :
  forall visit pre rest,
    (forall n, In n pre -> visit n = Done (untouched (Still n))) ->
    walkList visit (pre ++ rest)
    = (w <- walkList visit rest;;
       Done {| result := pre ++ result w;
               hasChanged := hasChanged w;
               stopped := stopped w |}).
Proof.
  intros visit. induction pre as [|n pre IH]; intros rest Hall.
  - cbn [app]. destruct (walkList visit rest) as [[r c s]|op|];
      reflexivity.
  - cbn [app walkList]. rewrite (Hall n) by now left.
    cbn [bind untouched stopped result hasChanged inList].
    rewrite IH by (intros m Hm; apply Hall; now right).
    destruct (walkList visit rest) as [[r c s]|op|]; reflexivity.
Qed.

Lemma walkChildren_untouched :
  forall visit node,
    (forall n, size n < size node ->
               (forall i, In i (ifs n) -> In i (nestedIfs node)) ->
               visit n = Done (untouched (Still n))) ->
    walkChildren visit node = Done (untouched node).
Proof.
  intros visit node Hsub.
  destruct node as [loc test c a|body|e|test body|arg];
    cbn [walkChildren]; try reflexivity.
  - unfold walkSlot. rewrite (Hsub c).
    + cbn [bind untouched stopped result hasChanged inSlot].
      destruct a as [a|]; cbn [walkOptionalSlot]; [|reflexivity].
      rewrite (Hsub a); [reflexivity|cbn; lia|].
      intros i Hi. cbn [nestedIfs ifsOfOption]. apply in_or_app. now right.
    + cbn. lia.
    + intros i Hi. cbn [nestedIfs]. apply in_or_app. now left.
  - rewrite walkList_untouched; [reflexivity|].
    intros n Hn. apply Hsub.
    + rewrite size_BlockStatement. apply size_In_sizeList in Hn. lia.
    + intros i Hi. cbn [nestedIfs]. unfold ifsOf.
      apply in_flat_map. eauto.
  - unfold walkSlot. rewrite (Hsub body); [reflexivity|cbn; lia|].
    intros i Hi. exact Hi.
Qed.

End DriverFacts.

(* ================================================================= *)
(** ** Facts about the passes of remove-dead-code *)

Module RemoveDeadCodeFacts.

Import ast Observe Invariants DriverFacts RemoveDeadCode.

Lemma sizeList_getStatements :
  forall node, sizeList (getStatements node) <= size node.
Proof.
  destruct node; cbn [getStatements]; rewrite ?size_BlockStatement;
    unfold sizeList; cbn [fold_right]; lia.
Qed.

Lemma ifsOf_getStatements :
  forall node, ifsOf (getStatements node) = ifs node.
Proof.
  destruct node; cbn [getStatements]; try apply app_nil_r. reflexivity.
Qed.

Lemma oppositeTest_total :
  forall test, oppositeTest test <> OutOfFuel.
Proof.
  destruct test; cbn; try discriminate.
  unfold oppositeOperator. destruct (getOppositeOperator operator);
    cbn; discriminate.
Qed.

Lemma oppositeTest_out_of_table :
  forall test op,
    oppositeTest test = OutOfTable op ->
    exists loc l r,
      test = BinaryExpression loc op l r /\ getOppositeOperator op = None.
Proof.
  destruct test; cbn; try discriminate. intros op.
  unfold oppositeOperator.
  destruct (getOppositeOperator operator) eqn:E; cbn; [discriminate|].
  intros [= <-]. eauto.
Qed.

Section Passes.

Context `{Ast}.

Lemma replaceWithAlternate_weight :
  forall loc test c a,
    weight (replaceWithAlternate a) <= size (IfStatement loc test c a).
Proof.
  intros loc test c [a|]; unfold weight, replaceWithAlternate,
    replaceWithBodyOf; cbn [inSlot]; rewrite size_BlockStatement.
  - pose proof (sizeList_getStatements a). cbn [size]. lia.
  - cbn. lia.
Qed.

Lemma replaceWithConsequent_weight :
  forall loc test c a,
    weight (replaceWithConsequent c) <= size (IfStatement loc test c a).
Proof.
  intros loc test c a. unfold weight, replaceWithConsequent,
    replaceWithBodyOf. cbn [inSlot]. rewrite size_BlockStatement.
  pose proof (sizeList_getStatements c). cbn [size]. lia.
Qed.

Lemma replaceWithAlternate_ifs :
  forall loc test c a i,
    In i (ifsOfPath (replaceWithAlternate a)) ->
    In i (ifs (IfStatement loc test c a)).
Proof.
  intros loc test c [a|] i; unfold replaceWithAlternate,
    replaceWithBodyOf; cbn [ifsOfPath]; [|intros []].
  rewrite ifsOf_getStatements. intros Hi. cbn [ifs].
  right. apply in_or_app. now right.
Qed.

Lemma replaceWithConsequent_ifs :
  forall loc test c a i,
    In i (ifsOfPath (replaceWithConsequent c)) ->
    In i (ifs (IfStatement loc test c a)).
Proof.
  intros loc test c a i. unfold replaceWithConsequent, replaceWithBodyOf.
  cbn [ifsOfPath]. rewrite ifsOf_getStatements. intros Hi. cbn [ifs].
  right. apply in_or_app. now left.
Qed.

(** Any visitor that applies [removeDeadCodeFromNestedIf] with the
    governing test [g] keeps the invariant. *)
Lemma nested_visitorSound :
  forall g (v : Visitor),
    (forall fuel loc t c a,
        v fuel loc t c a
        = Done (untouched (removeDeadCodeFromNestedIf g loc t c a))) ->
    visitorSound (settled g) nobody v.
Proof.
  intros g v Hv fuel loc t c a _. rewrite Hv.
  cbn [untouched result stopped]. unfold removeDeadCodeFromNestedIf.
  destruct (areOpposite g t) eqn:Eo; [|destruct (areEqual g t) eqn:Ee].
  - split; [apply replaceWithAlternate_weight|].
    split; [apply replaceWithAlternate_ifs|].
    split; [|discriminate].
    intros node i Hr. destruct a; discriminate.
  - split; [apply replaceWithConsequent_weight|].
    split; [apply replaceWithConsequent_ifs|].
    split; [|discriminate]. intros node i Hr. discriminate.
  - split; [unfold weight; cbn [inSlot]; lia|].
    split; [tauto|]. split; [|discriminate].
    intros node i [= <-] [<-|[]]. now split.
Qed.

Lemma consequentVisitor_sound :
  forall g, visitorSound (settled g) nobody (consequentVisitor g).
Proof. intros g. now apply nested_visitorSound. Qed.

Lemma alternateVisitor_sound :
  forall test g,
    oppositeTest test = Done g ->
    visitorSound (settled g) nobody (alternateVisitor test).
Proof.
  intros test g Hg. apply nested_visitorSound. intros.
  unfold alternateVisitor. now rewrite Hg.
Qed.

(** A pass over the children of [root] with a sound visitor. *)
Lemma traverse_sound :
  forall good blame v, visitorSound good blame v ->
  forall fuel root, size root <= fuel ->
    match traverse fuel v root with
    | Done w =>
        size (result w) <= size root
        /\ (forall i, In i (nestedIfs (result w)) ->
                      In i (nestedIfs root) /\ good i)
        /\ head (result w) = head root
    | OutOfTable op => exists i, In i (nestedIfs root) /\ blame i op
    | OutOfFuel => False
    end.
Proof.
  intros good blame v Hv fuel root Hfuel. unfold traverse.
  pose proof (@walkChildren_sound good blame
                (traverseStatement fuel v) root) as Hw.
  destruct (walkChildren (traverseStatement fuel v) root) as [w|op|].
  - destruct Hw as ((Hsize & Hifs & _) & Hh).
    { intros n Hn. apply traverseStatement_sound; [exact Hv|lia]. }
    split; [exact Hsize|]. split; [exact Hifs|exact Hh].
  - apply Hw. intros n Hn. apply traverseStatement_sound; [exact Hv|lia].
  - apply Hw. intros n Hn. apply traverseStatement_sound; [exact Hv|lia].
Qed.

Lemma traverse_ifs :
  forall root root',
    head root' = head root ->
    (forall i, In i (nestedIfs root') -> In i (nestedIfs root)) ->
    forall i, In i (ifs root') -> In i (ifs root).
Proof.
  intros root root' Hh Hn i. rewrite !ifs_head_nested, Hh.
  intros Hi. apply in_app_or in Hi. apply in_or_app.
  destruct Hi as [Hi|Hi]; [now left | right; now apply Hn].
Qed.

(** The pass over a consequent, governed by [g], completes and
    settles every [if] below the root. *)
Lemma consequent_pass :
  forall g fuel root, size root <= fuel ->
    exists w,
      traverse fuel (consequentVisitor g) root = Done w
      /\ size (result w) <= size root
      /\ head (result w) = head root
      /\ forall i, In i (nestedIfs (result w)) ->
                   In i (nestedIfs root) /\ settled g i.
Proof.
  intros g fuel root Hfuel.
  pose proof (traverse_sound (consequentVisitor_sound g) root Hfuel) as Hp.
  destruct (traverse fuel (consequentVisitor g) root) as [w|op|].
  - exists w. tauto.
  - destruct Hp as (i & _ & []).
  - destruct Hp.
Qed.

(** The pass over an alternate whose opposite test [g] exists. *)
Lemma alternate_pass :
  forall test g fuel root,
    oppositeTest test = Done g -> size root <= fuel ->
    exists w,
      traverse fuel (alternateVisitor test) root = Done w
      /\ size (result w) <= size root
      /\ head (result w) = head root
      /\ forall i, In i (nestedIfs (result w)) ->
                   In i (nestedIfs root) /\ settled g i.
Proof.
  intros test g fuel root Hg Hfuel.
  pose proof (traverse_sound (alternateVisitor_sound test Hg)
                             root Hfuel) as Hp.
  destruct (traverse fuel (alternateVisitor test) root) as [w|op|].
  - exists w. tauto.
  - destruct Hp as (i & _ & []).
  - destruct Hp.
Qed.

Lemma alternateVisitor_blocked :
  forall test op,
    oppositeTest test = OutOfTable op ->
    visitorSound anything (blocked op) (alternateVisitor test).
Proof.
  intros test op Hop fuel loc t c a _. unfold alternateVisitor.
  rewrite Hop. cbn [bind]. exists (loc, t). split; [now left|reflexivity].
Qed.

(** The pass over an alternate, whatever the outer test: it
    completes on a smaller tree, or it met an [if] and the operator
    of the outer test is out of the table. *)
Lemma alternate_pass_any :
  forall test fuel root, size root <= fuel ->
    match traverse fuel (alternateVisitor test) root with
    | Done w =>
        size (result w) <= size root
        /\ forall i, In i (ifs (result w)) -> In i (ifs root)
    | OutOfTable op =>
        nestedIfs root <> []
        /\ exists loc l r,
            test = BinaryExpression loc op l r
            /\ getOppositeOperator op = None
    | OutOfFuel => False
    end.
Proof.
  intros test fuel root Hfuel.
  destruct (oppositeTest test) as [g|op|] eqn:Eg.
  - destruct (alternate_pass test root Eg Hfuel)
      as (w & -> & Hsize & Hh & Hifs).
    split; [exact Hsize|].
    apply traverse_ifs; [exact Hh|]. intros i Hi. now apply Hifs.
  - pose proof (traverse_sound (alternateVisitor_blocked test Eg)
                               root Hfuel) as Hp.
    destruct (traverse fuel (alternateVisitor test) root) as [w|op'|].
    + destruct Hp as (Hsize & Hifs & Hh). split; [exact Hsize|].
      apply traverse_ifs; [exact Hh|]. intros i Hi. now apply Hifs.
    + destruct Hp as (i & Hi & ->). split; [now destruct (nestedIfs root)|].
      now apply oppositeTest_out_of_table.
    + exact Hp.
  - now apply oppositeTest_total in Eg.
Qed.

Lemma IfStatementVisitor_sound :
  forall selection,
    visitorSound anything (outOfTableAt selection)
                 (IfStatementVisitor selection).
Proof.
  intros selection fuel loc test c a Hfuel. unfold IfStatementVisitor.
  destruct (isInside selection loc) eqn:Ei; cbn [negb].
  2:{ cbn [untouched result stopped]. unfold weight. cbn [inSlot].
      split; [lia|]. split; [tauto|]. split; [|discriminate].
      intros; exact I. }
  destruct (isFalsy test) eqn:Ef.
  { cbn [result stopped]. split; [apply replaceWithAlternate_weight|].
    split; [apply replaceWithAlternate_ifs|].
    split; intros; exact I. }
  destruct (isTruthy test) eqn:Et.
  { cbn [result stopped]. split; [apply replaceWithConsequent_weight|].
    split; [apply replaceWithConsequent_ifs|].
    split; intros; exact I. }
  destruct (consequent_pass test c (fuel:=fuel))
    as (wc & -> & Hsc & Hhc & Hic); [lia|].
  cbn [bind].
  assert (Hc : forall i, In i (ifs (result wc)) -> In i (ifs c)).
  { apply traverse_ifs; [exact Hhc|]. intros i Hi. now apply Hic. }
  destruct a as [a|].
  - pose proof (alternate_pass_any test a (fuel:=fuel)) as Ha.
    cbn [sizeOfOption] in Hfuel.
    destruct (traverse fuel (alternateVisitor test) a) as [wa|op|];
      cbn [bind result stopped].
    + destruct Ha as (Hsa & Hia); [lia|].
      unfold weight. cbn [inSlot size]. split; [lia|].
      split; [|split; [intros; exact I|discriminate]].
      intros i Hi. cbn [ifsOfPath ifs] in *.
      destruct Hi as [Hi|Hi]; [now left|right].
      apply in_app_or in Hi. apply in_or_app.
      destruct Hi as [Hi|Hi]; [left; now apply Hc | right; now apply Hia].
    + destruct Ha as (_ & Hop); [lia|].
      exists (loc, test). split; [now left|].
      unfold outOfTableAt. cbn [fst snd]. tauto.
    + apply Ha. lia.
  - cbn [bind untouched result stopped].
    unfold weight. cbn [inSlot size]. split; [lia|].
    split; [|split; [intros; exact I|discriminate]].
    intros i Hi. cbn [ifsOfPath ifs] in *.
    destruct Hi as [Hi|Hi]; [now left|right].
    rewrite app_nil_r in *. now apply Hc.
Qed.

(** The pass of [updateCode] over a parsed program never runs out
    of fuel, never grows the program, and leaves the table only as
    [outOfTableAt] says. *)
Lemma updateProgram_sound :
  forall program selection,
    match updateProgram program selection with
    | Done w =>
        sizeList (result w) <= sizeList program
        /\ forall i, In i (ifsOf (result w)) -> In i (ifsOf program)
    | OutOfTable op =>
        exists i, In i (ifsOf program) /\ outOfTableAt selection i op
    | OutOfFuel => False
    end.
Proof.
  intros program selection. unfold updateProgram, traverseProgram.
  pose proof (@walkList_sound anything (outOfTableAt selection)
                (traverseStatement (fuelFor program)
                                   (IfStatementVisitor selection))
                program) as Hw.
  assert (Hall : forall n, In n program ->
            soundOn anything (outOfTableAt selection)
                    (traverseStatement (fuelFor program)
                                       (IfStatementVisitor selection)) n).
  { intros n Hn. apply traverseStatement_sound.
    - apply IfStatementVisitor_sound.
    - apply size_In_sizeList in Hn. unfold fuelFor. lia. }
  specialize (Hw Hall).
  destruct (walkList _ program) as [w|op|]; cbn [sound] in Hw.
  - destruct Hw as (Hsize & Hifs & _). split; [exact Hsize|].
    intros i Hi. now apply Hifs.
  - exact Hw.
  - exact Hw.
Qed.

(** A tree none of whose [if] statements contains the selection is
    left as it is. *)
Lemma outside_untouched :
  forall selection fuel node,
    size node <= fuel ->
    (forall i, In i (ifs node) -> isInside selection (fst i) = false) ->
    traverseStatement fuel (IfStatementVisitor selection) node
    = Done (untouched (Still node)).
Proof.
  intros selection. induction fuel as [|fuel IH]; intros node Hfuel Hout.
  - pose proof (size_positive node). lia.
  - assert (Hchildren :
              walkChildren
                (traverseStatement fuel (IfStatementVisitor selection))
                node = Done (untouched node)).
    { apply walkChildren_untouched. intros n Hn Hin. apply IH; [lia|].
      intros i Hi. apply Hout. rewrite ifs_head_nested.
      apply in_or_app. right. now apply Hin. }
    destruct node as [loc test c a|body|e|test body|arg];
      cbn [traverseStatement]; try (rewrite Hchildren; reflexivity).
    unfold IfStatementVisitor at 1.
    assert (Eo : isInside selection loc = false)
      by (apply (Hout (loc, test)); now left).
    rewrite Eo.
    cbn [negb bind untouched result stopped hasChanged].
    fold (untouched (IfStatement loc test c a)).
    rewrite Hchildren. reflexivity.
Qed.

End Passes.

End RemoveDeadCodeFacts.

(* ================================================================= *)
(** ** The nested pass computes the pruned tree *)

Module PruningFacts.

Import ast Observe Pruning Invariants DriverFacts RemoveDeadCode.

Section Governed.

Context `{Ast}.
Variable g : Expression.

Lemma walkList_prunes :
  forall visit nodes,
    (forall n, In n nodes -> prunes g visit n) ->
    exists w,
      walkList visit nodes = Done w
      /\ stopped w = false
      /\ PrunedList g nodes (result w).
Proof.
  intros visit. induction nodes as [|n rest IH]; intros Hall.
  - eexists. split; [reflexivity|]. split; [reflexivity|constructor].
  - destruct (Hall n) as (w & Ew & Sw & Pw); [now left|].
    destruct IH as (ws & Ews & Sws & Pws);
      [intros m Hm; apply Hall; now right|].
    cbn [walkList]. rewrite Ew. cbn [bind]. rewrite Sw, Ews. cbn [bind].
    eexists. split; [reflexivity|]. cbn [result stopped].
    split; [exact Sws|]. now constructor.
Qed.

Lemma walkChildren_prunes :
  forall visit node,
    (forall n, size n < size node -> prunes g visit n) ->
    exists w,
      walkChildren visit node = Done w
      /\ stopped w = false
      /\ PrunedBelow g node (result w).
Proof.
  intros visit node Hsub.
  destruct node as [loc test c a|body|e|test body|arg];
    cbn [walkChildren].
  - destruct (Hsub c) as (wc & Ec & Sc & Pc); [cbn; lia|].
    unfold walkSlot. rewrite Ec. cbn [bind result stopped]. rewrite Sc.
    destruct a as [a|]; cbn [walkOptionalSlot].
    + destruct (Hsub a) as (wa & Ea & Sa & Pa); [cbn; lia|].
      rewrite Ea. cbn [bind result stopped].
      eexists. split; [reflexivity|]. cbn [result stopped].
      split; [exact Sa|]. constructor; [exact Pc|now constructor].
    + cbn [bind untouched result stopped].
      eexists. split; [reflexivity|]. cbn [result stopped].
      split; [reflexivity|]. constructor; [exact Pc|constructor].
  - destruct (@walkList_prunes visit body) as (w & Ew & Sw & Pw).
    { intros n Hn. apply Hsub. rewrite size_BlockStatement.
      apply size_In_sizeList in Hn. lia. }
    rewrite Ew. cbn [bind]. eexists. split; [reflexivity|].
    cbn [result stopped]. split; [exact Sw|now constructor].
  - eexists. split; [reflexivity|]. split; [reflexivity|constructor].
  - destruct (Hsub body) as (wb & Eb & Sb & Pb); [cbn; lia|].
    unfold walkSlot. rewrite Eb. cbn [bind result stopped].
    eexists. split; [reflexivity|]. cbn [result stopped].
    split; [exact Sb|now constructor].
  - eexists. split; [reflexivity|]. split; [reflexivity|constructor].
Qed.

Lemma traverseStatement_prunes :
  forall v : Visitor,
    (forall fuel loc t c a,
        v fuel loc t c a
        = Done (untouched (removeDeadCodeFromNestedIf g loc t c a))) ->
    forall fuel node,
      size node <= fuel -> prunes g (traverseStatement fuel v) node.
Proof.
  intros v Hv. induction fuel as [|fuel IH]; intros node Hfuel.
  - pose proof (size_positive node). lia.
  - destruct (@walkChildren_prunes (traverseStatement fuel v) node)
      as (wk & Ek & Sk & Pk).
    { intros n Hn. apply IH. lia. }
    unfold prunes.
    destruct node as [loc test c a|body|e|test body|arg];
      cbn [traverseStatement];
      try (rewrite Ek; cbn [bind]; eexists;
           split; [reflexivity|]; cbn [result stopped];
           split; [exact Sk|]; now constructor).
    rewrite Hv. cbn [bind untouched result stopped].
    unfold removeDeadCodeFromNestedIf.
    destruct (areOpposite g test) eqn:Eo;
      [|destruct (areEqual g test) eqn:Ee].
    + destruct a as [a|]; cbn [replaceWithAlternate replaceWithBodyOf].
      * destruct (@walkList_prunes (traverseStatement fuel v)
                                  (getStatements a)) as (w & Ew & Sw & Pw).
        { intros n Hn. apply IH. apply size_In_sizeList in Hn.
          pose proof (RemoveDeadCodeFacts.sizeList_getStatements a).
          cbn [size] in Hfuel. lia. }
        rewrite Ew. cbn [bind]. eexists. split; [reflexivity|].
        cbn [result stopped]. split; [exact Sw|]. now constructor.
      * eexists. split; [reflexivity|]. cbn [result stopped].
        split; [reflexivity|]. now constructor.
    + cbn [replaceWithConsequent replaceWithBodyOf].
      destruct (@walkList_prunes (traverseStatement fuel v)
                                (getStatements c)) as (w & Ew & Sw & Pw).
      { intros n Hn. apply IH. apply size_In_sizeList in Hn.
        pose proof (RemoveDeadCodeFacts.sizeList_getStatements c).
        cbn [size] in Hfuel. lia. }
      rewrite Ew. cbn [bind]. eexists. split; [reflexivity|].
      cbn [result stopped]. split; [exact Sw|]. now constructor.
    + rewrite Ek. cbn [bind]. eexists. split; [reflexivity|].
      cbn [result stopped]. split; [exact Sk|]. now constructor.
Qed.

Lemma traverse_prunes :
  forall v : Visitor,
    (forall fuel loc t c a,
        v fuel loc t c a
        = Done (untouched (removeDeadCodeFromNestedIf g loc t c a))) ->
    forall fuel root,
      size root <= fuel ->
      exists w,
        traverse fuel v root = Done w /\ PrunedBelow g root (result w).
Proof.
  intros v Hv fuel root Hfuel. unfold traverse.
  destruct (@walkChildren_prunes (traverseStatement fuel v) root)
    as (w & Ew & _ & Pw).
  - intros n Hn. apply traverseStatement_prunes; [exact Hv|lia].
  - eauto.
Qed.

(** Reading a pruned [if] back: which rule applied is decided by
    its test. *)
Lemma Pruned_opposite :
  forall loc test c a p,
    Pruned g (IfStatement loc test c a) p ->
    areOpposite g test = true ->
    match a with
    | Some alternate =>
        exists nodes,
          p = ReplacedWith nodes
          /\ PrunedList g (getStatements alternate) nodes
    | None => p = Gone
    end.
Proof.
  intros loc test c a p Hp Ho. inversion Hp; subst.
  - eauto.
  - reflexivity.
  - apply opposite_not_equal in Ho. congruence.
  - congruence.
Qed.

Lemma Pruned_equal :
  forall loc test c a p,
    Pruned g (IfStatement loc test c a) p ->
    areEqual g test = true ->
    exists nodes,
      p = ReplacedWith nodes /\ PrunedList g (getStatements c) nodes.
Proof.
  intros loc test c a p Hp He. inversion Hp; subst.
  - match goal with
    | Ho : areOpposite g test = true |- _ =>
        apply opposite_not_equal in Ho; congruence
    end.
  - match goal with
    | Ho : areOpposite g test = true |- _ =>
        apply opposite_not_equal in Ho; congruence
    end.
  - eauto.
  - congruence.
Qed.

End Governed.

End PruningFacts.

(* ================================================================= *)
(** ** The change flag tells whether the tree changed *)

Module AccountingFacts.

Import ast Observe Invariants DriverFacts RemoveDeadCode RemoveDeadCodeFacts.

Lemma walkList_accounted :
  forall visit nodes w,
    (forall n w', In n nodes -> visit n = Done w' ->
                  accounted ifsOfPath (Still n) w') ->
    walkList visit nodes = Done w ->
    accounted ifsOf nodes w.
Proof.
  unfold accounted. intros visit.
  induction nodes as [|n rest IH]; intros w Hall Hw.
  - injection Hw as <-. split; [reflexivity|cbn; lia].
  - cbn [walkList] in Hw.
    destruct (visit n) as [wn|op|] eqn:En; cbn [bind] in Hw;
      try discriminate.
    destruct (Hall n wn (or_introl eq_refl) En) as (Hsame & Hcount).
    cbn [result] in Hsame, Hcount.
    assert (Hlen : forall l,
               length (ifsOf (inList (result wn) ++ l))
               = length (ifsOfPath (result wn)) + length (ifsOf l)).
    { intros l. rewrite ifsOf_app, ifsOf_inList. apply length_app. }
    assert (Hcons : length (ifsOf (n :: rest))
                    = length (ifs n) + length (ifsOf rest)).
    { cbn [ifsOf flat_map]. apply length_app. }
    cbn [ifsOfPath] in Hcount.
    destruct (stopped wn).
    + injection Hw as <-. cbn [result hasChanged]. split.
      * intros Hc. now rewrite (Hsame Hc).
      * rewrite Hlen, Hcons. lia.
    + destruct (walkList visit rest) as [ws|op|] eqn:Es; cbn [bind] in Hw;
        try discriminate.
      injection Hw as <-. cbn [result hasChanged].
      destruct (IH ws) as (Hsame' & Hcount');
        [intros m w' Hm; apply Hall; now right|reflexivity|].
      split.
      * intros Hc. apply orb_false_elim in Hc. destruct Hc as (Hc1 & Hc2).
        now rewrite (Hsame Hc1), (Hsame' Hc2).
      * rewrite Hlen, Hcons.
        destruct (hasChanged wn), (hasChanged ws); cbn [orb flag] in *; lia.
Qed.

Lemma walkSlot_accounted :
  forall visit node w,
    (forall w', visit node = Done w' -> accounted ifsOfPath (Still node) w') ->
    walkSlot visit node = Done w ->
    accounted ifs node w.
Proof.
  unfold accounted. intros visit node w Hn Hw. unfold walkSlot in Hw.
  destruct (visit node) as [wn|op|] eqn:En; cbn [bind] in Hw;
    try discriminate.
  injection Hw as <-. destruct (Hn wn eq_refl) as (Hsame & Hcount).
  cbn [result hasChanged ifsOfPath] in *. split.
  - intros Hc. now rewrite (Hsame Hc).
  - now rewrite ifs_inSlot.
Qed.

Lemma walkOptionalSlot_accounted :
  forall visit slot w,
    (forall node w', slot = Some node -> visit node = Done w' ->
                     accounted ifsOfPath (Still node) w') ->
    walkOptionalSlot visit slot = Done w ->
    accounted ifsOfOption slot w.
Proof.
  unfold accounted. intros visit [node|] w Hn Hw;
    cbn [walkOptionalSlot] in Hw.
  - destruct (visit node) as [wn|op|] eqn:En; cbn [bind] in Hw;
      try discriminate.
    injection Hw as <-. destruct (Hn node wn eq_refl En) as (Hsame & Hcount).
    cbn [result hasChanged ifsOfPath ifsOfOption] in *. split.
    + intros Hc. now rewrite (Hsame Hc).
    + now rewrite ifsOfOption_inOptionalSlot.
  - injection Hw as <-. split; [reflexivity|cbn; lia].
Qed.

Lemma walkChildren_accounted :
  forall visit node w,
    (forall n w', size n < size node -> visit n = Done w' ->
                  accounted ifsOfPath (Still n) w') ->
    walkChildren visit node = Done w ->
    accounted ifs node w.
Proof.
  intros visit node w Hsub Hw.
  pose proof (@walkSlot_accounted visit) as HS.
  pose proof (@walkOptionalSlot_accounted visit) as HO.
  pose proof (@walkList_accounted visit) as HL.
  unfold accounted in *.
  destruct node as [loc test c a|body|e|test body|arg];
    cbn [walkChildren] in Hw.
  - destruct (walkSlot visit c) as [wc|op|] eqn:Ec; cbn [bind] in Hw;
      try discriminate.
    destruct (HS c wc) as (Hsc & Hcc);
      [intros w'; apply Hsub; cbn; lia|exact Ec|].
    destruct (stopped wc).
    + injection Hw as <-. cbn [result hasChanged]. split.
      * intros Hc. now rewrite (Hsc Hc).
      * cbn [ifs length]. rewrite !length_app. lia.
    + destruct (walkOptionalSlot visit a) as [wa|op|] eqn:Ea;
        cbn [bind] in Hw; try discriminate.
      injection Hw as <-. cbn [result hasChanged].
      destruct (HO a wa) as (Hsa & Hca);
        [intros n w' ->; apply Hsub; cbn; lia|exact Ea|].
      split.
      * intros Hc. apply orb_false_elim in Hc. destruct Hc as (Hc1 & Hc2).
        now rewrite (Hsc Hc1), (Hsa Hc2).
      * cbn [ifs length]. fold (ifsOfOption a).
        fold (ifsOfOption (result wa)). rewrite !length_app.
        destruct (hasChanged wc), (hasChanged wa); cbn [orb flag] in *; lia.
  - destruct (walkList visit body) as [wl|op|] eqn:El; cbn [bind] in Hw;
      try discriminate.
    injection Hw as <-. cbn [result hasChanged].
    destruct (HL body wl) as (Hs & Hc); [|exact El|].
    { intros n w' Hn. apply Hsub. rewrite size_BlockStatement.
      apply size_In_sizeList in Hn. lia. }
    split; [intros Hch; now rewrite (Hs Hch)|exact Hc].
  - injection Hw as <-. split; [reflexivity|cbn; lia].
  - destruct (walkSlot visit body) as [wb|op|] eqn:Eb; cbn [bind] in Hw;
      try discriminate.
    injection Hw as <-. cbn [result hasChanged].
    destruct (HS body wb) as (Hs & Hc);
      [intros w'; apply Hsub; cbn; lia|exact Eb|].
    split; [intros Hch; now rewrite (Hs Hch)|exact Hc].
  - injection Hw as <-. split; [reflexivity|cbn; lia].
Qed.

Theorem traverseStatement_accounted :
  forall v, visitorAccounted v ->
  forall fuel node w,
    traverseStatement fuel v node = Done w ->
    accounted ifsOfPath (Still node) w.
Proof.
  intros v Hv. induction fuel as [|fuel IH]; intros node w Hw;
    [discriminate|].
  pose proof (@walkList_accounted (traverseStatement fuel v)) as HL.
  unfold visitorAccounted in Hv.
  assert (Hchildren :
            forall n wk,
              walkChildren (traverseStatement fuel v) n = Done wk ->
              accounted ifs n wk).
  { intros n wk. apply walkChildren_accounted. intros m w' _. apply IH. }
  unfold accounted in *.
  assert (Hother :
            forall n w0,
              (wk <- walkChildren (traverseStatement fuel v) n;;
               Done {| result := Still (result wk);
                       hasChanged := hasChanged wk;
                       stopped := stopped wk |}) = Done w0 ->
              accounted ifsOfPath (Still n) w0).
  { intros n w0 H0.
    destruct (walkChildren (traverseStatement fuel v) n) as [wk|op|] eqn:Ek;
      cbn [bind] in H0; try discriminate.
    injection H0 as <-. destruct (Hchildren n wk Ek) as (Hs & Hc).
    cbn [result hasChanged ifsOfPath] in *.
    split; [intros Hch; now rewrite (Hs Hch)|exact Hc]. }
  destruct node as [loc test c a|body|e|test body|arg];
    try (apply Hother; exact Hw).
  clear Hother. cbn [traverseStatement] in Hw.
  destruct (v fuel loc test c a) as [vw|op|] eqn:Ev; cbn [bind] in Hw;
    try discriminate.
  destruct (Hv fuel loc test c a vw Ev) as (Hsame & Hcount).
  destruct (result vw) as [node'|nodes|] eqn:Er;
    cbn [isReplacement ifsOfPath] in Hcount.
  - rewrite orb_false_r in Hcount. destruct (stopped vw).
    + injection Hw as <-. rewrite Er. cbn [ifsOfPath]. split; [|exact Hcount].
      intros Hc. f_equal. now apply Hsame.
    + destruct (walkChildren (traverseStatement fuel v) node') as [wk|op|]
        eqn:Ek; cbn [bind] in Hw; try discriminate.
      injection Hw as <-. destruct (Hchildren node' wk Ek) as (Hs & Hc).
      cbn [result hasChanged ifsOfPath]. split.
      * intros Hch. apply orb_false_elim in Hch. destruct Hch as (H1 & H2).
        rewrite (Hs H2). f_equal. now apply Hsame.
      * destruct (hasChanged vw), (hasChanged wk); cbn [orb flag] in *; lia.
  - rewrite orb_true_r in Hcount. cbn [flag] in Hcount.
    destruct (stopped vw).
    + injection Hw as <-. cbn [result hasChanged ifsOfPath flag].
      split; [discriminate|exact Hcount].
    + destruct (walkList (traverseStatement fuel v) nodes) as [wl|op|]
        eqn:El; cbn [bind] in Hw; try discriminate.
      injection Hw as <-. cbn [result hasChanged ifsOfPath flag].
      split; [discriminate|].
      destruct (HL nodes wl) as (_ & Hc); [intros n w' _; apply IH|exact El|].
      destruct (hasChanged wl); cbn [flag] in Hc; lia.
  - injection Hw as <-. cbn [result hasChanged ifsOfPath flag].
    split; [discriminate|]. rewrite orb_true_r in Hcount. exact Hcount.
Qed.

Section Passes.

Context `{Ast}.

Lemma length_ifsOf_getStatements :
  forall node, length (ifsOf (getStatements node)) = length (ifs node).
Proof. intros node. now rewrite ifsOf_getStatements. Qed.

Lemma replaceWithAlternate_accounted :
  forall loc test c a,
    length (ifsOfPath (replaceWithAlternate a)) + 1
    <= length (ifs (IfStatement loc test c a)).
Proof.
  intros loc test c [a|]; cbn [replaceWithAlternate replaceWithBodyOf
                               ifsOfPath ifs length];
    rewrite ?length_ifsOf_getStatements, ?length_app; cbn [length]; lia.
Qed.

Lemma replaceWithConsequent_accounted :
  forall loc test c a,
    length (ifsOfPath (replaceWithConsequent c)) + 1
    <= length (ifs (IfStatement loc test c a)).
Proof.
  intros loc test c a.
  cbn [replaceWithConsequent replaceWithBodyOf ifsOfPath ifs length].
  rewrite length_ifsOf_getStatements, length_app. lia.
Qed.

Lemma nested_visitorAccounted :
  forall (g : Outcome Expression) (v : Visitor),
    (forall fuel loc t c a,
        v fuel loc t c a
        = (g' <- g;;
           Done (untouched (removeDeadCodeFromNestedIf g' loc t c a)))) ->
    visitorAccounted v.
Proof.
  intros g v Hv fuel loc t c a vw Ev. rewrite Hv in Ev.
  destruct g as [g'|op|]; cbn [bind] in Ev; try discriminate.
  injection Ev as <-. cbn [untouched result hasChanged orb].
  unfold removeDeadCodeFromNestedIf.
  destruct (areOpposite g' t); [|destruct (areEqual g' t)].
  - split; [intros _ node Hn; destruct a; discriminate|].
    pose proof (replaceWithAlternate_accounted loc t c a).
    destruct a; cbn [replaceWithAlternate replaceWithBodyOf isReplacement
                     flag] in *; lia.
  - split; [intros _ node Hn; discriminate|].
    pose proof (replaceWithConsequent_accounted loc t c a).
    cbn [replaceWithConsequent replaceWithBodyOf isReplacement flag] in *.
    lia.
  - split; [now intros _ node [= <-]|]. cbn [isReplacement flag ifsOfPath].
    lia.
Qed.

Lemma IfStatementVisitor_accounted :
  forall selection, visitorAccounted (IfStatementVisitor selection).
Proof.
  intros selection fuel loc test c a vw Ev. unfold IfStatementVisitor in Ev.
  destruct (isInside selection loc); cbn [negb] in Ev.
  2:{ injection Ev as <-. cbn [untouched result hasChanged orb].
      split; [now intros _ node [= <-]|]. cbn [isReplacement flag ifsOfPath].
      lia. }
  destruct (isFalsy test).
  { injection Ev as <-. cbn [result hasChanged orb].
    split; [intros _ node Hn; destruct a; discriminate|].
    pose proof (replaceWithAlternate_accounted loc test c a).
    destruct a; cbn [replaceWithAlternate replaceWithBodyOf isReplacement
                     flag] in *; lia. }
  destruct (isTruthy test).
  { injection Ev as <-. cbn [result hasChanged orb].
    split; [intros _ node Hn; discriminate|].
    pose proof (replaceWithConsequent_accounted loc test c a).
    cbn [replaceWithConsequent replaceWithBodyOf isReplacement flag] in *.
    lia. }
  destruct (traverse fuel (consequentVisitor test) c) as [wc|op|] eqn:Ec;
    cbn [bind] in Ev; try discriminate.
  destruct (@walkChildren_accounted
              (traverseStatement fuel (consequentVisitor test)) c wc)
    as (Hsc & Hcc); [|exact Ec|].
  { intros n w' _. apply traverseStatement_accounted.
    now apply nested_visitorAccounted with (g := Done test). }
  destruct a as [a|].
  - destruct (traverse fuel (alternateVisitor test) a) as [wa|op|] eqn:Ea;
      cbn [bind] in Ev; try discriminate.
    injection Ev as <-. cbn [result hasChanged isReplacement ifsOfPath].
    destruct (@walkChildren_accounted
                (traverseStatement fuel (alternateVisitor test)) a wa)
      as (Hsa & Hca); [|exact Ea|].
    { intros n w' _. apply traverseStatement_accounted.
      now apply nested_visitorAccounted with (g := oppositeTest test). }
    rewrite orb_false_r. split.
    + intros Hch node [= <-]. apply orb_false_elim in Hch.
      destruct Hch as (H1 & H2). now rewrite (Hsc H1), (Hsa H2).
    + cbn [ifs length]. rewrite !length_app.
      destruct (hasChanged wc), (hasChanged wa); cbn [orb flag] in *; lia.
  - injection Ev as <-.
    cbn [untouched result hasChanged isReplacement ifsOfPath].
    rewrite !orb_false_r. split.
    + intros Hch node [= <-]. now rewrite (Hsc Hch).
    + cbn [ifs length]. rewrite !length_app. cbn [length].
      destruct (hasChanged wc); cbn [flag] in *; lia.
Qed.

(** [hasCodeChanged] is up exactly when the pass changed the program:
    an untouched program keeps the flag down, and a raised flag means
    at least one [if] is gone. *)
Theorem updateProgram_changed_iff :
  forall program selection w,
    updateProgram program selection = Done w ->
    (hasChanged w = true <-> result w <> program)
    /\ (hasChanged w = true ->
        length (ifsOf (result w)) < length (ifsOf program)).
Proof.
  unfold Program. intros program selection w Hw.
  unfold updateProgram, traverseProgram in Hw.
  destruct (@walkList_accounted
              (traverseStatement (fuelFor program)
                                 (IfStatementVisitor selection))
              program w) as (Hs & Hc); [|exact Hw|].
  { intros n w' _. apply traverseStatement_accounted.
    apply IfStatementVisitor_accounted. }
  assert (Hlt : hasChanged w = true ->
                length (ifsOf (result w)) < length (ifsOf program)).
  { intros Hch. rewrite Hch in Hc. cbn [flag] in Hc. lia. }
  split; [|exact Hlt]. split.
  - intros Hch Heq. specialize (Hlt Hch). rewrite Heq in Hlt. lia.
  - intros Hne. destruct (hasChanged w); [reflexivity|].
    now destruct Hne; apply Hs.
Qed.

End Passes.

End AccountingFacts.

(* ================================================================= *)
(** ** Error messages of the VS Code notification adapter *)

Section ErrorMessages.

Import ShowErrorMessage.

Lemma messages_differ : extractableMessage <> genericMessage.
Proof. discriminate. Qed.

(** C10: [toString] returns the extraction message for
    [DidNotFoundExtractableCode] and only for it; every other reason,
    [DidNotFoundNegatableExpression] and [DidNotFoundDeadCode]
    included, gets the generic apology. *)
Theorem toString_specific_only_for_extractable :
  forall reason,
    (toString reason = extractableMessage
     <-> reason = DidNotFoundExtractableCode)
    /\ (toString reason = genericMessage
        <-> reason <> DidNotFoundExtractableCode)
    /\ toString DidNotFoundNegatableExpression = genericMessage
    /\ toString DidNotFoundDeadCode = genericMessage.
Proof.
  pose proof messages_differ as Hd.
  intros reason. repeat split; try reflexivity;
    destruct reason; cbn; intros; congruence.
Qed.

End ErrorMessages.

(* ================================================================= *)
(** ** The VS Code adapter: read-then-write *)

Section ReadThenWrite.

Import VSCodeEditor Samples.

Lemma lineCount_positive : forall text, 1 <= vscode.lineCount_from text.
Proof.
  induction text as [|ch rest IH]; cbn [vscode.lineCount_from]; [lia|].
  destruct (vscode.isLineFeed ch); lia.
Qed.

Lemma offsetAt_past_the_last_line :
  forall text l,
    vscode.lineCount_from text <= l ->
    vscode.offsetAt text l 0 = String.length text.
Proof.
  induction text as [|ch rest IH]; intros l Hl; [reflexivity|].
  cbn [vscode.lineCount_from] in Hl. cbn [vscode.offsetAt String.length].
  destruct l as [|l].
  - pose proof (lineCount_positive rest).
    destruct (vscode.isLineFeed ch); lia.
  - f_equal. apply IH. destruct (vscode.isLineFeed ch); lia.
Qed.

Lemma skip_all : forall text, vscode.skip (String.length text) text = "".
Proof. induction text; cbn; congruence. Qed.

Lemma substring_nothing : forall text, substring 0 0 text = "".
Proof. destruct text; reflexivity. Qed.

(** [write] replaces the whole document by the code it is given. *)
Lemma write_replaces_the_document :
  forall code newCursorPosition ed,
    document (write code newCursorPosition ed) = code.
Proof.
  intros code newCursorPosition ed. unfold write, editRange.
  cbn [document vscode.applyEdit vscode.lastFirst fold_right
       vscode.insertByStart fold_left vscode.range vscode.start vscode.end_
       vscode.newText].
  unfold vscode.replaceBetween, vscode.offsetOf.
  cbn [vscode.line vscode.character].
  replace (vscode.offsetAt (document ed) 0 0) with 0
    by (now destruct (document ed)).
  rewrite Nat.max_0_l.
  rewrite offsetAt_past_the_last_line by (unfold vscode.lineCount; lia).
  rewrite skip_all, substring_nothing.
  cbn [String.append]. clear. induction code; cbn; congruence.
Qed.

(** C1, refuted as stated: the fragment is read at columns 4 to 10;
    a modification local to it (columns 0 to 6) is applied at columns
    0 to 6 of the document, not moved to columns 4 to 10.  The edit
    that lands on the expression is the one given in document
    coordinates. *)
Lemma readThenWrite_applies_local_coordinates_untranslated :
  readCode (mkSelection 0 4 0 10) negatableDocument = "a == b"
  /\ map toTextEdit (fragmentLocalUpdate "a == b")
     <> map (translatedTextEdit {| line := 0; character := 4 |})
            (fragmentLocalUpdate "a == b")
  /\ document (readThenWrite (mkSelection 0 4 0 10) fragmentLocalUpdate
                             None negatableDocument)
     = "!(a != b)== b) {}"
  /\ vscode.applyEdit (document negatableDocument)
       (map (translatedTextEdit {| line := 0; character := 4 |})
            (fragmentLocalUpdate "a == b"))
     = "if (!(a != b)) {}"
  /\ document (readThenWrite (mkSelection 0 4 0 10) documentUpdate
                             None negatableDocument)
     = "if (!(a != b)) {}".
Proof.
  repeat split; try reflexivity. cbn. intros [=].
Qed.

(** C1, as the adapter has it: the fragment handed to
    [getModifications] is the text of the selection, and every
    modification is applied at the line and character of its own
    selection, taken as document coordinates; where the fragment was
    read plays no further part. *)
Theorem readThenWrite_applies_modifications_as_given :
  forall sel getModifications newCursorPosition ed,
    document (readThenWrite sel getModifications newCursorPosition ed)
    = vscode.applyEdit (document ed)
        (map (fun m =>
                {| vscode.range :=
                     {| vscode.start :=
                          {| vscode.line := line (start (selection m));
                             vscode.character :=
                               character (start (selection m)) |};
                        vscode.end_ :=
                          {| vscode.line := line (end_ (selection m));
                             vscode.character :=
                               character (end_ (selection m)) |} |};
                   vscode.newText := code m |})
             (getModifications
                (vscode.getText (document ed)
                   {| vscode.start := toVSCodePosition (start sel);
                      vscode.end_ := toVSCodePosition (end_ sel) |})))
    /\ forall sel',
        readCode sel' ed = readCode sel ed ->
        readThenWrite sel' getModifications newCursorPosition ed
        = readThenWrite sel getModifications newCursorPosition ed.
Proof.
  intros sel getModifications newCursorPosition ed. split.
  - reflexivity.
  - intros sel' Hread. unfold readThenWrite. now rewrite Hread.
Qed.

Lemma readThenWrite_applies_modifications_as_given_witness :
  readCode (mkSelection 0 9 0 10) negatableDocument
  = readCode (mkSelection 0 12 0 13)
             {| document := "if (a == b) b;";
                editorSelection := editorSelection negatableDocument;
                errorMessages := [] |}
  /\ readThenWrite (mkSelection 0 9 0 10) documentUpdate None
                   {| document := "if (a == b) b;";
                      editorSelection := editorSelection negatableDocument;
                      errorMessages := [] |}
     = readThenWrite (mkSelection 0 12 0 13) documentUpdate None
                     {| document := "if (a == b) b;";
                        editorSelection := editorSelection negatableDocument;
                        errorMessages := [] |}.
Proof.
  split; [reflexivity|].
  apply (proj2 (readThenWrite_applies_modifications_as_given
                  (mkSelection 0 12 0 13) documentUpdate None
                  {| document := "if (a == b) b;";
                     editorSelection := editorSelection negatableDocument;
                     errorMessages := [] |})).
  reflexivity.
Defined.

End ReadThenWrite.

(* ================================================================= *)
(** ** Remove dead code: the claims *)

Section RemoveDeadCodeClaims.

Import ast Observe Pruning Invariants Governing Resolution DriverFacts
       RemoveDeadCode RemoveDeadCodeFacts PruningFacts AccountingFacts.

Context `{Ast}.

Lemma updateCode_updateProgram :
  forall code selection,
    updateCode code selection
    = (w <- updateProgram (parse code) selection;;
       Done {| ast.code := print (result w);
               hasCodeChanged := hasChanged w |}).
Proof. reflexivity. Qed.

Lemma updateCode_sound :
  forall code selection,
    match updateCode code selection with
    | Done _ => True
    | OutOfTable op =>
        exists i, In i (ifsOf (parse code)) /\ outOfTableAt selection i op
    | OutOfFuel => False
    end.
Proof.
  intros code selection. rewrite updateCode_updateProgram.
  pose proof (updateProgram_sound (parse code) selection) as Hp.
  destruct (updateProgram (parse code) selection) as [w|op|];
    cbn [bind]; [exact I|exact Hp|exact Hp].
Qed.

(** C3: [hasDeadCode] answers [true] exactly when [removeDeadCode]
    writes; both read the [hasCodeChanged] flag of one and the same
    [updateCode], and that flag is up exactly when the pass changed the
    parsed program. *)
Theorem hasDeadCode_iff_removeDeadCode_writes :
  forall code selection (r : Recorder),
    (hasDeadCode code selection = Done true
     <-> exists written cursor,
          callsOf (removeDeadCode code selection r)
          = calls r ++ [CalledWrite written cursor])
    /\ hasDeadCode code selection
       = (updatedCode <- updateCode code selection;;
          Done (hasCodeChanged updatedCode))
    /\ removeDeadCode code selection r
       = (updatedCode <- updateCode code selection;;
          Done (if hasCodeChanged updatedCode
                then write (ast.code updatedCode) None r
                else showError DidNotFoundDeadCode r))
    /\ (forall w,
           updateProgram (parse code) selection = Done w ->
           updateCode code selection
           = Done {| ast.code := print (result w);
                     hasCodeChanged := hasChanged w |}
           /\ (hasChanged w = true <-> result w <> parse code)).
Proof.
  intros code selection r.
  assert (Hflag : forall w,
             updateProgram (parse code) selection = Done w ->
             updateCode code selection
             = Done {| ast.code := print (result w);
                       hasCodeChanged := hasChanged w |}
             /\ (hasChanged w = true <-> result w <> parse code)).
  { intros w Hw. split.
    - rewrite updateCode_updateProgram, Hw. reflexivity.
    - now apply updateProgram_changed_iff with (selection := selection). }
  assert (Hr : removeDeadCode code selection r
               = (updatedCode <- updateCode code selection;;
                  Done (if hasCodeChanged updatedCode
                        then write (ast.code updatedCode) None r
                        else showError DidNotFoundDeadCode r))).
  { unfold removeDeadCode.
    destruct (updateCode code selection) as [[c changed]|op|];
      cbn [bind hasCodeChanged]; [|reflexivity|reflexivity].
    now destruct changed. }
  split; [|split; [reflexivity|split; [exact Hr|exact Hflag]]].
  rewrite Hr. unfold hasDeadCode.
  destruct (updateCode code selection) as [[c changed]|op|];
    cbn [bind hasCodeChanged ast.code callsOf].
  - destruct changed; cbn [write showError RecorderEditor record calls].
    + split; [eauto|reflexivity].
    + split; [discriminate|].
      intros (written & cursor & Hc). apply app_inv_head in Hc.
      discriminate.
  - split; [discriminate|]. intros (written & cursor & Hc).
    destruct (calls r); discriminate.
  - split; [discriminate|]. intros (written & cursor & Hc).
    destruct (calls r); discriminate.
Qed.

Lemma removeDeadCode_by_flag :
  forall (E : Type) `{Editor E} (editor : E) code selection,
    removeDeadCode code selection editor
    = (updatedCode <- updateCode code selection;;
       Done (if hasCodeChanged updatedCode
             then write (ast.code updatedCode) None editor
             else showError DidNotFoundDeadCode editor)).
Proof.
  intros E HE editor code selection. unfold removeDeadCode.
  destruct (updateCode code selection) as [[c changed]|op|];
    cbn [bind hasCodeChanged]; [|reflexivity|reflexivity].
  now destruct changed.
Qed.

(** A code whose binary [if] tests are all comparisons stays within
    the table of [getOppositeOperator]. *)
Lemma updateCode_within_the_table :
  forall code selection,
    (forall i, In i (ifsOf (parse code)) -> flippable (snd i) = true) ->
    exists updatedCode, updateCode code selection = Done updatedCode.
Proof.
  intros code selection Hall.
  pose proof (updateCode_sound code selection) as Hs.
  destruct (updateCode code selection) as [t|op|]; [now exists t| |].
  - destruct Hs as (i & Hin & _ & _ & _ & loc & l & r & Et & En).
    specialize (Hall i Hin). rewrite Et in Hall. cbn [flippable] in Hall.
    destruct op; discriminate.
  - destruct Hs.
Qed.


(** The driver on an [if] that contains the selection and whose test
    is statically decided. *)
Lemma traverseStatement_falsy :
  forall selection fuel loc test c a,
    isInside selection loc = true ->
    isFalsy test = true ->
    traverseStatement (S fuel) (IfStatementVisitor selection)
                      (IfStatement loc test c a)
    = Done {| result := replaceWithAlternate a;
              hasChanged := true;
              stopped := true |}.
Proof.
  intros selection fuel loc test c a Hi Hf. cbn [traverseStatement].
  unfold IfStatementVisitor. rewrite Hi, Hf.
  cbn [negb bind result stopped]. now destruct a.
Qed.

Lemma traverseStatement_truthy :
  forall selection fuel loc test c a,
    isInside selection loc = true ->
    isTruthy test = true ->
    traverseStatement (S fuel) (IfStatementVisitor selection)
                      (IfStatement loc test c a)
    = Done {| result := replaceWithConsequent c;
              hasChanged := true;
              stopped := true |}.
Proof.
  intros selection fuel loc test c a Hi Ht. cbn [traverseStatement].
  unfold IfStatementVisitor.
  rewrite Hi, (truthy_not_falsy _ Ht), Ht.
  reflexivity.
Qed.

Lemma oppositeTest_flippable :
  forall test,
    flippable test = true -> oppositeTest test = Done (negatedTest test).
Proof.
  destruct test; try reflexivity. cbn [flippable oppositeTest negatedTest].
  intros Hc. rewrite Hc. unfold oppositeOperator.
  destruct operator; try discriminate; reflexivity.
Qed.

(** What the [IfStatement] callback does on an [if] that contains the
    selection and whose test is not statically decided. *)
Lemma IfStatementVisitor_undecided :
  forall selection fuel loc test c a,
    isInside selection loc = true ->
    isFalsy test = false ->
    isTruthy test = false ->
    size c + sizeOfOption a <= fuel ->
    flippable test = true ->
    exists c' a' changed,
      IfStatementVisitor selection fuel loc test c a
      = Done {| result := Still (IfStatement loc test c' a');
                hasChanged := changed;
                stopped := false |}
      /\ PrunedBelow test c c'
      /\ PrunedBelowOption (negatedTest test) a a'
      /\ (forall i, In i (nestedIfs c') -> settled test i)
      /\ (forall root i,
             a' = Some root -> In i (nestedIfs root) ->
             settled (negatedTest test) i)
      /\ size c' + sizeOfOption a' <= size c + sizeOfOption a
      /\ forall i, In i (ifs c' ++ ifsOfOption a') ->
                   In i (ifs c ++ ifsOfOption a).
Proof.
  intros selection fuel loc test c a Hi Hf Ht Hfuel Hflip.
  apply oppositeTest_flippable in Hflip.
  unfold IfStatementVisitor. rewrite Hi, Hf, Ht. cbn [negb].
  destruct (@traverse_prunes _ test (consequentVisitor test)
              (fun _ _ _ _ _ => eq_refl) fuel c) as (wc & Ec & Pc); [lia|].
  destruct (consequent_pass test c (fuel:=fuel))
    as (wc' & Ec' & Hsc & Hhc & Hic); [lia|].
  rewrite Ec in Ec'. injection Ec' as <-. rewrite Ec. cbn [bind].
  assert (Hc : forall i, In i (ifs (result wc)) -> In i (ifs c)).
  { apply traverse_ifs; [exact Hhc|]. intros i Hin. now apply Hic. }
  destruct a as [a|].
  - cbn [sizeOfOption] in Hfuel.
    destruct (@traverse_prunes _ (negatedTest test) (alternateVisitor test))
      with (fuel := fuel) (root := a) as (wa & Ea & Pa).
    { intros. unfold alternateVisitor. now rewrite Hflip. }
    { lia. }
    destruct (alternate_pass test a Hflip (fuel:=fuel))
      as (wa' & Ea' & Hsa & Hha & Hia); [lia|].
    rewrite Ea in Ea'. injection Ea' as <-. rewrite Ea. cbn [bind result].
    do 3 eexists. split; [reflexivity|]. split; [exact Pc|].
    split; [exact Pa|]. split; [intros i Hin; now apply Hic|].
    split; [intros root i [= <-] Hin; now apply Hia|].
    split; [cbn [sizeOfOption]; lia|].
    intros i Hin. apply in_app_or in Hin. apply in_or_app.
    destruct Hin as [Hin|Hin]; [left; now apply Hc|right].
    cbn [ifsOfOption] in *. revert i Hin.
    apply traverse_ifs; [exact Hha|]. intros i Hin. now apply Hia.
  - cbn [bind untouched result].
    do 3 eexists. split; [reflexivity|]. split; [exact Pc|].
    split; [exact I|]. split; [intros i Hin; now apply Hic|].
    split; [discriminate|]. split; [lia|].
    intros i Hin. apply in_app_or in Hin. apply in_or_app.
    destruct Hin as [Hin|Hin]; [left; now apply Hc|now right].
Qed.

(** A tree without any [if] is left as it is by every visitor. *)
Lemma no_ifs_untouched :
  forall (v : Visitor) fuel node,
    size node <= fuel ->
    ifs node = [] ->
    traverseStatement fuel v node = Done (untouched (Still node)).
Proof.
  intros v. induction fuel as [|fuel IH]; intros node Hfuel Hno.
  - pose proof (size_positive node). lia.
  - assert (Hchildren :
              walkChildren (traverseStatement fuel v) node
              = Done (untouched node)).
    { apply walkChildren_untouched. intros n Hn Hin. apply IH; [lia|].
      destruct (ifs n) as [|i rest] eqn:En; [reflexivity|].
      assert (Hi : In i (ifs node)).
      { rewrite ifs_head_nested. apply in_or_app. right.
        apply Hin. rewrite ?En. now left. }
      rewrite Hno in Hi. destruct Hi. }
    destruct node as [loc test c a|body|e|test body|arg];
      cbn [traverseStatement]; try (rewrite Hchildren; reflexivity).
    discriminate.
Qed.

Lemma traverse_without_nested_ifs :
  forall (v : Visitor) fuel root,
    size root <= S fuel ->
    nestedIfs root = [] ->
    traverse fuel v root = Done (untouched root).
Proof.
  intros v fuel root Hfuel Hno. unfold traverse.
  apply walkChildren_untouched. intros n Hn Hin.
  apply no_ifs_untouched; [lia|].
  destruct (ifs n) as [|i rest] eqn:En; [reflexivity|].
  assert (Hi : In i (nestedIfs root)) by (apply Hin; rewrite ?En; now left).
  rewrite Hno in Hi. destruct Hi.
Qed.

(** What the [IfStatement] callback does on an [if] that contains the
    selection and whose test is not statically decided, whatever the
    test: the opposite test is needed only for an [if] below the
    alternate. *)
Lemma IfStatementVisitor_undecided_any :
  forall selection fuel loc test c a,
    isInside selection loc = true ->
    isFalsy test = false ->
    isTruthy test = false ->
    size c + sizeOfOption a <= fuel ->
    alternateWithinTheTable test a ->
    exists c' a' changed,
      IfStatementVisitor selection fuel loc test c a
      = Done {| result := Still (IfStatement loc test c' a');
                hasChanged := changed;
                stopped := false |}
      /\ PrunedBelow test c c'
      /\ (forall i, In i (nestedIfs c') -> settled test i)
      /\ PrunedAlternate test a a'
      /\ (changed = false <-> c' = c /\ a' = a)
      /\ size c' + sizeOfOption a' <= size c + sizeOfOption a
      /\ forall i, In i (ifs c' ++ ifsOfOption a') ->
                   In i (ifs c ++ ifsOfOption a).
Proof.
  intros selection fuel loc test c a Hi Hf Ht Hfuel Hgov.
  assert (Hchanged : forall c' a' changed,
             IfStatementVisitor selection fuel loc test c a
             = Done {| result := Still (IfStatement loc test c' a');
                       hasChanged := changed;
                       stopped := false |} ->
             (changed = false <-> c' = c /\ a' = a)).
  { intros c' a' changed Ev.
    destruct (IfStatementVisitor_accounted selection fuel loc test c a Ev)
      as (Hsame & Hcount).
    cbn [result hasChanged isReplacement ifsOfPath] in Hsame, Hcount.
    split.
    - intros Hch. specialize (Hsame Hch _ eq_refl).
      injection Hsame as -> ->. now split.
    - intros (-> & ->). destruct changed; [|reflexivity].
      cbn [orb flag] in Hcount. lia. }
  revert Hchanged.
  unfold IfStatementVisitor. rewrite Hi, Hf, Ht. cbn [negb].
  destruct (@traverse_prunes _ test (consequentVisitor test)
              (fun _ _ _ _ _ => eq_refl) fuel c) as (wc & Ec & Pc); [lia|].
  destruct (consequent_pass test c (fuel:=fuel))
    as (wc' & Ec' & Hsc & Hhc & Hic); [lia|].
  rewrite Ec in Ec'. injection Ec' as <-. rewrite Ec. cbn [bind].
  assert (Hc : forall i, In i (ifs (result wc)) -> In i (ifs c)).
  { apply traverse_ifs; [exact Hhc|]. intros i Hin. now apply Hic. }
  destruct a as [root|].
  - cbn [sizeOfOption] in Hfuel.
    destruct (oppositeTest test) as [g|op|] eqn:Eg.
    + destruct (@traverse_prunes _ g (alternateVisitor test))
        with (fuel := fuel) (root := root) as (wa & Ea & Pa).
      { intros. unfold alternateVisitor. now rewrite Eg. }
      { lia. }
      destruct (alternate_pass test root Eg (fuel:=fuel))
        as (wa' & Ea' & Hsa & Hha & Hia); [lia|].
      rewrite Ea in Ea'. injection Ea' as <-. rewrite Ea.
      cbn [bind result]. intros Hchanged.
      do 3 eexists. split; [reflexivity|]. split; [exact Pc|].
      split; [intros i Hin; now apply Hic|].
      split; [|split; [now apply Hchanged|split]].
      * cbn [PrunedAlternate]. split.
        -- intros g' Hg'. rewrite Eg in Hg'. injection Hg' as <-.
           split; [exact Pa|].
           intros i Hin. now apply Hia.
        -- intros Hno.
           rewrite (@traverse_without_nested_ifs (alternateVisitor test)
                      fuel root) in Ea by (lia || exact Hno).
           now injection Ea as <-.
      * cbn [sizeOfOption]. lia.
      * intros i Hin. apply in_app_or in Hin. apply in_or_app.
        destruct Hin as [Hin|Hin]; [left; now apply Hc|right].
        cbn [ifsOfOption] in *. revert i Hin.
        apply traverse_ifs; [exact Hha|]. intros i Hin. now apply Hia.
    + destruct (nestedIfs root) as [|i rest] eqn:En.
      * rewrite (@traverse_without_nested_ifs (alternateVisitor test)
                   fuel root) by (lia || exact En).
        cbn [bind untouched result hasChanged]. intros Hchanged.
        do 3 eexists. split; [reflexivity|]. split; [exact Pc|].
        split; [intros i Hin; now apply Hic|].
        split; [|split; [now apply Hchanged|split]].
        -- cbn [PrunedAlternate]. split; [|reflexivity].
           intros g' Hg'. rewrite Eg in Hg'. discriminate.
        -- cbn [sizeOfOption]. lia.
        -- intros i Hin. apply in_app_or in Hin. apply in_or_app.
           destruct Hin as [Hin|Hin]; [left; now apply Hc|now right].
      * assert (Hflip : flippable test = true).
        { apply (Hgov root eq_refl). rewrite En. discriminate. }
        apply oppositeTest_flippable in Hflip. congruence.
    + now destruct (oppositeTest_total test).
  - cbn [bind untouched result]. intros Hchanged.
    do 3 eexists. split; [reflexivity|]. split; [exact Pc|].
    split; [intros i Hin; now apply Hic|].
    split; [exact I|split; [now apply Hchanged|split]].
    + lia.
    + intros i Hin. apply in_app_or in Hin. apply in_or_app.
      destruct Hin as [Hin|Hin]; [left; now apply Hc|now right].
Qed.

(** The same on a statement of the program, when the selection sits
    in no other [if]. *)
Lemma updateProgram_undecided_any :
  forall selection pre loc test c a post,
    (forall i, In i (ifsOf pre) -> isInside selection (fst i) = false) ->
    isInside selection loc = true ->
    isFalsy test = false ->
    isTruthy test = false ->
    alternateWithinTheTable test a ->
    (forall i, In i (ifs c ++ ifsOfOption a) ->
               isInside selection (fst i) = false) ->
    (forall i, In i (ifsOf post) -> isInside selection (fst i) = false) ->
    exists c' a' changed,
      updateProgram (pre ++ IfStatement loc test c a :: post) selection
      = Done {| result := pre ++ IfStatement loc test c' a' :: post;
                hasChanged := changed;
                stopped := false |}
      /\ PrunedBelow test c c'
      /\ (forall i, In i (nestedIfs c') -> settled test i)
      /\ PrunedAlternate test a a'
      /\ (changed = false <-> c' = c /\ a' = a).
Proof.
  intros selection pre loc test c a post Hpre Hi Hf Ht Hgov Hin Hpost.
  set (program := pre ++ IfStatement loc test c a :: post).
  assert (Hsize : size (IfStatement loc test c a) + sizeList post
                  <= sizeList program).
  { unfold program. rewrite sizeList_app. unfold sizeList at 3.
    cbn [fold_right]. fold (sizeList post). lia. }
  cbn [size] in Hsize. fold (sizeOfOption a) in Hsize.
  destruct (@IfStatementVisitor_undecided_any selection (sizeList program)
              loc test c a Hi Hf Ht) as
      (c' & a' & changed & Ev & Pc & Sc & Pa & Hch & Hs & Hsub);
    [lia|exact Hgov|].
  exists c', a', (changed || false || false).
  split; [|split; [exact Pc|split; [exact Sc|split; [exact Pa|]]]].
  2:{ now rewrite !orb_false_r. }
  unfold updateProgram, traverseProgram.
  change (walkList (traverseStatement (fuelFor program)
                      (IfStatementVisitor selection))
                   (pre ++ IfStatement loc test c a :: post)
          = Done {| result := pre ++ IfStatement loc test c' a' :: post;
                    hasChanged := changed || false || false;
                    stopped := false |}).
  rewrite walkList_app_untouched.
  2:{ intros n Hn. apply outside_untouched.
      - unfold fuelFor, program. rewrite sizeList_app.
        apply size_In_sizeList in Hn. lia.
      - intros i Hi'. apply Hpre. unfold ifsOf. apply in_flat_map. eauto. }
  cbn [walkList]. unfold fuelFor at 1.
  cbn [traverseStatement]. rewrite Ev. cbn [bind result stopped hasChanged].
  rewrite walkChildren_untouched.
  2:{ intros n Hn Hn'. apply outside_untouched.
      - cbn [size] in Hn. fold (sizeOfOption a') in Hn. lia.
      - intros i Hi'. apply Hin, Hsub. now apply Hn'. }
  cbn [bind untouched result stopped hasChanged inList app].
  rewrite walkList_untouched.
  2:{ intros n Hn. apply outside_untouched.
      - unfold fuelFor. apply size_In_sizeList in Hn. lia.
      - intros i Hi'. apply Hpost. unfold ifsOf. apply in_flat_map. eauto. }
  reflexivity.
Qed.

(** C4, as the code has it: on an [if] that contains the selection and
    whose test is not statically decided, the [if] statements strictly
    below the consequent are examined against the outer test and those
    strictly below the alternate against the opposite test: the outer
    test with the operator [getOppositeOperator] answers when it is a
    binary expression (the flipped operator for a comparison), the
    outer test itself when it is not.  Every [if] examined whose test
    is the opposite of the governing condition is replaced by the
    statements of its alternate (or removed), every one whose test
    equals it by the statements of its consequent, and none is left
    that the governing condition settles.  A branch that is itself an
    [if] (an [else if], or an [if] without braces as the consequent)
    is not examined: it keeps its range and its test, whatever they
    are.  Stated for the consequent pass on any test, for the
    callback when the opposite test exists or the alternate holds no
    [if], and for [removeDeadCode] when the selection sits in no other
    [if]: it writes exactly when a branch changed. *)
Theorem undecided_if_prunes_its_branches :
  forall selection loc test c a,
    isInside selection loc = true ->
    isFalsy test = false ->
    isTruthy test = false ->
    ((forall tloc operator l r,
         test = BinaryExpression tloc operator l r ->
         oppositeTest test
         = (opposite <- oppositeOperator operator;;
            Done (BinaryExpression tloc opposite l r)))
     /\ (isBinaryExpression test = false -> oppositeTest test = Done test)
     /\ (flippable test = true ->
         oppositeTest test = Done (negatedTest test)))
    /\ (forall fuel,
           size c <= fuel ->
           exists wc,
             traverse fuel (consequentVisitor test) c = Done wc
             /\ PrunedBelow test c (result wc)
             /\ forall i, In i (nestedIfs (result wc)) -> settled test i)
    /\ (alternateWithinTheTable test a ->
        (forall fuel,
            size c + sizeOfOption a <= fuel ->
            exists c' a' changed,
              IfStatementVisitor selection fuel loc test c a
              = Done {| result := Still (IfStatement loc test c' a');
                        hasChanged := changed;
                        stopped := false |}
              /\ PrunedBelow test c c'
              /\ (forall i, In i (nestedIfs c') -> settled test i)
              /\ PrunedAlternate test a a'
              /\ (changed = false <-> c' = c /\ a' = a))
        /\ (forall (E : Type) (HE : Editor E) (editor : E) code pre post,
               parse code = pre ++ IfStatement loc test c a :: post ->
               (forall i,
                   In i (ifsOf pre ++ ifs c ++ ifsOfOption a ++ ifsOf post)
                   -> isInside selection (fst i) = false) ->
               exists c' a',
                 PrunedBelow test c c'
                 /\ (forall i, In i (nestedIfs c') -> settled test i)
                 /\ PrunedAlternate test a a'
                 /\ (c' = c /\ a' = a ->
                     removeDeadCode code selection editor
                     = Done (showError DidNotFoundDeadCode editor))
                 /\ (c' <> c \/ a' <> a ->
                     removeDeadCode code selection editor
                     = Done (write
                               (print (pre ++ IfStatement loc test c' a'
                                           :: post))
                               None editor))))
    /\ (forall g nestedLoc nestedTest nestedConsequent nestedAlternate p,
           Pruned g (IfStatement nestedLoc nestedTest nestedConsequent
                                 nestedAlternate) p ->
           (areOpposite g nestedTest = true ->
            match nestedAlternate with
            | Some alternate =>
                exists nodes,
                  p = ReplacedWith nodes
                  /\ PrunedList g (getStatements alternate) nodes
            | None => p = Gone
            end)
           /\ (areEqual g nestedTest = true ->
               exists nodes,
                 p = ReplacedWith nodes
                 /\ PrunedList g (getStatements nestedConsequent) nodes))
    /\ (forall g branchLoc branchTest branchConsequent branchAlternate
               branch',
           PrunedBelow g (IfStatement branchLoc branchTest branchConsequent
                                      branchAlternate) branch' ->
           exists consequent' alternate',
             branch' = IfStatement branchLoc branchTest
                                   consequent' alternate').
Proof.
  intros selection loc test c a Hi Hf Ht.
  split; [|split; [|split; [|split]]].
  - split; [|split].
    + intros tloc operator l r ->. reflexivity.
    + destruct test; cbn; now try discriminate.
    + apply oppositeTest_flippable.
  - intros fuel Hfuel.
    destruct (@traverse_prunes _ test (consequentVisitor test)
                (fun _ _ _ _ _ => eq_refl) fuel c Hfuel) as (wc & Ec & Pc).
    destruct (consequent_pass test c Hfuel)
      as (wc' & Ec' & _ & _ & Hic).
    rewrite Ec in Ec'. injection Ec' as <-.
    exists wc. split; [exact Ec|]. split; [exact Pc|].
    intros i Hin. now apply Hic.
  - intros Hgov. split.
    + intros fuel Hfuel.
      destruct (@IfStatementVisitor_undecided_any selection fuel loc test
                  c a Hi Hf Ht Hfuel Hgov)
        as (c' & a' & changed & Ev & Pc & Sc & Pa & Hch & _).
      exists c', a', changed.
      split; [exact Ev|split; [exact Pc|split; [exact Sc|]]].
      split; [exact Pa|exact Hch].
    + intros E HE editor code pre post Hparse Hout.
      destruct (@updateProgram_undecided_any selection pre loc test c a
                  post)
        as (c' & a' & changed & Eu & Pc & Sc & Pa & Hch); try assumption.
      * intros i Hin. apply Hout. apply in_or_app. now left.
      * intros i Hin. apply Hout. apply in_or_app. right.
        rewrite app_assoc. apply in_or_app. now left.
      * intros i Hin. apply Hout. apply in_or_app. right.
        apply in_or_app. right. apply in_or_app. now right.
      * exists c', a'. split; [exact Pc|]. split; [exact Sc|].
        split; [exact Pa|].
        assert (Hr : removeDeadCode code selection editor
                     = Done (if changed
                             then write
                                    (print (pre ++ IfStatement loc test
                                                     c' a' :: post))
                                    None editor
                             else showError DidNotFoundDeadCode editor)).
        { unfold removeDeadCode.
          rewrite updateCode_updateProgram, Hparse, Eu.
          cbn [bind result hasChanged hasCodeChanged ast.code].
          now destruct changed. }
        rewrite Hr. split.
        -- intros Hsame. apply Hch in Hsame. now rewrite Hsame.
        -- intros Hdiff. destruct changed; [reflexivity|].
           destruct (proj1 Hch eq_refl) as (-> & ->).
           now destruct Hdiff as [Hd|Hd]; destruct Hd.
  - intros g nl nt nc na p Hp. split;
      [now apply (Pruned_opposite Hp) | now apply (Pruned_equal Hp)].
  - intros g bl bt bc ba branch' Hb. inversion Hb; subst. eauto.
Qed.

(** C2, as the code has it: [removeDeadCode] always ends; when it
    reaches [getOppositeOperator] with an operator out of its table,
    that operator is the one of a binary test, not statically decided,
    of an [if] that contains the selection; and when every binary test
    of an [if] of the code is a comparison the run completes with one
    call on the editor, [write] or [showError DidNotFoundDeadCode].
    The alternate callback hands [getOppositeOperator] the operator of
    the outer test for any binary expression. *)
Theorem removeDeadCode_completes_within_the_table :
  forall (E : Type) `{Editor E} (editor : E) code selection,
    removeDeadCode code selection editor <> OutOfFuel
    /\ (forall op,
           removeDeadCode code selection editor = OutOfTable op ->
           exists i,
             In i (ifsOf (parse code)) /\ outOfTableAt selection i op)
    /\ ((forall i, In i (ifsOf (parse code)) -> flippable (snd i) = true) ->
        exists updatedCode,
          updateCode code selection = Done updatedCode
          /\ removeDeadCode code selection editor
             = Done (if hasCodeChanged updatedCode
                     then write (ast.code updatedCode) None editor
                     else showError DidNotFoundDeadCode editor))
    /\ (forall loc op l r fuel loc' t c a,
           alternateVisitor (BinaryExpression loc op l r) fuel loc' t c a
           = (opposite <- oppositeOperator op;;
              Done (untouched
                      (removeDeadCodeFromNestedIf
                         (BinaryExpression loc opposite l r) loc' t c a)))).
Proof.
  intros E HE editor code selection.
  pose proof (updateCode_sound code selection) as Hs.
  assert (Hr : removeDeadCode code selection editor
               = (updatedCode <- updateCode code selection;;
                  Done (if hasCodeChanged updatedCode
                        then write (ast.code updatedCode) None editor
                        else showError DidNotFoundDeadCode editor))).
  { unfold removeDeadCode.
    destruct (updateCode code selection) as [[cd changed]|op|];
      cbn [bind hasCodeChanged]; [|reflexivity|reflexivity].
    now destruct changed. }
  rewrite Hr.
  destruct (updateCode code selection) as [t|op|] eqn:Eu; cbn [bind].
  - split; [discriminate|]. split; [discriminate|].
    split; [|intros; unfold alternateVisitor, oppositeTest;
             destruct (oppositeOperator op); reflexivity].
    intros _. now exists t.
  - split; [discriminate|]. split; [now intros op' [= <-]|].
    split; [|intros; unfold alternateVisitor, oppositeTest;
             destruct (oppositeOperator op0); reflexivity].
    intros Hall. destruct Hs as (i & Hin & _ & _ & _ & loc & l & r & Et & En).
    specialize (Hall i Hin). rewrite Et in Hall. cbn [flippable] in Hall.
    destruct op; discriminate.
  - destruct Hs.
Qed.

(** *** Pruning is a function of the tree *)

Lemma Pruned_functional_upto :
  forall g k,
    (forall n p p',
        size n <= k -> Pruned g n p -> Pruned g n p' -> p = p')
    /\ (forall l nodes nodes',
           sizeList l <= k ->
           PrunedList g l nodes -> PrunedList g l nodes' -> nodes = nodes').
Proof.
  intros g. induction k as [|k [IHn IHl]].
  - split.
    + intros n p p' Hs. pose proof (size_positive n). lia.
    + intros l nodes nodes' Hs H1 H2.
      destruct l as [|n rest].
      * inversion H1; inversion H2; subst. reflexivity.
      * unfold sizeList in Hs. cbn [fold_right] in Hs.
        pose proof (size_positive n). lia.
  - assert (IHo : forall a a' a'',
               sizeOfOption a <= k ->
               PrunedOption g a a' -> PrunedOption g a a'' -> a' = a'').
    { intros a a' a'' Hs H1 H2.
      inversion H1; subst; inversion H2; subst; [reflexivity|].
      f_equal. eapply IHn; eauto. }
    assert (IHb : forall root r r',
               size root <= S k ->
               PrunedBelow g root r -> PrunedBelow g root r' -> r = r').
    { intros root r r' Hs H1 H2.
      inversion H1; subst; inversion H2; subst; try reflexivity.
      - cbn [size] in Hs. fold (sizeOfOption a) in Hs.
        f_equal; [f_equal; eapply IHn; eauto; lia
                 |eapply IHo; eauto; lia].
      - rewrite size_BlockStatement in Hs.
        f_equal. eapply IHl; eauto. lia.
      - cbn [size] in Hs. do 2 f_equal. eapply IHn; eauto. lia. }
    assert (Hn : forall n p p',
               size n <= S k -> Pruned g n p -> Pruned g n p' -> p = p').
    { intros n p p' Hs H1 H2.
      inversion H1; subst; inversion H2; subst;
        try congruence;
        try (f_equal; eapply IHb; eauto; fail);
        try match goal with
            | Ho : areOpposite g ?t = true, He : areEqual g ?t = true |- _ =>
                apply opposite_not_equal in Ho; congruence
            end.
      - cbn [size] in Hs. f_equal. eapply IHl; eauto.
        pose proof (sizeList_getStatements a). lia.
      - cbn [size] in Hs. f_equal. eapply IHl; eauto.
        pose proof (sizeList_getStatements c). lia. }
    split; [exact Hn|].
    intros l nodes nodes' Hs H1 H2.
    inversion H1; subst; inversion H2; subst; [reflexivity|].
    unfold sizeList in Hs. cbn [fold_right] in Hs.
    fold (sizeList rest) in Hs. pose proof (size_positive node).
    f_equal; [f_equal; eapply Hn; eauto; lia|].
    eapply IHl; eauto. lia.
Qed.

Lemma PrunedBelow_functional :
  forall g root r r',
    PrunedBelow g root r -> PrunedBelow g root r' -> r = r'.
Proof.
  intros g root r r' H1 H2.
  destruct (Pruned_functional_upto g (size root)) as (IHn & IHl).
  inversion H1; subst; inversion H2; subst; try reflexivity.
  - assert (Ec : pc = pc0).
    { apply (IHn c); [cbn [size]; lia|assumption|assumption]. }
    assert (Ea : a' = a'0).
    { match goal with
      | Ha : PrunedOption g a a', Hb : PrunedOption g a a'0 |- _ =>
          inversion Ha; subst; inversion Hb; subst; [reflexivity|]
      end.
      f_equal. apply (IHn node); [cbn [size]; lia|assumption|assumption]. }
    now rewrite Ec, Ea.
  - f_equal. apply (IHl body); [|assumption|assumption].
    rewrite size_BlockStatement. lia.
  - do 2 f_equal.
    apply (IHn body); [cbn [size]; lia|assumption|assumption].
Qed.

Lemma PrunedAlternate_functional :
  forall test a a' a'',
    alternateWithinTheTable test a ->
    PrunedAlternate test a a' -> PrunedAlternate test a a'' -> a' = a''.
Proof.
  intros test a a' a'' Hgov H1 H2.
  destruct a as [root|], a' as [r'|], a'' as [r''|];
    cbn [PrunedAlternate] in *; try tauto.
  destruct H1 as (H1 & N1), H2 as (H2 & N2).
  destruct (nestedIfs root) as [|i rest] eqn:En.
  - now rewrite N1, N2.
  - assert (Hflip : flippable test = true).
    { apply (Hgov root eq_refl). rewrite ?En. discriminate. }
    apply oppositeTest_flippable in Hflip.
    destruct (H1 _ Hflip) as (P1 & _), (H2 _ Hflip) as (P2 & _).
    f_equal. eapply PrunedBelow_functional; eauto.
Qed.

(** *** The pass resolves the first decided [if] it meets *)

Lemma walkList_resolves :
  forall selection (visit : Statement -> Outcome (Walk PathState)) body body',
    (forall n p, In n body -> Resolves selection n p ->
                 visit n = Done {| result := p;
                                   hasChanged := true;
                                   stopped := true |}) ->
    (forall n, In n body -> Outside selection n ->
               visit n = Done (untouched (Still n))) ->
    ResolvesAmong selection body body' ->
    walkList visit body
    = Done {| result := body'; hasChanged := true; stopped := true |}.
Proof.
  intros selection visit. induction body as [|n rest IH];
    intros body' Hres Hout Hr;
    inversion Hr as [n0 rest0 p Hp|n0 rest0 rest' Ho Hrest]; subst.
  - cbn [walkList]. rewrite (Hres n p) by (assumption || now left).
    reflexivity.
  - cbn [walkList]. rewrite (Hout n) by (assumption || now left).
    cbn [bind untouched result stopped hasChanged inList].
    rewrite (IH rest'); [reflexivity| | |assumption].
    + intros m q Hm. apply Hres. now right.
    + intros m Hm. apply Hout. now right.
Qed.

Lemma walkChildren_resolves :
  forall selection (visit : Statement -> Outcome (Walk PathState))
         node node',
    (forall n p, size n < size node -> Resolves selection n p ->
                 visit n = Done {| result := p;
                                   hasChanged := true;
                                   stopped := true |}) ->
    (forall n, size n < size node -> Outside selection n ->
               visit n = Done (untouched (Still n))) ->
    ResolvesIn selection node node' ->
    walkChildren visit node
    = Done {| result := node'; hasChanged := true; stopped := true |}.
Proof.
  intros selection visit node node' Hres Hout Hr.
  inversion Hr as [loc test c a p Hp|loc test c a p Ho Hp
                   |body body' Hb|test body p Hp];
    subst; cbn [walkChildren]; unfold walkSlot.
  - rewrite (Hres c p); [reflexivity|cbn [size]; lia|assumption].
  - rewrite (Hout c); [|cbn [size]; lia|assumption].
    cbn [bind untouched result stopped hasChanged inSlot walkOptionalSlot].
    rewrite (Hres a p); [reflexivity|cbn [size]; lia|assumption].
  - rewrite (@walkList_resolves selection visit body body');
      [reflexivity| | |assumption].
    + intros n p Hn. apply Hres. rewrite size_BlockStatement.
      apply size_In_sizeList in Hn. lia.
    + intros n Hn. apply Hout. rewrite size_BlockStatement.
      apply size_In_sizeList in Hn. lia.
  - rewrite (Hres body p); [reflexivity|cbn [size]; lia|assumption].
Qed.

Lemma Kept_size :
  forall selection node node0,
    Kept selection node node0 -> size node0 <= size node.
Proof.
  intros selection node node0 Hk.
  inversion Hk as [loc test c a Ho|loc test c a c' a' Hi Hf Ht Hg Pc Pa
                   |body|test body]; subst; try lia.
  destruct (@IfStatementVisitor_undecided_any selection
              (size c + sizeOfOption a) loc test c a)
    as (c'' & a'' & changed & _ & Pc' & _ & Pa' & _ & Hs & _);
    try assumption; [lia|].
  rewrite (PrunedBelow_functional Pc Pc').
  rewrite (@PrunedAlternate_functional test a a' a'' Hg Pa Pa').
  cbn [size]. fold (sizeOfOption a) (sizeOfOption a''). lia.
Qed.

Lemma traverseStatement_resolves :
  forall selection fuel node p,
    size node <= fuel ->
    Resolves selection node p ->
    traverseStatement fuel (IfStatementVisitor selection) node
    = Done {| result := p; hasChanged := true; stopped := true |}.
Proof.
  intros selection. induction fuel as [|fuel IH]; intros node p Hfuel Hr.
  - pose proof (size_positive node). lia.
  - inversion Hr as [loc test c a Hi Hf|loc test c a Hi Hf Ht
                     |n node0 node' Hk Hin]; subst.
    + now apply traverseStatement_falsy.
    + now apply traverseStatement_truthy.
    + pose proof (Kept_size Hk) as Hsize.
      assert (Hchildren :
                walkChildren
                  (traverseStatement fuel (IfStatementVisitor selection))
                  node0
                = Done {| result := node';
                          hasChanged := true;
                          stopped := true |}).
      { apply (@walkChildren_resolves selection); [| |assumption].
        - intros n q Hn. apply IH. lia.
        - intros n Hn Ho. apply outside_untouched; [lia|exact Ho]. }
      inversion Hk as [loc test c a Ho|loc test c a c' a' Hi Hf Ht Hg Pc Pa
                       |body|test body]; subst; cbn [traverseStatement].
      * unfold IfStatementVisitor at 1. rewrite Ho.
        cbn [negb bind untouched result stopped hasChanged].
        rewrite Hchildren. reflexivity.
      * destruct (@IfStatementVisitor_undecided_any selection fuel
                    loc test c a)
          as (c'' & a'' & changed & Ev & Pc' & _ & Pa' & _);
          try assumption.
        { cbn [size] in Hfuel. fold (sizeOfOption a) in Hfuel. lia. }
        rewrite Ev. cbn [bind result stopped hasChanged].
        rewrite <- (PrunedBelow_functional Pc Pc'),
          <- (@PrunedAlternate_functional test a a' a'' Hg Pa Pa').
        rewrite Hchildren. cbn [bind result hasChanged stopped].
        now rewrite orb_true_r.
      * rewrite Hchildren. reflexivity.
      * rewrite Hchildren. reflexivity.
Qed.


End RemoveDeadCodeClaims.

(* ================================================================= *)
(** ** Negate expression: the claims *)

Section NegateExpressionClaims.

Import ast Observe NegateExpression.

(** C7: the negation of a logical expression is its De Morgan
    transform under one [!]: [a && b] gives [!(NOT a || NOT b)] and
    [a || b] gives [!(NOT a && NOT b)], where [NOT] is [negateBranch]:
    it goes through nested logical expressions the same way, flips
    the operator of a comparison without adding a [!], and the result
    has exactly one [!] at its top.  The text [negateExpression] hands
    to [readThenWrite] for such a fragment is the printed transform. *)
Theorem negate_logical_is_de_morgan :
  forall loc operator l r,
    negate (LogicalExpression loc operator l r)
    = UnaryExpression loc OpNot
        (LogicalExpression loc (getOppositeLogical operator)
                           (negateBranch l) (negateBranch r))
    /\ getOppositeLogical OpAnd = OpOr
    /\ getOppositeLogical OpOr = OpAnd
    /\ leadingNots (negate (LogicalExpression loc operator l r)) = 1
    /\ printExpression (negate (LogicalExpression loc operator l r))
       = String.append "!("
           (String.append
              (printExpression
                 (LogicalExpression loc (getOppositeLogical operator)
                                    (negateBranch l) (negateBranch r)))
              ")")
    /\ (forall loc' operator' x y,
           negateBranch (LogicalExpression loc' operator' x y)
           = LogicalExpression loc' (getOppositeLogical operator')
                               (negateBranch x) (negateBranch y))
    /\ (forall loc' comparison x y,
           negateBranch (BinaryExpression loc' comparison x y)
           = match getOppositeOperator comparison with
             | Some opposite => BinaryExpression loc' opposite x y
             | None =>
                 UnaryExpression loc' OpNot
                                 (BinaryExpression loc' comparison x y)
             end)
    /\ (forall loc' comparison x y,
           leadingNots (negateBranch (BinaryExpression loc' comparison x y))
           = if isComparison comparison then 0 else 1)
    /\ (forall `{Ast} fragment,
           parse fragment
           = [ExpressionStatement (LogicalExpression loc operator l r)] ->
           negateCode fragment
           = printExpression
               (UnaryExpression loc OpNot
                  (LogicalExpression loc (getOppositeLogical operator)
                                     (negateBranch l) (negateBranch r)))).
Proof.
  intros loc operator l r. repeat split.
  - now destruct operator.
  - intros loc' comparison x y. now destruct comparison.
  - intros HA fragment Hp. unfold negateCode. now rewrite Hp.
Qed.

Lemma negate_logical_is_de_morgan_witness :
  @negateCode Samples.sampleAst "a == b && b == c" = "!(a != b || b != c)".
Proof.
  apply (proj2 (proj2 (proj2 (proj2 (proj2 (proj2 (proj2 (proj2
           (@negate_logical_is_de_morgan
              (mkSelection 0 0 0 16) OpAnd
              (Samples.locate 0 (Samples.binary OpEqual Samples.a_ Samples.b_))
              (Samples.locate 10 (Samples.binary OpEqual Samples.b_ Samples.c_))
           )))))))) Samples.sampleAst "a == b && b == c").
  reflexivity.
Defined.

(** *** Induction on expressions, the arguments of a call included *)

Lemma Expression_induction :
  forall P : Expression -> Prop,
    (forall loc name, P (Identifier loc name)) ->
    (forall loc value, P (BooleanLiteral loc value)) ->
    (forall loc value, P (NumericLiteral loc value)) ->
    (forall loc value, P (StringLiteral loc value)) ->
    (forall loc, P (NullLiteral loc)) ->
    (forall loc operator argument,
        P argument -> P (UnaryExpression loc operator argument)) ->
    (forall loc operator l r,
        P l -> P r -> P (BinaryExpression loc operator l r)) ->
    (forall loc operator l r,
        P l -> P r -> P (LogicalExpression loc operator l r)) ->
    (forall loc object property,
        P object -> P (MemberExpression loc object property)) ->
    (forall loc callee arguments,
        P callee -> Forall P arguments ->
        P (CallExpression loc callee arguments)) ->
    forall e, P e.
Proof.
  intros P Hid Hbool Hnum Hstr Hnull Hun Hbin Hlog Hmem Hcall.
  fix IH 1.
  intros [loc name|loc value|loc value|loc value|loc
         |loc operator argument|loc operator l r|loc operator l r
         |loc object property|loc callee arguments].
  - apply Hid.
  - apply Hbool.
  - apply Hnum.
  - apply Hstr.
  - apply Hnull.
  - apply Hun, IH.
  - apply Hbin; apply IH.
  - apply Hlog; apply IH.
  - apply Hmem, IH.
  - apply Hcall; [apply IH|].
    revert arguments. fix all 1.
    intros [|a rest]; constructor; [apply IH|apply all].
Qed.

Lemma orElse_None :
  forall (A : Type) (x y : option A),
    orElse x y = None <-> x = None /\ y = None.
Proof. intros A [a|] y; cbn; split; [discriminate|intros [[=] _]| |]; tauto. Qed.

Lemma orElse_Some :
  forall (A : Type) (x y : option A) a,
    orElse x y = Some a -> x = Some a \/ (x = None /\ y = Some a).
Proof. intros A [b|] y a; cbn; auto. Qed.

Lemma widenTo_None :
  forall whole operand found,
    widenTo whole operand found = None <-> found = None.
Proof. intros whole operand [t|]; cbn; split; congruence. Qed.

(** An identifier holds no negatable expression but itself. *)
Lemma negatableIn_identifier :
  forall e,
    isBooleanIdentifier e = true ->
    negatableIn false e = [] /\ negatableIn true e = [e].
Proof.
  induction e using Expression_induction; cbn; try discriminate.
  - now split.
  - intros Hp. destruct (IHe Hp) as (-> & _). now split.
Qed.

Section Targets.

Variable selection : Selection.

(** The search finds nothing exactly when no negatable expression
    contains the selection. *)
Lemma findNegatable_None_iff :
  forall e boolean,
    findNegatable boolean selection e = None
    <-> forall c, In c (negatableIn boolean e) ->
                  isInside selection (locOf c) = false.
Proof.
  induction e as [loc name|loc value|loc value|loc value|loc
                 |loc operator argument IHa|loc operator l r IHl IHr
                 |loc operator l r IHl IHr|loc object property IHo
                 |loc callee arguments IHc IHs]
    using Expression_induction; intros boolean;
    cbn [findNegatable negatableIn locOf];
    try (split; [intros _ c []|reflexivity]).
  - destruct boolean; cbn [andb].
    + destruct (isInside selection loc) eqn:Ei.
      * split; [discriminate|]. intros Hall.
        specialize (Hall _ (or_introl eq_refl)). cbn in Hall. congruence.
      * split; [|reflexivity]. intros _ c [<-|[]]. exact Ei.
    + split; [intros _ c []|reflexivity].
  - destruct operator;
      try (rewrite IHa; tauto).
    destruct (isInside selection loc) eqn:Ei.
    + split; [discriminate|]. intros Hall.
      specialize (Hall _ (or_introl eq_refl)). cbn in Hall. congruence.
    + split; [|reflexivity]. intros _ c [<-|[]]. exact Ei.
  - rewrite !orElse_None, IHl, IHr. split.
    + intros (Hl & Hr & Hs) c Hc.
      apply in_app_or in Hc as [Hc|Hc]; [now apply Hl|].
      apply in_app_or in Hc as [Hc|Hc]; [now apply Hr|].
      destruct (isComparison operator); [|destruct Hc].
      destruct Hc as [<-|[]]. cbn [andb locOf] in *.
      now destruct (isInside selection loc).
    + intros Hall. split; [|split].
      * intros c Hc. apply Hall. apply in_or_app. now left.
      * intros c Hc. apply Hall. apply in_or_app. right.
        apply in_or_app. now left.
      * destruct (isComparison operator); [|reflexivity].
        cbn [andb]. destruct (isInside selection loc) eqn:Ei; [|reflexivity].
        assert (Hin : In (BinaryExpression loc operator l r)
                         (negatableIn false l ++ negatableIn false r
                          ++ [BinaryExpression loc operator l r])).
        { apply in_or_app. right. apply in_or_app. right. now left. }
        specialize (Hall _ Hin). cbn in Hall. congruence.
  - rewrite !orElse_None, !widenTo_None, IHl, IHr. split.
    + intros (Hl & Hr & Hs) c Hc.
      apply in_app_or in Hc as [Hc|Hc]; [now apply Hl|].
      apply in_app_or in Hc as [Hc|Hc]; [now apply Hr|].
      destruct Hc as [<-|[]]. cbn [locOf].
      now destruct (isInside selection loc).
    + intros Hall. split; [|split].
      * intros c Hc. apply Hall. apply in_or_app. now left.
      * intros c Hc. apply Hall. apply in_or_app. right.
        apply in_or_app. now left.
      * destruct (isInside selection loc) eqn:Ei; [|reflexivity].
        assert (Hin : In (LogicalExpression loc operator l r)
                         (negatableIn true l ++ negatableIn true r
                          ++ [LogicalExpression loc operator l r])).
        { apply in_or_app. right. apply in_or_app. right. now left. }
        specialize (Hall _ Hin). cbn in Hall. congruence.
  - rewrite orElse_None, IHo. split.
    + intros (Ho & Hs) c Hc.
      apply in_app_or in Hc as [Hc|Hc]; [now apply Ho|].
      destruct boolean; [|destruct Hc].
      destruct Hc as [<-|[]]. cbn [andb locOf] in *.
      now destruct (isInside selection loc).
    + intros Hall. split.
      * intros c Hc. apply Hall. apply in_or_app. now left.
      * destruct boolean; [|reflexivity]. cbn [andb].
        destruct (isInside selection loc) eqn:Ei; [|reflexivity].
        assert (Hin : In (MemberExpression loc object property)
                         (negatableIn false object
                          ++ [MemberExpression loc object property])).
        { apply in_or_app. right. now left. }
        specialize (Hall _ Hin). cbn in Hall. congruence.
  - rewrite orElse_None, IHc.
    assert (Hargs :
              (fix first (l : list Expression) : option Expression :=
                 match l with
                 | [] => None
                 | a :: rest =>
                     orElse (findNegatable false selection a) (first rest)
                 end) arguments = None
              <-> forall c, In c (flat_map (negatableIn false) arguments) ->
                            isInside selection (locOf c) = false).
    { induction IHs as [|a rest Ha _ IH]; cbn [flat_map].
      - split; [intros _ c []|reflexivity].
      - rewrite orElse_None, Ha, IH. split.
        + intros (H1 & H2) c Hc.
          apply in_app_or in Hc as [Hc|Hc]; [now apply H1|now apply H2].
        + intros Hall. split; intros c Hc; apply Hall; apply in_or_app;
            [now left|now right]. }
    rewrite Hargs. split.
    + intros (H1 & H2) c Hc.
      apply in_app_or in Hc as [Hc|Hc]; [now apply H1|now apply H2].
    + intros Hall. split; intros c Hc; apply Hall; apply in_or_app;
        [now left|now right].
Qed.

(** What the search finds is one of the negatable expressions. *)
Lemma findNegatable_Some :
  forall e boolean target,
    findNegatable boolean selection e = Some target ->
    In target (negatableIn boolean e).
Proof.
  induction e as [loc name|loc value|loc value|loc value|loc
                 |loc operator argument IHa|loc operator l r IHl IHr
                 |loc operator l r IHl IHr|loc object property IHo
                 |loc callee arguments IHc IHs]
    using Expression_induction; intros boolean target;
    cbn [findNegatable negatableIn locOf]; try discriminate.
  - destruct boolean; cbn [andb]; [|discriminate].
    destruct (isInside selection loc); [|discriminate].
    intros [= <-]. now left.
  - destruct operator; try apply IHa.
    destruct (isInside selection loc); [|discriminate].
    intros [= <-]. now left.
  - intros Hf. apply in_or_app.
    apply orElse_Some in Hf as [Hf|(_ & Hf)]; [left; now apply IHl|right].
    apply in_or_app.
    apply orElse_Some in Hf as [Hf|(_ & Hf)]; [left; now apply IHr|right].
    destruct (isComparison operator); [|discriminate]. cbn [andb] in Hf.
    destruct (isInside selection loc); [|discriminate].
    injection Hf as <-. now left.
  - intros Hf.
    assert (Hwhole : In (LogicalExpression loc operator l r)
                        (negatableIn true l ++ negatableIn true r
                         ++ [LogicalExpression loc operator l r])).
    { apply in_or_app. right. apply in_or_app. right. now left. }
    apply orElse_Some in Hf as [Hf|(_ & Hf)].
    { destruct (findNegatable true selection l) as [t|] eqn:El;
        [|discriminate].
      cbn [widenTo] in Hf. injection Hf as <-.
      destruct (isBooleanIdentifier l || isNegatedIdentifier l);
        [exact Hwhole|].
      apply in_or_app. left. now apply IHl. }
    apply orElse_Some in Hf as [Hf|(_ & Hf)].
    { destruct (findNegatable true selection r) as [t|] eqn:Er;
        [|discriminate].
      cbn [widenTo] in Hf. injection Hf as <-.
      destruct (isBooleanIdentifier r || isNegatedIdentifier r);
        [exact Hwhole|].
      apply in_or_app. right. apply in_or_app. left. now apply IHr. }
    destruct (isInside selection loc); [|discriminate].
    injection Hf as <-. exact Hwhole.
  - intros Hf. apply in_or_app.
    apply orElse_Some in Hf as [Hf|(_ & Hf)]; [left; now apply IHo|right].
    destruct boolean; [|discriminate]. cbn [andb] in Hf.
    destruct (isInside selection loc); [|discriminate].
    injection Hf as <-. now left.
  - intros Hf. apply in_or_app.
    apply orElse_Some in Hf as [Hf|(_ & Hf)]; [left; now apply IHc|right].
    revert Hf. induction IHs as [|a rest Ha _ IH]; cbn [flat_map];
      [discriminate|].
    intros Hf. apply in_or_app.
    apply orElse_Some in Hf as [Hf|(_ & Hf)]; [left; now apply Ha|right].
    now apply IH.
Qed.

(** *** Induction on statements, the body of a block included *)

Lemma Statement_induction :
  forall P : Statement -> Prop,
    (forall loc test c a,
        P c -> (forall x, a = Some x -> P x) ->
        P (IfStatement loc test c a)) ->
    (forall body, Forall P body -> P (BlockStatement body)) ->
    (forall e, P (ExpressionStatement e)) ->
    (forall test body, P body -> P (WhileStatement test body)) ->
    (forall argument, P (ReturnStatement argument)) ->
    forall s, P s.
Proof.
  intros P Hif Hblock Hexpr Hwhile Hret.
  fix IH 1.
  intros [loc test c a|body|e|test body|argument].
  - apply Hif; [apply IH|].
    destruct a as [x|]; intros y [=]. subst y. apply IH.
  - apply Hblock. revert body. fix all 1.
    intros [|n rest]; constructor; [apply IH|apply all].
  - apply Hexpr.
  - apply Hwhile, IH.
  - apply Hret.
Qed.

Lemma findInStatement_None_iff :
  forall s,
    findInStatement selection s = None
    <-> forall c, In c (negatableInStatement s) ->
                  isInside selection (locOf c) = false.
Proof.
  induction s as [loc test c a IHc IHa|body IHb|e|test body IHb|argument]
    using Statement_induction;
    cbn [findInStatement negatableInStatement].
  - rewrite !orElse_None, findNegatable_None_iff, IHc.
    assert (Ha : match a with
                 | Some x => findInStatement selection x
                 | None => None
                 end = None
                 <-> forall c0,
                     In c0 match a with
                           | Some x => negatableInStatement x
                           | None => []
                           end ->
                     isInside selection (locOf c0) = false).
    { destruct a as [x|]; [now apply IHa|].
      split; [intros _ c0 []|reflexivity]. }
    rewrite Ha. split.
    + intros (H1 & H2 & H3) c0 Hc.
      apply in_app_or in Hc as [Hc|Hc]; [now apply H1|].
      apply in_app_or in Hc as [Hc|Hc]; [now apply H2|now apply H3].
    + intros Hall. split; [|split]; intros c0 Hc; apply Hall;
        apply in_or_app; [now left|right; apply in_or_app; now left
                         |right; apply in_or_app; now right].
  - induction IHb as [|n rest Hn _ IH].
    + split; [intros _ c []|reflexivity].
    + rewrite orElse_None, Hn, IH. split.
      * intros (H1 & H2) c Hc.
        apply in_app_or in Hc as [Hc|Hc]; [now apply H1|now apply H2].
      * intros Hall. split; intros c Hc; apply Hall; apply in_or_app;
          [now left|now right].
  - apply findNegatable_None_iff.
  - rewrite orElse_None, findNegatable_None_iff, IHb. split.
    + intros (H1 & H2) c Hc.
      apply in_app_or in Hc as [Hc|Hc]; [now apply H1|now apply H2].
    + intros Hall. split; intros c Hc; apply Hall; apply in_or_app;
        [now left|now right].
  - destruct argument as [e|]; [apply findNegatable_None_iff|].
    split; [intros _ c []|reflexivity].
Qed.

Lemma findInStatement_Some :
  forall s target,
    findInStatement selection s = Some target ->
    In target (negatableInStatement s).
Proof.
  induction s as [loc test c a IHc IHa|body IHb|e|test body IHb|argument]
    using Statement_induction; intros target;
    cbn [findInStatement negatableInStatement].
  - intros Hf. apply in_or_app.
    apply orElse_Some in Hf as [Hf|(_ & Hf)];
      [left; now apply findNegatable_Some|right].
    apply in_or_app.
    apply orElse_Some in Hf as [Hf|(_ & Hf)]; [left; now apply IHc|right].
    destruct a as [x|]; [now apply (IHa x)|discriminate].
  - induction IHb as [|n rest Hn _ IH]; [discriminate|].
    intros Hf. apply in_or_app.
    apply orElse_Some in Hf as [Hf|(_ & Hf)]; [left; now apply Hn|right].
    now apply IH.
  - apply findNegatable_Some.
  - intros Hf. apply in_or_app.
    apply orElse_Some in Hf as [Hf|(_ & Hf)];
      [left; now apply findNegatable_Some|right; now apply IHb].
  - destruct argument as [e|]; [apply findNegatable_Some|discriminate].
Qed.

Lemma findInProgram_None_iff :
  forall program,
    findInProgram selection program = None
    <-> forall c, In c (negatableExpressions program) ->
                  isInside selection (locOf c) = false.
Proof.
  unfold negatableExpressions.
  induction program as [|s rest IH]; cbn [findInProgram flat_map].
  - split; [intros _ c []|reflexivity].
  - rewrite orElse_None, findInStatement_None_iff, IH. split.
    + intros (H1 & H2) c Hc.
      apply in_app_or in Hc as [Hc|Hc]; [now apply H1|now apply H2].
    + intros Hall. split; intros c Hc; apply Hall; apply in_or_app;
        [now left|now right].
Qed.

Lemma findInProgram_Some :
  forall program target,
    findInProgram selection program = Some target ->
    In target (negatableExpressions program).
Proof.
  unfold negatableExpressions.
  induction program as [|s rest IH]; intros target;
    cbn [findInProgram flat_map]; [discriminate|].
  intros Hf. apply in_or_app.
  apply orElse_Some in Hf as [Hf|(_ & Hf)];
    [left; now apply findInStatement_Some|right; now apply IH].
Qed.

End Targets.

Lemma findNegatable_logical :
  forall boolean selection loc operator l r,
    findNegatable boolean selection (LogicalExpression loc operator l r)
    = orElse (widenTo (LogicalExpression loc operator l r) l
                      (findNegatable true selection l))
        (orElse (widenTo (LogicalExpression loc operator l r) r
                         (findNegatable true selection r))
                (if isInside selection loc
                 then Some (LogicalExpression loc operator l r)
                 else None)).
Proof. reflexivity. Qed.

(** C8: in a logical expression, wherever it stands, a cursor on an
    operand that is an identifier or a negated identifier resolves to
    the whole logical expression; a cursor within an operand that is
    a comparison resolves to that operand, left or right, unless a
    negatable expression inside the operand contains it; a cursor on
    the operator, in the logical expression and in no negatable
    expression of its operands, resolves to the whole expression.
    The right operand is reached when no negatable expression of the
    left one contains the selection.  In [if (a == b || b == c) {}]
    the cursor at character 12 resolves to columns 4 to 20, the whole
    logical expression.  When the logical expression is the test of
    the first statement of the code, the target so resolved is the
    one [negateExpression] hands to [readThenWrite]. *)
Theorem target_of_a_logical_expression :
  forall boolean selection loc operator l r,
    (forall lloc name,
        l = Identifier lloc name ->
        isInside selection lloc = true ->
        findNegatable boolean selection (LogicalExpression loc operator l r)
        = Some (LogicalExpression loc operator l r))
    /\ (forall lloc iloc name,
           l = UnaryExpression lloc OpNot (Identifier iloc name) ->
           isInside selection lloc = true ->
           findNegatable boolean selection
                         (LogicalExpression loc operator l r)
           = Some (LogicalExpression loc operator l r))
    /\ (forall lloc comparison x y,
           l = BinaryExpression lloc comparison x y ->
           isComparison comparison = true ->
           isInside selection lloc = true ->
           (forall c, In c (negatableIn false x ++ negatableIn false y) ->
                      isInside selection (locOf c) = false) ->
           findNegatable boolean selection
                         (LogicalExpression loc operator l r)
           = Some l)
    /\ ((forall c, In c (negatableIn true l) ->
                   isInside selection (locOf c) = false) ->
        (forall rloc name,
            r = Identifier rloc name ->
            isInside selection rloc = true ->
            findNegatable boolean selection
                          (LogicalExpression loc operator l r)
            = Some (LogicalExpression loc operator l r))
        /\ (forall rloc iloc name,
               r = UnaryExpression rloc OpNot (Identifier iloc name) ->
               isInside selection rloc = true ->
               findNegatable boolean selection
                             (LogicalExpression loc operator l r)
               = Some (LogicalExpression loc operator l r))
        /\ (forall rloc comparison x y,
               r = BinaryExpression rloc comparison x y ->
               isComparison comparison = true ->
               isInside selection rloc = true ->
               (forall c, In c (negatableIn false x ++ negatableIn false y)
                          -> isInside selection (locOf c) = false) ->
               findNegatable boolean selection
                             (LogicalExpression loc operator l r)
               = Some r)
        /\ ((forall c, In c (negatableIn true r) ->
                       isInside selection (locOf c) = false) ->
            isInside selection loc = true ->
            findNegatable boolean selection
                          (LogicalExpression loc operator l r)
            = Some (LogicalExpression loc operator l r)))
    /\ (forall `{Ast} code ifLoc consequent alternate rest target,
           parse code
           = IfStatement ifLoc (LogicalExpression loc operator l r)
                         consequent alternate :: rest ->
           findNegatable true selection (LogicalExpression loc operator l r)
           = Some target ->
           findNegatableExpression code selection = Some target
           /\ forall recorder : Recorder,
               negateExpression code selection recorder
               = record
                   (CalledReadThenWrite
                      (locOf target)
                      [Build_Modification (negateCode (fragment recorder))
                                          (locOf target)])
                   recorder)
    /\ option_map locOf
         (@findNegatableExpression Samples.sampleAst
            "if (a == b || b == c) {}" (cursorAt 0 12))
       = Some (mkSelection 0 4 0 20).
Proof.
  intros boolean selection loc operator l r.
  assert (Hcode : forall `{Ast} code ifLoc consequent alternate rest target,
             parse code
             = IfStatement ifLoc (LogicalExpression loc operator l r)
                           consequent alternate :: rest ->
             findNegatable true selection
                           (LogicalExpression loc operator l r)
             = Some target ->
             findNegatableExpression code selection = Some target
             /\ forall recorder : Recorder,
                 negateExpression code selection recorder
                 = record
                     (CalledReadThenWrite
                        (locOf target)
                        [Build_Modification
                           (negateCode (fragment recorder))
                           (locOf target)])
                     recorder).
  { intros HA code ifLoc consequent alternate rest target Hparse Hfound.
    assert (Hf : findNegatableExpression code selection = Some target).
    { unfold findNegatableExpression. rewrite Hparse.
      cbn [findInProgram findInStatement]. now rewrite Hfound. }
    split; [exact Hf|]. intros recorder.
    unfold negateExpression. now rewrite Hf. }
  assert (Hcomparison : forall cloc comparison x y,
             isComparison comparison = true ->
             isInside selection cloc = true ->
             (forall c, In c (negatableIn false x ++ negatableIn false y) ->
                        isInside selection (locOf c) = false) ->
             findNegatable true selection
                           (BinaryExpression cloc comparison x y)
             = Some (BinaryExpression cloc comparison x y)).
  { intros cloc comparison x y Hc Hi Hnone.
    cbn [findNegatable locOf].
    rewrite (proj2 (findNegatable_None_iff selection x false))
      by (intros c Hin; apply Hnone, in_or_app; now left).
    rewrite (proj2 (findNegatable_None_iff selection y false))
      by (intros c Hin; apply Hnone, in_or_app; now right).
    now rewrite Hc, Hi. }
  split; [|split; [|split; [|split; [|split; [exact Hcode|]]]]];
    try rewrite findNegatable_logical.
  - intros lloc name -> Hi. cbn [findNegatable locOf andb].
    now rewrite Hi.
  - intros lloc iloc name -> Hi. cbn [findNegatable locOf].
    now rewrite Hi.
  - intros lloc comparison x y -> Hc Hi Hnone.
    now rewrite (Hcomparison lloc comparison x y Hc Hi Hnone).
  - intros Hleft.
    apply (findNegatable_None_iff selection l true) in Hleft.
    rewrite Hleft. cbn [widenTo orElse].
    split; [|split; [|split]].
    + intros rloc name -> Hi. cbn [findNegatable locOf andb].
      now rewrite Hi.
    + intros rloc iloc name -> Hi. cbn [findNegatable locOf].
      now rewrite Hi.
    + intros rloc comparison x y -> Hc Hi Hnone.
      now rewrite (Hcomparison rloc comparison x y Hc Hi Hnone).
    + intros Hright Hi.
      apply (findNegatable_None_iff selection r true) in Hright.
      now rewrite Hright, Hi.
  - reflexivity.
Qed.

(** C9: [negateExpression] makes exactly one call.  When no negatable
    expression of the code contains the selection it is [showError]
    with [DidNotFoundNegatableExpression], and no edit is made: the
    document of the VS Code adapter is left as it was.  When one does,
    it is one [readThenWrite] of one modification, at the range of
    one of the negatable expressions of the code, and no error is
    shown. *)
Theorem negateExpression_edits_once_or_reports_once :
  forall `{Ast} code selection,
    ((forall e, In e (negatableExpressions (parse code)) ->
                isInside selection (locOf e) = false) ->
     findNegatableExpression code selection = None
     /\ (forall r : Recorder,
            negateExpression code selection r
            = record (CalledShowError DidNotFoundNegatableExpression) r)
     /\ (forall errorReasonToString (ed : VSCodeEditor.t),
            @negateExpression _ _
               (VSCodeEditor.asEditor errorReasonToString)
               code selection ed
            = VSCodeEditor.showError errorReasonToString
                                     DidNotFoundNegatableExpression ed
            /\ VSCodeEditor.document
                 (@negateExpression _ _
                    (VSCodeEditor.asEditor errorReasonToString)
                    code selection ed)
               = VSCodeEditor.document ed))
    /\ (forall e,
           In e (negatableExpressions (parse code)) ->
           isInside selection (locOf e) = true ->
           exists target,
             In target (negatableExpressions (parse code))
             /\ findNegatableExpression code selection = Some target
             /\ (forall r : Recorder,
                    negateExpression code selection r
                    = record
                        (CalledReadThenWrite
                           (locOf target)
                           [Build_Modification (negateCode (fragment r))
                                               (locOf target)])
                        r)
             /\ (forall errorReasonToString (ed : VSCodeEditor.t),
                    VSCodeEditor.errorMessages
                      (@negateExpression _ _
                         (VSCodeEditor.asEditor errorReasonToString)
                         code selection ed)
                    = VSCodeEditor.errorMessages ed)).
Proof.
  intros HA code selection. split.
  - intros Hnone.
    assert (Hf : findNegatableExpression code selection = None)
      by now apply findInProgram_None_iff.
    split; [exact Hf|].
    unfold negateExpression. rewrite Hf. now repeat split.
  - intros e Hin Hi.
    destruct (findNegatableExpression code selection) as [target|] eqn:Hf.
    + exists target. split; [now apply (findInProgram_Some selection)|].
      split; [reflexivity|].
      unfold negateExpression. rewrite Hf. now split.
    + pose proof (proj1 (findInProgram_None_iff selection (parse code))
                        Hf e Hin) as Ho.
      congruence.
Qed.

End NegateExpressionClaims.

(* ================================================================= *)
(** ** The tests of negate-expression, replayed *)

Section NegateExpressionTests.

Import ast Observe NegateExpression Samples.

Example should_negate :
  Forall (fun t =>
            let '(expression, selection, expected) := t in
            doNegateExpression expression selection
            = updatesWith expression expected)
         shouldNegate.
Proof. repeat constructor. Qed.

Example should_select_expression :
  Forall (fun selection =>
            readThenWriteSelections (doNegateExpression "a == b" selection)
            = [mkSelection 0 4 0 10])
         [mkSelection 0 4 0 10; cursorAt 0 4; cursorAt 0 7; cursorAt 0 9].
Proof. repeat constructor. Qed.

Example should_negate_one_side_or_the_whole :
  readThenWriteSelections
    (doNegateExpression "a == b || b == c" (cursorAt 0 6))
  = [mkSelection 0 4 0 10]
  /\ readThenWriteSelections
       (doNegateExpression "a == b || b == c" (cursorAt 0 15))
     = [mkSelection 0 14 0 20]
  /\ readThenWriteSelections
       (doNegateExpression "isValid || b == c" (cursorAt 0 6))
     = [mkSelection 0 4 0 21]
  /\ readThenWriteSelections
       (doNegateExpression "!isValid || b == c" (cursorAt 0 6))
     = [mkSelection 0 4 0 22].
Proof. repeat split. Qed.

Example finding_negatable_expression :
  findNegatableExpression "if (a > b) {}" (cursorAt 0 4) <> None
  /\ findNegatable false (cursorAt 0 13) (locate 9 concatenation) = None.
Proof. split; [discriminate|reflexivity]. Qed.

(** Section 4.3, steps 1 and 3: an identifier that is the test of an
    [if] is a target of its own, [x] gives [!x] and [!x] gives [x]. *)
Example should_negate_an_identifier :
  doNegateExpression "isValid" (cursorAt 0 6)
  = updatesWith "isValid" "!isValid"
  /\ doNegateExpression "!isValid" (cursorAt 0 6)
     = updatesWith "!isValid" "isValid".
Proof. split; reflexivity. Qed.

(** The rewrite keeps the truth value: negating twice gives back a
    comparison. *)
Example negate_twice_comparison :
  forall loc operator x y,
    isComparison operator = true ->
    negate (negate (BinaryExpression loc operator x y))
    = BinaryExpression loc operator x y.
Proof. intros loc operator x y Hc. destruct operator; now try discriminate. Qed.

Lemma target_of_a_logical_expression_witness :
  findNegatable true (cursorAt 0 6) (locate 4 identifierOrComparison)
  = Some (locate 4 identifierOrComparison)
  /\ findNegatable true (cursorAt 0 6)
                   (locate 4 negatedIdentifierOrComparison)
     = Some (locate 4 negatedIdentifierOrComparison)
  /\ findNegatable true (cursorAt 0 6) (locate 4 logicalOr)
     = Some (locate 4 (binary OpEqual a_ b_))
  /\ (forall c, In c (negatableIn true (locate 4 (binary OpEqual a_ b_))) ->
                isInside (cursorAt 0 15) (locOf c) = false)
  /\ findNegatable true (cursorAt 0 15) (locate 4 logicalOr)
     = Some (locate 14 (binary OpEqual b_ c_))
  /\ findNegatable true (cursorAt 0 12) (locate 4 logicalOr)
     = Some (locate 4 logicalOr).
Proof.
  assert (Hleft : forall cursor,
             cursor = cursorAt 0 15 \/ cursor = cursorAt 0 12 ->
             forall c,
               In c (negatableIn true (locate 4 (binary OpEqual a_ b_))) ->
               isInside cursor (locOf c) = false).
  { intros cursor Hcursor c Hc. vm_compute in Hc.
    destruct Hc as [<-|[]]. now destruct Hcursor as [->| ->]. }
  split; [|split; [|split; [|split; [|split]]]].
  - exact (proj1 (@target_of_a_logical_expression
                    true (cursorAt 0 6) (mkSelection 0 4 0 21) OpOr
                    (locate 4 isValid_)
                    (locate 15 (binary OpEqual b_ c_)))
                 (mkSelection 0 4 0 11) "isValid" eq_refl eq_refl).
  - exact (proj1 (proj2 (@target_of_a_logical_expression
                           true (cursorAt 0 6) (mkSelection 0 4 0 22) OpOr
                           (locate 4 (not_ isValid_))
                           (locate 16 (binary OpEqual b_ c_))))
                 (mkSelection 0 4 0 12) (mkSelection 0 5 0 12) "isValid"
                 eq_refl eq_refl).
  - refine (proj1 (proj2 (proj2 (@target_of_a_logical_expression
                           true (cursorAt 0 6) (mkSelection 0 4 0 20) OpOr
                           (locate 4 (binary OpEqual a_ b_))
                           (locate 14 (binary OpEqual b_ c_)))))
                 (mkSelection 0 4 0 10) OpEqual
                 (locate 4 a_) (locate 9 b_) eq_refl eq_refl eq_refl _).
    intros c [].
  - exact (Hleft _ (or_introl eq_refl)).
  - refine (proj1 (proj2 (proj2
              (proj1 (proj2 (proj2 (proj2
                 (@target_of_a_logical_expression
                    true (cursorAt 0 15) (mkSelection 0 4 0 20) OpOr
                    (locate 4 (binary OpEqual a_ b_))
                    (locate 14 (binary OpEqual b_ c_))))))
                 (Hleft _ (or_introl eq_refl)))))
              (mkSelection 0 14 0 20) OpEqual
              (locate 14 b_) (locate 19 c_) eq_refl eq_refl eq_refl _).
    intros c [].
  - refine (proj2 (proj2 (proj2
              (proj1 (proj2 (proj2 (proj2
                 (@target_of_a_logical_expression
                    true (cursorAt 0 12) (mkSelection 0 4 0 20) OpOr
                    (locate 4 (binary OpEqual a_ b_))
                    (locate 14 (binary OpEqual b_ c_))))))
                 (Hleft _ (or_intror eq_refl)))))
              _ eq_refl).
    intros c Hc. vm_compute in Hc. destruct Hc as [<-|[]]. reflexivity.
Defined.

Lemma negateExpression_edits_once_or_reports_once_witness :
  (forall e, In e (negatableExpressions (parse nothingToNegateCode)) ->
             isInside (cursorAt 0 0) (locOf e) = false)
  /\ calls (negateExpression nothingToNegateCode (cursorAt 0 0)
                             emptyRecorder)
     = [CalledShowError DidNotFoundNegatableExpression]
  /\ In (locate 4 (binary OpEqual a_ b_))
        (negatableExpressions (parse "if (a == b) {}"))
  /\ exists target,
      findNegatableExpression "if (a == b) {}" (cursorAt 0 7)
      = Some target
      /\ calls (negateExpression "if (a == b) {}" (cursorAt 0 7)
                                 {| fragment := "a == b"; calls := [] |})
         = [CalledReadThenWrite
              (locOf target)
              [Build_Modification
                 (negateCode "a == b") (locOf target)]].
Proof.
  assert (Hnone : forall e,
             In e (negatableExpressions (parse nothingToNegateCode)) ->
             isInside (cursorAt 0 0) (locOf e) = false)
    by (intros e He; vm_compute in He; destruct He).
  assert (Hin : In (locate 4 (binary OpEqual a_ b_))
                   (negatableExpressions (parse "if (a == b) {}")))
    by (now left).
  split; [exact Hnone|]. split; [|split; [exact Hin|]].
  - now rewrite (proj1 (proj2
                   (proj1 (@negateExpression_edits_once_or_reports_once
                             sampleAst nothingToNegateCode (cursorAt 0 0))
                          Hnone))
                   emptyRecorder).
  - destruct (proj2 (@negateExpression_edits_once_or_reports_once
                       sampleAst "if (a == b) {}" (cursorAt 0 7))
                    _ Hin eq_refl)
      as (target & _ & Hf & Hcalls & _).
    exists target. split; [exact Hf|]. now rewrite Hcalls.
Defined.

End NegateExpressionTests.

(* ================================================================= *)
(** ** Remove dead code on the sample programs *)

Section RemoveDeadCodeSamples.

Import ast Observe Pruning Invariants Governing Resolution RemoveDeadCode
       Samples.

(** C2, refuted as stated: in [if (a + b) {} else { if (c) { f(); } }]
    with the cursor on the outer test, the test is a binary expression
    that is not statically decided, a nested [if] sits in the
    alternate, and [getOppositeOperator] is handed [+], for which its
    table has no entry. *)
Lemma getOppositeOperator_receives_plus :
  isFalsy (binary OpPlus a_ b_) = false
  /\ isTruthy (binary OpPlus a_ b_) = false
  /\ isBinaryExpression (binary OpPlus a_ b_) = true
  /\ isComparison OpPlus = false
  /\ getOppositeOperator OpPlus = None
  /\ updateProgram arithmeticTest (cursorAt 0 5) = OutOfTable OpPlus
  /\ removeDeadCode (printProgram arithmeticTest) (cursorAt 0 5)
                    emptyRecorder
     = OutOfTable OpPlus.
Proof. repeat split. Qed.

(** C4, refuted as stated: in
    [if (a == b) { f(); } else if (a != b) { g(); } else { h(); }]
    with the cursor on the outer test, the [else if] is an [if]
    inside the alternate whose test equals the negated outer test,
    and it is not replaced by its consequent: the pass examines the
    [if] statements below a branch, not the branch itself, and
    [removeDeadCode] reports that it found no dead code. *)
Lemma else_if_is_not_examined :
  parse (printProgram elseIfChain) = elseIfChain
  /\ isInside (cursorAt 0 5) (mkSelection 0 0 0 60) = true
  /\ isFalsy (binary OpEqual a_ b_) = false
  /\ isTruthy (binary OpEqual a_ b_) = false
  /\ oppositeTest (binary OpEqual a_ b_) = Done (binary OpNotEqual a_ b_)
  /\ areEqual (binary OpNotEqual a_ b_) (binary OpNotEqual a_ b_) = true
  /\ updateProgram elseIfChain (cursorAt 0 5)
     = Done (untouched elseIfChain)
  /\ hasDeadCode (printProgram elseIfChain) (cursorAt 0 5) = Done false
  /\ removeDeadCode (printProgram elseIfChain) (cursorAt 0 5)
                    emptyRecorder
     = Done (showError DidNotFoundDeadCode emptyRecorder).
Proof. repeat split. Qed.

(** The consequent is pruned whatever the outer test is: in
    [if (a + b) { if (a + b) { f(); } }] the nested [if] gives way to
    its consequent. *)
Example arithmetic_test_prunes_its_consequent :
  flippable (binary OpPlus a_ b_) = false
  /\ removeDeadCode (printProgram arithmeticConsequent) (cursorAt 0 5)
                    emptyRecorder
     = Done (write "if (a + b) { f(); }" None emptyRecorder).
Proof. repeat split. Qed.

Lemma removeDeadCode_completes_within_the_table_witness :
  exists updatedCode,
    updateCode nestedCode (cursorAt 0 5) = Done updatedCode
    /\ removeDeadCode nestedCode (cursorAt 0 5) emptyRecorder
       = Done (if hasCodeChanged updatedCode
               then write (ast.code updatedCode) None emptyRecorder
               else showError DidNotFoundDeadCode emptyRecorder).
Proof.
  apply (proj1 (proj2 (proj2
           (@removeDeadCode_completes_within_the_table
              sampleAst Recorder _ emptyRecorder nestedCode
              (cursorAt 0 5))))).
  intros i Hi. vm_compute in Hi.
  destruct Hi as [<-|[<-|[<-|[]]]]; reflexivity.
Defined.

Lemma hasDeadCode_iff_removeDeadCode_writes_witness :
  updateCode nestedCode (cursorAt 0 5)
  = Done {| ast.code := "if (a == b) { g(); } else { h(); }";
            hasCodeChanged := true |}
  /\ (true = true
      <-> [ifAt 0 80 (binary OpEqual a_ b_)
                (BlockStatement [call "g"])
                (Some (BlockStatement [call "h"]))]
          <> parse nestedCode).
Proof.
  apply (proj2 (proj2 (proj2
           (@hasDeadCode_iff_removeDeadCode_writes
              sampleAst nestedCode (cursorAt 0 5) emptyRecorder)))
           {| result := [ifAt 0 80 (binary OpEqual a_ b_)
                              (BlockStatement [call "g"])
                              (Some (BlockStatement [call "h"]))];
              hasChanged := true;
              stopped := false |}).
  reflexivity.
Defined.





Lemma undecided_if_prunes_its_branches_witness :
  alternateWithinTheTable
    (binary OpEqual a_ b_)
    (Some (BlockStatement
             [ifAt 58 78 (binary OpNotEqual a_ b_)
                   (BlockStatement [call "h"]) None]))
  /\ (exists c' a',
         PrunedBelow (binary OpEqual a_ b_)
                     (BlockStatement
                        [ifAt 14 48 (binary OpNotEqual a_ b_)
                              (BlockStatement [call "f"])
                              (Some (BlockStatement [call "g"]))])
                     c'
         /\ PrunedAlternate
              (binary OpEqual a_ b_)
              (Some (BlockStatement
                       [ifAt 58 78 (binary OpNotEqual a_ b_)
                             (BlockStatement [call "h"]) None]))
              a'
         /\ (c' <> BlockStatement
                     [ifAt 14 48 (binary OpNotEqual a_ b_)
                           (BlockStatement [call "f"])
                           (Some (BlockStatement [call "g"]))]
             \/ a' <> Some (BlockStatement
                              [ifAt 58 78 (binary OpNotEqual a_ b_)
                                    (BlockStatement [call "h"]) None]) ->
             removeDeadCode nestedCode (cursorAt 0 5) emptyRecorder
             = Done (write
                       (printProgram
                          ([] ++ IfStatement (mkSelection 0 0 0 80)
                                   (binary OpEqual a_ b_) c' a' :: []))
                       None emptyRecorder)))
  /\ removeDeadCode nestedCode (cursorAt 0 5) emptyRecorder
     = Done (write "if (a == b) { g(); } else { h(); }" None
                   emptyRecorder).
Proof.
  assert (Hgov : alternateWithinTheTable
                   (binary OpEqual a_ b_)
                   (Some (BlockStatement
                            [ifAt 58 78 (binary OpNotEqual a_ b_)
                                  (BlockStatement [call "h"]) None])))
    by (intros root _ _; reflexivity).
  split; [exact Hgov|]. split; [|reflexivity].
  destruct (proj2 (proj1 (proj2 (proj2
              (@undecided_if_prunes_its_branches
                 sampleAst (cursorAt 0 5) (mkSelection 0 0 0 80)
                 (binary OpEqual a_ b_)
                 (BlockStatement
                    [ifAt 14 48 (binary OpNotEqual a_ b_)
                          (BlockStatement [call "f"])
                          (Some (BlockStatement [call "g"]))])
                 (Some (BlockStatement
                          [ifAt 58 78 (binary OpNotEqual a_ b_)
                                (BlockStatement [call "h"]) None]))
                 eq_refl eq_refl eq_refl))) Hgov)
              Recorder _ emptyRecorder nestedCode [] [])
    as (c' & a' & Pc & _ & Pa & _ & Hw).
  - reflexivity.
  - intros i Hi. vm_compute in Hi.
    destruct Hi as [<-|[<-|[]]]; reflexivity.
  - exists c', a'. split; [exact Pc|]. split; [exact Pa|exact Hw].
Defined.

End RemoveDeadCodeSamples.

(* ================================================================= *)
(** ** The adapter's members on a document *)

Module TextFacts.

Lemma substring_skip :
  forall doc s m,
    (substring s m doc ++ vscode.skip (s + m) doc)%string
    = vscode.skip s doc.
Proof.
  induction doc as [|ch rest IH]; intros s m.
  - destruct s, m; reflexivity.
  - destruct s as [|s].
    + destruct m as [|m]; [reflexivity|].
      cbn [substring Nat.add vscode.skip String.append].
      f_equal. exact (IH 0 m).
    + cbn [substring Nat.add vscode.skip]. apply IH.
Qed.

Lemma substring_whole :
  forall doc, substring 0 (String.length doc) doc = doc.
Proof. induction doc; cbn; congruence. Qed.

(** A text is what lies before an offset, what lies between it and a
    second one, and what lies after both. *)
Lemma three_parts :
  forall doc s e,
    (substring 0 s doc ++ substring s (e - s) doc
       ++ vscode.skip (Nat.max s e) doc)%string = doc.
Proof.
  intros doc s e.
  replace (Nat.max s e) with (s + (e - s)) by lia.
  rewrite substring_skip.
  exact (substring_skip doc 0 s).
Qed.

(** The offset of a position grows with the position. *)
Lemma offsetAt_monotone :
  forall text l c l' c',
    l < l' \/ (l = l' /\ c <= c') ->
    vscode.offsetAt text l c <= vscode.offsetAt text l' c'.
Proof.
  induction text as [|ch rest IH]; intros l c l' c' Hle; [reflexivity|].
  cbn [vscode.offsetAt].
  destruct l as [|l], l' as [|l']; try lia.
  - destruct c as [|c], c' as [|c']; try lia.
    destruct (vscode.isLineFeed ch); [lia|].
    apply le_n_S, IH. lia.
  - destruct c as [|c]; [lia|].
    destruct (vscode.isLineFeed ch); [lia|].
    apply le_n_S, IH. lia.
  - apply le_n_S, IH. destruct (vscode.isLineFeed ch); lia.
Qed.

End TextFacts.

Section AdapterMembers.

Import VSCodeEditor ObserveEditor TextFacts.

Lemma applyEdit_single :
  forall doc e,
    vscode.applyEdit doc [e]
    = vscode.replaceBetween doc
        (vscode.offsetOf doc (vscode.start (vscode.range e)))
        (vscode.offsetOf doc (vscode.end_ (vscode.range e)))
        (vscode.newText e).
Proof. reflexivity. Qed.

(** X1.  [write] on the VS Code adapter: [editRange] is the range of the
    whole document, so the document becomes the code that is written,
    whatever it held; the cursor goes to the new position when one is
    given and otherwise collapses to the start of the selection the
    editor had; the error messages are not touched. *)
Theorem write_replaces_the_text_and_places_the_cursor :
  forall (newCode : Code) (ed : VSCodeEditor.t),
    vscode.getText (document ed) (editRange ed)
    = VSCodeEditorMembers.code ed
    /\ (forall cursor,
           VSCodeEditorMembers.code (write newCode cursor ed) = newCode)
    /\ (forall position,
           VSCodeEditorMembers.selection (write newCode (Some position) ed)
           = Build_Selection position position)
    /\ VSCodeEditorMembers.selection (write newCode None ed)
       = Build_Selection (start (VSCodeEditorMembers.selection ed))
                         (start (VSCodeEditorMembers.selection ed))
    /\ (forall cursor,
           errorMessages (write newCode cursor ed) = errorMessages ed).
Proof.
  intros newCode ed. split; [|split; [|split; [|split]]].
  - unfold vscode.getText, editRange, vscode.offsetOf.
    cbn [vscode.start vscode.end_ vscode.line vscode.character].
    replace (vscode.offsetAt (document ed) 0 0) with 0
      by (now destruct (document ed)).
    rewrite offsetAt_past_the_last_line by (unfold vscode.lineCount; lia).
    rewrite Nat.sub_0_r. apply substring_whole.
  - intros cursor. apply write_replaces_the_document.
  - intros [l c]. reflexivity.
  - reflexivity.
  - reflexivity.
Qed.

(** X2.  [readThenWrite] with an update that rewrites the code it is
    given at the selection it was read from: for a selection whose
    start is not after its end, the document is the text before the
    selection, the code that was read and the text after it, and the
    edit replaces the middle part by the rewritten code and nothing
    else; writing back the code as it was read leaves the document
    as it is. *)
Theorem readThenWrite_rewrites_what_it_read :
  forall sel (f : Code -> Code) newCursorPosition ed,
    line (start sel) < line (end_ sel)
    \/ (line (start sel) = line (end_ sel)
        /\ character (start sel) <= character (end_ sel)) ->
    document ed
    = (before sel ed ++ readCode sel ed ++ after sel ed)%string
    /\ document (readThenWrite sel (inPlace f sel) newCursorPosition ed)
       = (before sel ed ++ f (readCode sel ed) ++ after sel ed)%string
    /\ document (readThenWrite sel (inPlace (fun code => code) sel)
                               newCursorPosition ed)
       = document ed.
Proof.
  intros sel f newCursorPosition ed Hordered.
  pose proof (@offsetAt_monotone (document ed) _ _ _ _ Hordered) as Hle.
  set (s := vscode.offsetAt (document ed) (line (start sel))
                            (character (start sel))) in Hle.
  set (e := vscode.offsetAt (document ed) (line (end_ sel))
                            (character (end_ sel))) in Hle.
  assert (Hparts :
            document ed
            = (before sel ed ++ readCode sel ed ++ after sel ed)%string).
  { unfold before, after, readCode, vscode.getText, vscode.offsetOf.
    cbn [toVSCodePosition vscode.start vscode.end_
         vscode.line vscode.character].
    fold s e. rewrite <- (three_parts (document ed) s e) at 1.
    now rewrite Nat.max_r by exact Hle. }
  assert (Hedit : forall g,
            document (readThenWrite sel (inPlace g sel)
                                    newCursorPosition ed)
            = (before sel ed ++ g (readCode sel ed)
                 ++ after sel ed)%string).
  { intros g. unfold readThenWrite, inPlace.
    cbn [document map]. rewrite applyEdit_single.
    unfold vscode.replaceBetween, before, after, toTextEdit,
      vscode.offsetOf.
    cbn [vscode.range vscode.newText vscode.start vscode.end_
         toVSCodePosition vscode.line vscode.character
         selection code].
    fold s e. now rewrite Nat.max_r by exact Hle. }
  split; [exact Hparts|]. split; [apply Hedit|].
  rewrite Hedit. now rewrite <- Hparts.
Qed.

Lemma readThenWrite_rewrites_what_it_read_witness :
  (line (start (mkSelection 1 4 1 10)) < line (end_ (mkSelection 1 4 1 10))
   \/ (line (start (mkSelection 1 4 1 10))
       = line (end_ (mkSelection 1 4 1 10))
       /\ character (start (mkSelection 1 4 1 10))
          <= character (end_ (mkSelection 1 4 1 10))))
  /\ readCode (mkSelection 1 4 1 10) EditorSamples.twoLines = "a == b"
  /\ document EditorSamples.twoLines
     = (before (mkSelection 1 4 1 10) EditorSamples.twoLines
          ++ readCode (mkSelection 1 4 1 10) EditorSamples.twoLines
          ++ after (mkSelection 1 4 1 10) EditorSamples.twoLines)%string
  /\ document (readThenWrite (mkSelection 1 4 1 10)
                 (inPlace EditorSamples.toNegation (mkSelection 1 4 1 10))
                 None EditorSamples.twoLines)
     = (before (mkSelection 1 4 1 10) EditorSamples.twoLines
          ++ "!(a != b)"
          ++ after (mkSelection 1 4 1 10) EditorSamples.twoLines)%string.
Proof.
  assert (Hordered :
            line (start (mkSelection 1 4 1 10))
            < line (end_ (mkSelection 1 4 1 10))
            \/ (line (start (mkSelection 1 4 1 10))
                = line (end_ (mkSelection 1 4 1 10))
                /\ character (start (mkSelection 1 4 1 10))
                   <= character (end_ (mkSelection 1 4 1 10))))
    by (right; cbn; lia).
  split; [exact Hordered|]. split; [reflexivity|].
  pose proof (@readThenWrite_rewrites_what_it_read
                (mkSelection 1 4 1 10) EditorSamples.toNegation None
                EditorSamples.twoLines Hordered) as (Hparts & Hedit & _).
  split; [exact Hparts|exact Hedit].
Defined.

(** X4.  [getSelectionReferences] asks the host at the start of the
    selection only, and answers with one reference per location, in the
    same order: the path is the location's, and the selection is the
    location's range as [createSelectionFromVSCode] converts it, moved
    one line down, so that no reference is on line 0 and the order of
    start and end is the range's. *)
Theorem getSelectionReferences_moves_ranges_one_line_down :
  forall executeReferenceProvider sel,
    map VSCodeEditorMembers.referencePath
        (VSCodeEditorMembers.getSelectionReferences
           executeReferenceProvider sel)
    = map VSCodeEditorMembers.uriPath
          (executeReferenceProvider (start sel))
    /\ map VSCodeEditorMembers.referenceSelection
           (VSCodeEditorMembers.getSelectionReferences
              executeReferenceProvider sel)
       = map (fun loc =>
                oneLineDown
                  (VSCodeEditorMembers.createSelectionFromVSCode
                     (VSCodeEditorMembers.locationRange loc)))
             (executeReferenceProvider (start sel))
    /\ (forall reference,
           In reference
              (VSCodeEditorMembers.getSelectionReferences
                 executeReferenceProvider sel) ->
           1 <= line (start
                        (VSCodeEditorMembers.referenceSelection reference))
           /\ 1 <= line (end_
                           (VSCodeEditorMembers.referenceSelection
                              reference)))
    /\ (forall range,
           isSameOrBefore
             (start (oneLineDown
                       (VSCodeEditorMembers.createSelectionFromVSCode
                          range)))
             (end_ (oneLineDown
                      (VSCodeEditorMembers.createSelectionFromVSCode
                         range)))
           = isSameOrBefore
               (start (VSCodeEditorMembers.createSelectionFromVSCode range))
               (end_ (VSCodeEditorMembers.createSelectionFromVSCode range)))
    /\ (forall sel',
           start sel' = start sel ->
           VSCodeEditorMembers.getSelectionReferences
             executeReferenceProvider sel'
           = VSCodeEditorMembers.getSelectionReferences
               executeReferenceProvider sel).
Proof.
  intros provider sel.
  unfold VSCodeEditorMembers.getSelectionReferences.
  split; [|split; [|split; [|split]]].
  - rewrite map_map. reflexivity.
  - rewrite map_map. apply map_ext. intros [p [[sl sc] [el ec]]].
    reflexivity.
  - intros reference Hin. apply in_map_iff in Hin as (loc & <- & _).
    cbn. lia.
  - intros [[sl sc] [el ec]]. unfold isSameOrBefore. cbn.
    now rewrite !Nat.add_1_r.
  - intros sel' Hstart. now rewrite Hstart.
Qed.

Lemma getSelectionReferences_moves_ranges_one_line_down_witness :
  start (cursorAt 2 6) = start (mkSelection 2 6 2 7)
  /\ VSCodeEditorMembers.getSelectionReferences
       EditorSamples.locations (cursorAt 2 6)
     = VSCodeEditorMembers.getSelectionReferences
         EditorSamples.locations (mkSelection 2 6 2 7)
  /\ map VSCodeEditorMembers.referenceSelection
         (VSCodeEditorMembers.getSelectionReferences
            EditorSamples.locations (mkSelection 2 6 2 7))
     = [mkSelection 1 6 1 7; mkSelection 4 2 5 0].
Proof.
  split; [reflexivity|]. split.
  - apply (proj2 (proj2 (proj2 (proj2
             (@getSelectionReferences_moves_ranges_one_line_down
                EditorSamples.locations (mkSelection 2 6 2 7)))))).
    reflexivity.
  - reflexivity.
Defined.

(** X5.  [showError] shows one message and edits nothing: after any
    number of errors the document and the selection are the ones the
    editor had and the messages shown are the earlier ones followed
    by one message per error, in the order of the calls; an error
    shown before an edit or after it gives the same editor. *)
Theorem showError_only_adds_messages :
  forall errorReasonToString reasons (ed : VSCodeEditor.t),
    document (showErrors errorReasonToString reasons ed) = document ed
    /\ editorSelection (showErrors errorReasonToString reasons ed)
       = editorSelection ed
    /\ errorMessages (showErrors errorReasonToString reasons ed)
       = errorMessages ed ++ map errorReasonToString reasons
    /\ (forall reason newCode cursor,
           showError errorReasonToString reason (write newCode cursor ed)
           = write newCode cursor
                   (showError errorReasonToString reason ed))
    /\ (forall reason sel getModifications cursor,
           showError errorReasonToString reason
                     (readThenWrite sel getModifications cursor ed)
           = readThenWrite sel getModifications cursor
                           (showError errorReasonToString reason ed)).
Proof.
  intros toStr reasons. unfold showErrors.
  induction reasons as [|reason rest IH]; intros ed.
  - cbn [fold_left map]. rewrite app_nil_r.
    repeat split; reflexivity.
  - cbn [fold_left map].
    destruct (IH (showError toStr reason ed)) as (Hd & Hs & Hm & _).
    rewrite Hd, Hs, Hm. cbn [showError document editorSelection
                             errorMessages].
    rewrite <- app_assoc. repeat split; reflexivity.
Qed.

(** X6.  [askUserChoice] offers the host one item per choice, in the
    order of the choices, each with the value and the description of
    its choice and with its label, prefixed by the icon in [$( )] when
    the choice has a non-empty one.  When the host answers with one of
    the items it was offered, the answer carries the value of one of
    the choices; with no choice to offer there is no answer. *)
Theorem askUserChoice_answers_with_an_offered_choice :
  forall (T : Type) showQuickPick
         (choices : list (VSCodeEditorMembers.Choice T)) placeHolder,
    (forall items ph item,
        showQuickPick items ph = Some item -> In item items) ->
    (choices = [] ->
     VSCodeEditorMembers.askUserChoice showQuickPick choices placeHolder
     = None)
    /\ forall item,
        VSCodeEditorMembers.askUserChoice showQuickPick choices placeHolder
        = Some item ->
        exists choice,
          In choice choices
          /\ VSCodeEditorMembers.itemValue item
             = VSCodeEditorMembers.value choice
          /\ VSCodeEditorMembers.itemDescription item
             = VSCodeEditorMembers.description choice
          /\ VSCodeEditorMembers.itemLabel item
             = match VSCodeEditorMembers.icon choice with
               | None | Some EmptyString => VSCodeEditorMembers.label choice
               | Some name =>
                   ("$(" ++ name ++ ") "
                      ++ VSCodeEditorMembers.label choice)%string
               end.
Proof.
  intros T showQuickPick choices placeHolder Hpick.
  unfold VSCodeEditorMembers.askUserChoice. split.
  - intros ->. cbn [map].
    destruct (showQuickPick [] placeHolder) as [item|] eqn:E;
      [|reflexivity].
    now apply Hpick in E.
  - intros item E. apply Hpick in E.
    apply in_map_iff in E as (choice & <- & Hin).
    exists choice. split; [exact Hin|].
    split; [reflexivity|]. split; [reflexivity|].
    unfold VSCodeEditorMembers.toQuickPickItem.
    cbn [VSCodeEditorMembers.itemLabel].
    now destruct (VSCodeEditorMembers.icon choice) as [[|c rest]|].
Qed.

Lemma askUserChoice_answers_with_an_offered_choice_witness :
  (forall items ph item,
      EditorSamples.pickFirst items ph = Some item -> In item items)
  /\ VSCodeEditorMembers.askUserChoice EditorSamples.pickFirst
       EditorSamples.choices None
     = Some {| VSCodeEditorMembers.itemLabel := "$(symbol) Extract";
               VSCodeEditorMembers.itemValue := 1;
               VSCodeEditorMembers.itemDescription :=
                 Some "1 occurrence" |}
  /\ exists choice,
      In choice EditorSamples.choices
      /\ 1 = VSCodeEditorMembers.value choice
      /\ Some "1 occurrence" = VSCodeEditorMembers.description choice
      /\ "$(symbol) Extract"
         = match VSCodeEditorMembers.icon choice with
           | None | Some EmptyString => VSCodeEditorMembers.label choice
           | Some name =>
               ("$(" ++ name ++ ") "
                  ++ VSCodeEditorMembers.label choice)%string
           end.
Proof.
  assert (Hpick : forall items ph item,
             EditorSamples.pickFirst items ph = Some item ->
             In item items).
  { intros [|first rest] ph item; cbn; [discriminate|].
    intros [= <-]. now left. }
  split; [exact Hpick|]. split; [reflexivity|].
  exact (proj2 (@askUserChoice_answers_with_an_offered_choice
                  nat EditorSamples.pickFirst EditorSamples.choices None
                  Hpick)
               _ eq_refl).
Defined.

End AdapterMembers.

(* ================================================================= *)
(** ** More on the pass of remove-dead-code *)

Section RemoveDeadCodePasses.

Import ast Observe Pruning Invariants DriverFacts RemoveDeadCode
       RemoveDeadCodeFacts PruningFacts AccountingFacts.

Context `{Ast}.

(** A tree whose [if] statements are all settled for [g] is left as
    it is by a pass governed by [g]. *)
Lemma settled_untouched :
  forall g (v : Visitor),
    (forall fuel loc t c a,
        v fuel loc t c a
        = Done (untouched (removeDeadCodeFromNestedIf g loc t c a))) ->
    forall fuel node,
      size node <= fuel ->
      (forall i, In i (ifs node) -> settled g i) ->
      traverseStatement fuel v node = Done (untouched (Still node)).
Proof.
  intros g v Hv. induction fuel as [|fuel IH]; intros node Hfuel Hset.
  - pose proof (size_positive node). lia.
  - assert (Hchildren :
              walkChildren (traverseStatement fuel v) node
              = Done (untouched node)).
    { apply walkChildren_untouched. intros n Hn Hin. apply IH; [lia|].
      intros i Hi. apply Hset. rewrite ifs_head_nested.
      apply in_or_app. right. now apply Hin. }
    destruct node as [loc test c a|body|e|test body|arg];
      cbn [traverseStatement]; try (rewrite Hchildren; reflexivity).
    rewrite Hv. unfold removeDeadCodeFromNestedIf.
    destruct (Hset (loc, test)) as (Eo & Ee); [now left|].
    cbn [snd] in Eo, Ee. rewrite Eo, Ee.
    cbn [bind untouched result stopped hasChanged].
    fold (untouched (IfStatement loc test c a)).
    rewrite Hchildren. reflexivity.
Qed.

Lemma settled_below_untouched :
  forall g (v : Visitor),
    (forall fuel loc t c a,
        v fuel loc t c a
        = Done (untouched (removeDeadCodeFromNestedIf g loc t c a))) ->
    forall fuel root,
      size root <= S fuel ->
      (forall i, In i (nestedIfs root) -> settled g i) ->
      traverse fuel v root = Done (untouched root).
Proof.
  intros g v Hv fuel root Hfuel Hset. unfold traverse.
  apply walkChildren_untouched. intros n Hn Hin.
  apply (@settled_untouched g v Hv); [lia|].
  intros i Hi. apply Hset. now apply Hin.
Qed.

(** The undecided [if] of the program, with what the callback
    leaves below its branches. *)
Lemma updateProgram_undecided_settled :
  forall selection pre loc test c a post,
    (forall i, In i (ifsOf pre) -> isInside selection (fst i) = false) ->
    isInside selection loc = true ->
    isFalsy test = false ->
    isTruthy test = false ->
    flippable test = true ->
    (forall i, In i (ifs c ++ ifsOfOption a) ->
               isInside selection (fst i) = false) ->
    (forall i, In i (ifsOf post) -> isInside selection (fst i) = false) ->
    exists c' a' changed,
      updateProgram (pre ++ IfStatement loc test c a :: post) selection
      = Done {| result := pre ++ IfStatement loc test c' a' :: post;
                hasChanged := changed;
                stopped := false |}
      /\ (forall i, In i (nestedIfs c') -> settled test i)
      /\ (forall root i,
             a' = Some root -> In i (nestedIfs root) ->
             settled (negatedTest test) i)
      /\ forall i, In i (ifs c' ++ ifsOfOption a') ->
                   In i (ifs c ++ ifsOfOption a).
Proof.
  intros selection pre loc test c a post Hpre Hi Hf Ht Hflip Hin Hpost.
  set (program := pre ++ IfStatement loc test c a :: post).
  assert (Hsize : size (IfStatement loc test c a) + sizeList post
                  <= sizeList program).
  { unfold program. rewrite sizeList_app. unfold sizeList at 3.
    cbn [fold_right]. fold (sizeList post). lia. }
  cbn [size] in Hsize. fold (sizeOfOption a) in Hsize.
  destruct (@IfStatementVisitor_undecided _ selection (sizeList program)
              loc test c a Hi Hf Ht) as
      (c' & a' & changed & Ev & _ & _ & Sc & Sa & Hs & Hsub);
    [lia|exact Hflip|].
  exists c', a', (changed || false || false).
  split; [|split; [exact Sc|split; [exact Sa|exact Hsub]]].
  unfold updateProgram, traverseProgram.
  change (walkList (traverseStatement (fuelFor program)
                      (IfStatementVisitor selection))
                   (pre ++ IfStatement loc test c a :: post)
          = Done {| result := pre ++ IfStatement loc test c' a' :: post;
                    hasChanged := changed || false || false;
                    stopped := false |}).
  rewrite walkList_app_untouched.
  2:{ intros n Hn. apply outside_untouched.
      - unfold fuelFor, program. rewrite sizeList_app.
        apply size_In_sizeList in Hn. lia.
      - intros i Hi'. apply Hpre. unfold ifsOf. apply in_flat_map. eauto. }
  cbn [walkList]. unfold fuelFor at 1.
  cbn [traverseStatement]. rewrite Ev. cbn [bind result stopped hasChanged].
  rewrite walkChildren_untouched.
  2:{ intros n Hn Hn'. apply outside_untouched.
      - cbn [size] in Hn. fold (sizeOfOption a') in Hn. lia.
      - intros i Hi'. apply Hin, Hsub. now apply Hn'. }
  cbn [bind untouched result stopped hasChanged inList app].
  rewrite walkList_untouched.
  2:{ intros n Hn. apply outside_untouched.
      - unfold fuelFor. apply size_In_sizeList in Hn. lia.
      - intros i Hi'. apply Hpost. unfold ifsOf. apply in_flat_map. eauto. }
  reflexivity.
Qed.

(** The callback on an undecided [if] whose branches are settled
    gives the [if] back. *)
Lemma IfStatementVisitor_settled :
  forall selection fuel loc test c a,
    isInside selection loc = true ->
    isFalsy test = false ->
    isTruthy test = false ->
    flippable test = true ->
    size c + sizeOfOption a <= S fuel ->
    (forall i, In i (nestedIfs c) -> settled test i) ->
    (forall root i, a = Some root -> In i (nestedIfs root) ->
                    settled (negatedTest test) i) ->
    IfStatementVisitor selection fuel loc test c a
    = Done (untouched (Still (IfStatement loc test c a))).
Proof.
  intros selection fuel loc test c a Hi Hf Ht Hflip Hfuel Sc Sa.
  apply oppositeTest_flippable in Hflip.
  unfold IfStatementVisitor. rewrite Hi, Hf, Ht. cbn [negb].
  rewrite (@settled_below_untouched test (consequentVisitor test));
    [|reflexivity|lia|exact Sc].
  cbn [bind untouched result hasChanged].
  destruct a as [root|]; [|reflexivity].
  cbn [sizeOfOption] in Hfuel.
  rewrite (@settled_below_untouched (negatedTest test)
             (alternateVisitor test));
    [reflexivity| |lia|intros i Hin; eapply Sa; [reflexivity|exact Hin]].
  intros. unfold alternateVisitor. now rewrite Hflip.
Qed.

(** *** Two selections that the same [if] statements contain *)

Lemma walkList_ext :
  forall visit visit' nodes,
    (forall n, In n nodes -> visit n = visit' n) ->
    walkList visit nodes = walkList visit' nodes.
Proof.
  intros visit visit'. induction nodes as [|n rest IH]; intros Hall;
    [reflexivity|].
  cbn [walkList]. rewrite (Hall n) by now left.
  rewrite IH by (intros m Hm; apply Hall; now right). reflexivity.
Qed.

Lemma walkChildren_ext :
  forall visit visit' node,
    (forall n, size n < size node ->
               (forall i, In i (ifs n) -> In i (nestedIfs node)) ->
               visit n = visit' n) ->
    walkChildren visit node = walkChildren visit' node.
Proof.
  intros visit visit' node Hsub.
  destruct node as [loc test c a|body|e|test body|arg];
    cbn [walkChildren]; try reflexivity.
  - unfold walkSlot. rewrite (Hsub c).
    + destruct a as [a|]; cbn [walkOptionalSlot]; [|reflexivity].
      rewrite (Hsub a); [reflexivity|cbn; lia|].
      intros i Hi. cbn [nestedIfs ifsOfOption]. apply in_or_app. now right.
    + cbn. lia.
    + intros i Hi. cbn [nestedIfs]. apply in_or_app. now left.
  - rewrite (@walkList_ext visit visit'); [reflexivity|].
    intros n Hn. apply Hsub.
    + rewrite size_BlockStatement. apply size_In_sizeList in Hn. lia.
    + intros i Hi. cbn [nestedIfs]. unfold ifsOf.
      apply in_flat_map. eauto.
  - unfold walkSlot. rewrite (Hsub body); [reflexivity|cbn; lia|].
    intros i Hi. exact Hi.
Qed.

(** The pass reads the selection through [isInside] on the ranges of
    the [if] statements of the tree, and through nothing else. *)
Lemma traverseStatement_same_ifs :
  forall selection selection' fuel node,
    size node <= fuel ->
    (forall i, In i (ifs node) ->
               isInside selection (fst i) = isInside selection' (fst i)) ->
    traverseStatement fuel (IfStatementVisitor selection) node
    = traverseStatement fuel (IfStatementVisitor selection') node.
Proof.
  intros selection selection'.
  induction fuel as [|fuel IH]; intros node Hfuel Hsame; [reflexivity|].
  assert (Hchildren : forall node',
             size node' <= S fuel ->
             (forall i, In i (nestedIfs node') ->
                        isInside selection (fst i)
                        = isInside selection' (fst i)) ->
             walkChildren
               (traverseStatement fuel (IfStatementVisitor selection))
               node'
             = walkChildren
                 (traverseStatement fuel (IfStatementVisitor selection'))
                 node').
  { intros node' Hsize Hin. apply walkChildren_ext.
    intros n Hn Hsub. apply IH; [lia|].
    intros i Hi. now apply Hin, Hsub. }
  assert (Hbelow : forall i, In i (nestedIfs node) ->
                     isInside selection (fst i)
                     = isInside selection' (fst i)).
  { intros i Hi. apply Hsame. rewrite ifs_head_nested.
    apply in_or_app. now right. }
  destruct node as [loc test c a|body|e|test body|arg];
    cbn [traverseStatement];
    try (rewrite Hchildren by assumption; reflexivity).
  assert (Ev : IfStatementVisitor selection fuel loc test c a
               = IfStatementVisitor selection' fuel loc test c a).
  { assert (Ei : isInside selection loc = isInside selection' loc)
      by (apply (Hsame (loc, test)); now left).
    unfold IfStatementVisitor. now rewrite Ei. }
  rewrite Ev.
  assert (Hsize : size c + sizeOfOption a <= fuel).
  { cbn [size] in Hfuel. fold (sizeOfOption a) in Hfuel. lia. }
  pose proof (@IfStatementVisitor_sound _ selection' fuel loc test c a
                Hsize) as Hs.
  destruct (IfStatementVisitor selection' fuel loc test c a)
    as [vw|op|]; cbn [bind]; [|reflexivity|reflexivity].
  destruct Hs as (Hw & Hifs & _).
  destruct (result vw) as [node'|nodes|] eqn:Er; [| |reflexivity].
  - destruct (stopped vw); [reflexivity|].
    rewrite Hchildren; [reflexivity| |].
    + unfold weight in Hw. cbn [inSlot] in Hw. lia.
    + intros i Hi. apply Hsame, Hifs. cbn [ifsOfPath].
      rewrite ifs_head_nested. apply in_or_app. now right.
  - destruct (stopped vw); [reflexivity|].
    rewrite (@walkList_ext
               (traverseStatement fuel (IfStatementVisitor selection))
               (traverseStatement fuel (IfStatementVisitor selection')));
      [reflexivity|].
    intros n Hn. apply IH.
    + unfold weight in Hw. cbn [inSlot] in Hw.
      rewrite size_BlockStatement in Hw.
      apply size_In_sizeList in Hn. lia.
    + intros i Hi. apply Hsame, Hifs. cbn [ifsOfPath]. unfold ifsOf.
      apply in_flat_map. eauto.
Qed.

End RemoveDeadCodePasses.

Section RemoveDeadCodeRuns.

Import ast Observe Pruning Invariants DriverFacts RemoveDeadCode
       RemoveDeadCodeFacts PruningFacts AccountingFacts.

Context `{Ast}.

(** X7.  When no [if] of the code contains the selection (a code
    without any [if] is one such), the pass gives the program back as
    it parsed it, [hasDeadCode] answers no, and [removeDeadCode] shows
    [DidNotFoundDeadCode] and writes nothing. *)
Theorem removeDeadCode_outside_every_if_reports :
  forall (E : Type) `{Editor E} (editor : E) code selection,
    (forall i, In i (ifsOf (parse code)) ->
               isInside selection (fst i) = false) ->
    updateProgram (parse code) selection = Done (untouched (parse code))
    /\ updateCode code selection
       = Done {| ast.code := print (parse code);
                 hasCodeChanged := false |}
    /\ hasDeadCode code selection = Done false
    /\ removeDeadCode code selection editor
       = Done (showError DidNotFoundDeadCode editor).
Proof.
  intros E HE editor code selection Hout.
  assert (Hu : updateProgram (parse code) selection
               = Done (untouched (parse code))).
  { unfold updateProgram, traverseProgram. apply walkList_untouched.
    intros n Hn. apply outside_untouched.
    - unfold fuelFor. apply size_In_sizeList in Hn. lia.
    - intros i Hi. apply Hout. unfold ifsOf. apply in_flat_map. eauto. }
  split; [exact Hu|].
  unfold removeDeadCode, hasDeadCode.
  rewrite updateCode_updateProgram, Hu.
  repeat split.
Qed.

(** X8.  The pass only removes: the updated code is the print of a
    program that has no more nodes than the parsed one and whose [if]
    statements, range and test, are all [if] statements of the parsed
    one; when the code is reported as changed, the program has lost
    at least one [if]. *)
Theorem updateCode_only_removes :
  forall code selection updated,
    updateCode code selection = Done updated ->
    exists program,
      ast.code updated = print program
      /\ sizeList program <= sizeList (parse code)
      /\ (forall i, In i (ifsOf program) -> In i (ifsOf (parse code)))
      /\ (hasCodeChanged updated = true ->
          length (ifsOf program) < length (ifsOf (parse code)))
      /\ (hasCodeChanged updated = false -> program = parse code).
Proof.
  intros code selection updated. rewrite updateCode_updateProgram.
  pose proof (updateProgram_sound (parse code) selection) as Hs.
  destruct (updateProgram (parse code) selection) as [w|op|] eqn:Ew;
    cbn [bind]; [|discriminate|discriminate].
  intros [= <-]. cbn [ast.code hasCodeChanged].
  destruct Hs as (Hsize & Hifs).
  unfold updateProgram, traverseProgram in Ew.
  destruct (@walkList_accounted
              (traverseStatement (fuelFor (parse code))
                                 (IfStatementVisitor selection))
              (parse code) w) as (Hsame & Hcount); [|exact Ew|].
  { intros n w' _. apply traverseStatement_accounted.
    apply IfStatementVisitor_accounted. }
  exists (result w). split; [reflexivity|]. split; [exact Hsize|].
  split; [exact Hifs|]. split; [|exact Hsame].
  unfold Program in *. intros Hch. rewrite Hch in Hcount.
  cbn [flag] in Hcount. lia.
Qed.


(** X10.  The selection is read through the [if] statements that
    contain it and through nothing else: two selections that the same
    [if] statements of the code contain get the same updated code, the
    same answer from [hasDeadCode] and the same call on the editor
    from [removeDeadCode]. *)
Theorem same_ifs_around_the_selection_same_result :
  forall code selection selection',
    (forall i, In i (ifsOf (parse code)) ->
               isInside selection (fst i) = isInside selection' (fst i)) ->
    updateCode code selection = updateCode code selection'
    /\ hasDeadCode code selection = hasDeadCode code selection'
    /\ forall (E : Type) `{Editor E} (editor : E),
        removeDeadCode code selection editor
        = removeDeadCode code selection' editor.
Proof.
  intros code selection selection' Hsame.
  assert (Hu : updateCode code selection = updateCode code selection').
  { rewrite !updateCode_updateProgram.
    unfold updateProgram, traverseProgram.
    rewrite (@walkList_ext
               (traverseStatement (fuelFor (parse code))
                                  (IfStatementVisitor selection))
               (traverseStatement (fuelFor (parse code))
                                  (IfStatementVisitor selection')));
      [reflexivity|].
    intros n Hn. apply traverseStatement_same_ifs.
    - unfold fuelFor. apply size_In_sizeList in Hn. lia.
    - intros i Hi. apply Hsame. unfold ifsOf. apply in_flat_map. eauto. }
  split; [exact Hu|]. unfold hasDeadCode, removeDeadCode.
  rewrite Hu. split; reflexivity.
Qed.

End RemoveDeadCodeRuns.

Section RemoveDeadCodeRunsSamples.

Import ast Observe Pruning Invariants RemoveDeadCode Samples.

Lemma removeDeadCode_outside_every_if_reports_witness :
  (forall i, In i (ifsOf (parse nestedCode)) ->
             isInside (cursorAt 0 95) (fst i) = false)
  /\ hasDeadCode nestedCode (cursorAt 0 95) = Done false
  /\ removeDeadCode nestedCode (cursorAt 0 95) emptyRecorder
     = Done (showError DidNotFoundDeadCode emptyRecorder).
Proof.
  assert (Hout : forall i, In i (ifsOf (parse nestedCode)) ->
                           isInside (cursorAt 0 95) (fst i) = false).
  { intros i Hi. vm_compute in Hi.
    destruct Hi as [<-|[<-|[<-|[]]]]; reflexivity. }
  split; [exact Hout|].
  exact (proj2 (proj2
           (@removeDeadCode_outside_every_if_reports
              sampleAst Recorder _ emptyRecorder nestedCode
              (cursorAt 0 95) Hout))).
Defined.

Lemma updateCode_only_removes_witness :
  updateCode nestedCode (cursorAt 0 5)
  = Done {| ast.code := "if (a == b) { g(); } else { h(); }";
            hasCodeChanged := true |}
  /\ exists program,
      "if (a == b) { g(); } else { h(); }" = print program
      /\ sizeList program <= sizeList (parse nestedCode)
      /\ (forall i, In i (ifsOf program) ->
                    In i (ifsOf (parse nestedCode)))
      /\ (true = true ->
          length (ifsOf program) < length (ifsOf (parse nestedCode)))
      /\ (true = false -> program = parse nestedCode).
Proof.
  split; [reflexivity|].
  exact (@updateCode_only_removes
           sampleAst nestedCode (cursorAt 0 5)
           {| ast.code := "if (a == b) { g(); } else { h(); }";
              hasCodeChanged := true |}
           eq_refl).
Defined.


Lemma same_ifs_around_the_selection_same_result_witness :
  (forall i, In i (ifsOf (parse nestedCode)) ->
             isInside (cursorAt 0 5) (fst i)
             = isInside (mkSelection 0 4 0 10) (fst i))
  /\ updateCode nestedCode (cursorAt 0 5)
     = updateCode nestedCode (mkSelection 0 4 0 10).
Proof.
  assert (Hsame : forall i, In i (ifsOf (parse nestedCode)) ->
                            isInside (cursorAt 0 5) (fst i)
                            = isInside (mkSelection 0 4 0 10) (fst i)).
  { intros i Hi. vm_compute in Hi.
    destruct Hi as [<-|[<-|[<-|[]]]]; reflexivity. }
  split; [exact Hsame|].
  exact (proj1 (@same_ifs_around_the_selection_same_result
                  sampleAst nestedCode (cursorAt 0 5)
                  (mkSelection 0 4 0 10) Hsame)).
Defined.

End RemoveDeadCodeRunsSamples.
